(** * dwd-radar: the radar image tracker, embedded and verified

    The repository carries two variants of the class [ImageTracker]:

    - the whole-field averaging tracker of [image-tracker.js], and
    - the single-target tracker (a user-selected legend colour followed from
      the map centre) whose source travels in [saveSettings.php].

    Both are embedded below function by function.  Conventions:

    - a JavaScript number is a binary64 [float] wherever the code divides,
      takes a root or compares fractions; counters and indices, which stay
      integers far below 2^53 and are therefore exact as numbers, are [Z],
      and [float_of_Z] takes them into arithmetic;
    - a JavaScript array is a [list]; reading index [i] is [zget], which is
      [None] ([undefined]) outside the array;
    - a [Map] is an association list in insertion order, which is the order
      its [keys()] iterate in;
    - an uncaught exception is the [Throw] outcome of a call, which hands
      back the tracker object as it was when the exception left. *)

From Stdlib Require Import ZArith Floats String Ascii Bool Lia.
From Stdlib Require Import Reals Lra DecimalString List Sorted.
From Stdlib Require DecimalFacts DecimalPos.
Import ListNotations.

Open Scope Z_scope.
Set Warnings "-inexact-float".

(** ** JavaScript values *)

(** The number that holds the integer [z] (exact below 2^53). *)
Definition float_of_Z (z : Z) : float :=
  if z <? 0 then (- of_uint63 (Uint63.of_Z (- z)))%float
  else of_uint63 (Uint63.of_Z z).

(** [Math.floor(x)] as an index: [None] when [x] is [NaN] or infinite and
    indexes nothing. *)
Definition floor_index (x : float) : option Z :=
  match Prim2SF x with
  | S754_zero _ => Some 0
  | S754_finite s m e =>
    let n := if 0 <=? e then Zpos m * 2 ^ e else Zpos m / 2 ^ (- e) in
    let exact := (0 <=? e) || (Zpos m mod 2 ^ (- e) =? 0) in
    Some (if s then (if exact then - n else - n - 1) else n)
  | S754_infinity _ => None
  | S754_nan => None
  end.

(** [arr[i]]: [undefined] when [i] is not an index of [arr]. *)
Definition zget {A : Type} (arr : list A) (i : Z) : option A :=
  if i <? 0 then None else nth_error arr (Z.to_nat i).

(** The values taken by [for (let k = lo; k < hi; k++)]. *)
Definition zspan (lo hi : Z) : list Z :=
  map (fun k => lo + Z.of_nat k) (seq 0 (Z.to_nat (hi - lo))).

(** The values taken by [for (let k = 0; k < n; k++)]. *)
Definition zrange (n : Z) : list Z := zspan 0 n.

(** The values taken by [for (let k = -r; k <= r; k++)]. *)
Definition zaround (r : Z) : list Z := zspan (- r) (r + 1).

(** An uncaught exception ends the call; the tracker object keeps whatever
    was written to it before. *)
Inductive completion (A : Type) : Type :=
| Normal (a : A)
| Throw (e : string).
Arguments Normal {A} a.
Arguments Throw {A} e.

Definition cbind {A B : Type} (c : completion A) (k : A -> completion B)
  : completion B :=
  match c with
  | Normal a => k a
  | Throw e => Throw e
  end.

(** A loop whose body may throw: the exception leaves the loop at once. *)
Fixpoint foldM {A B : Type} (body : A -> B -> completion A) (l : list B) (a : A)
  : completion A :=
  match l with
  | [] => Normal a
  | b :: l' => cbind (body a b) (foldM body l')
  end.

(** ** Scanning for a strict minimum

    The loops that look for a best candidate walk the candidates in order
    and replace the best one only when the new cost is strictly smaller.
    [None] as best-so-far stands for the initial [Infinity]; a candidate
    without a cost is passed over. *)

Section ScanDefs.
Context {A C : Type}.
Variable clt : C -> C -> bool.
Variable cost : A -> option C.

(** [c < best.cost]. *)
Definition below (c : C) (best : option (C * A)) : bool :=
  match best with
  | None => true
  | Some (m, _) => clt c m
  end.

Definition keep_min (best : option (C * A)) (a : A) : option (C * A) :=
  match cost a with
  | Some c => if below c best then Some (c, a) else best
  | None => best
  end.

Definition scan_min (l : list A) : option (C * A) := fold_left keep_min l None.

(** [a], at cost [c], is the first candidate of [l] of minimal cost: nothing
    in [l] is cheaper, and everything before [a] is dearer. *)
Definition first_min (l : list A) (c : C) (a : A) : Prop :=
  exists i,
    nth_error l i = Some a /\ cost a = Some c /\
    (forall j a' c', nth_error l j = Some a' -> cost a' = Some c' ->
                     clt c' c = false) /\
    (forall j a' c', (j < i)%nat -> nth_error l j = Some a' ->
                     cost a' = Some c' -> clt c c' = true).
End ScanDefs.

(** ** Hex colour strings *)

Local Open Scope char_scope.

Definition hex_digit (d : Z) : ascii :=
  match d with
  | 0 => "0" | 1 => "1" | 2 => "2" | 3 => "3" | 4 => "4" | 5 => "5"
  | 6 => "6" | 7 => "7" | 8 => "8" | 9 => "9" | 10 => "a" | 11 => "b"
  | 12 => "c" | 13 => "d" | 14 => "e" | _ => "f"
  end.

Local Close Scope char_scope.

Fixpoint to_hex_digits (fuel : nat) (n : Z) (acc : string) : string :=
  match fuel with
  | O => acc
  | S k =>
    let acc' := String (hex_digit (n mod 16)) acc in
    if n / 16 =? 0 then acc' else to_hex_digits k (n / 16) acc'
  end.

(** [n.toString(16)] for a non-negative integer [n]. *)
Definition toString16 (n : Z) : string :=
  to_hex_digits (S (Z.to_nat (Z.log2 n))) n "".

(** [s.padStart(2, '0')]. *)
Definition padStart2 (s : string) : string :=
  match String.length s with
  | O => "00"
  | S O => ("0" ++ s)%string
  | _ => s
  end.

(** The template literal of [parseLegend]:
    [`#${r.toString(16).padStart(2,'0')}${g...}${b...}`]. *)
Definition hex_of_rgb (r g b : Z) : string :=
  ("#" ++ padStart2 (toString16 r) ++ padStart2 (toString16 g)
       ++ padStart2 (toString16 b))%string.

Definition hex_value (c : ascii) : option Z :=
  let n := Z.of_nat (nat_of_ascii c) in
  if (48 <=? n) && (n <=? 57) then Some (n - 48)
  else if (97 <=? n) && (n <=? 102) then Some (n - 87)
  else if (65 <=? n) && (n <=? 70) then Some (n - 55)
  else None.

Fixpoint parse_hex_prefix (s : string) (acc : option Z) : option Z :=
  match s with
  | EmptyString => acc
  | String c s' =>
    match hex_value c with
    | Some d =>
      parse_hex_prefix s'
        (Some (16 * (match acc with Some a => a | None => 0 end) + d))
    | None => acc
    end
  end.

(** [parseInt(s, 16)] on the digit strings the tracker hands it: the longest
    prefix of hex digits, [NaN] ([None]) when there is none. *)
Definition parseInt16 (s : string) : option Z := parse_hex_prefix s None.

(** [hex.substring(i, j)]. *)
Definition js_substring (i j : nat) (s : string) : string :=
  String.substring i (j - i) s.

(** The three [parseInt(hex.substring(..), 16)] of [findClosestLegendColor];
    [None] when one of them is [NaN]. *)
Definition rgb_of_hex (hex : string) : option (Z * Z * Z) :=
  match parseInt16 (js_substring 1 3 hex),
        parseInt16 (js_substring 3 5 hex),
        parseInt16 (js_substring 5 7 hex) with
  | Some r, Some g, Some b => Some (r, g, b)
  | _, _, _ => None
  end.

(** ** Maps in insertion order *)

Definition ColorMap : Type := list (string * Z).

Definition Map_has (m : ColorMap) (k : string) : bool :=
  existsb (fun e => String.eqb (fst e) k) m.

Fixpoint Map_get (m : ColorMap) (k : string) : option Z :=
  match m with
  | [] => None
  | (k', v) :: m' => if String.eqb k' k then Some v else Map_get m' k
  end.

(** [m.set(k, v)]: a key already present keeps its place. *)
Fixpoint Map_set (m : ColorMap) (k : string) (v : Z) : ColorMap :=
  match m with
  | [] => [(k, v)]
  | (k', v') :: m' =>
    if String.eqb k' k then (k', v) :: m' else (k', v') :: Map_set m' k v
  end.

(** [new Map(entries)]. *)
Definition Map_new (entries : list (string * Z)) : ColorMap :=
  fold_left (fun m e => Map_set m (fst e) (snd e)) entries [].

Definition Map_keys (m : ColorMap) : list string := map fst m.

Definition Map_size (m : ColorMap) : Z := Z.of_nat (length m).

(** [colors.includes(hex)]. *)
Definition includes (colors : list string) (hex : string) : bool :=
  existsb (String.eqb hex) colors.

(** [colors.map((color, index) => [color, index + 1])]. *)
Definition with_ranks (colors : list string) : list (string * Z) :=
  combine colors (map (fun i => Z.of_nat i + 1) (seq 0 (length colors))).

(** ** Colours and images *)

Definition rgb : Type := (Z * Z * Z)%type.

(** The sum of squares under the root of [color_distance]: three squared
    differences of integers, exact as numbers. *)
Definition color_distance_sq (rgb1 rgb2 : rgb) : Z :=
  let '(r1, g1, b1) := rgb1 in
  let '(r2, g2, b2) := rgb2 in
  (r1 - r2) ^ 2 + (g1 - g2) ^ 2 + (b1 - b2) ^ 2.

(** [color_distance(rgb1, rgb2)]. *)
Definition color_distance (rgb1 rgb2 : rgb) : float :=
  PrimFloat.sqrt (float_of_Z (color_distance_sq rgb1 rgb2)).

(** A decoded bitmap: [img_data] is the RGBA byte array a canvas hands out
    for it, four bytes a pixel, row after row. *)
Record Image : Type := {
  img_width : Z;
  img_height : Z;
  img_data : list Z
}.

(** [tempCtx.getImageData(x, y, 1, 1).data]: outside the bitmap a canvas
    reads transparent black. *)
Definition getPixel (img : Image) (x y : Z) : Z * Z * Z * Z :=
  let i := 4 * (y * img_width img + x) in
  if (0 <=? x) && (x <? img_width img) && (0 <=? y) && (y <? img_height img)
  then
    match zget (img_data img) i, zget (img_data img) (i + 1),
          zget (img_data img) (i + 2), zget (img_data img) (i + 3) with
    | Some r, Some g, Some b, Some a => (r, g, b, a)
    | _, _, _, _ => (0, 0, 0, 0)
    end
  else (0, 0, 0, 0).

(** ** The tracker object *)

Record FrameRecord : Type := {
  timestamp : string;
  grid : list (list float)
}.

(** What the tracker asks of the Leaflet map it is given: points and
    coordinates are pairs of numbers, [distanceTo] is in metres. *)
Record LeafletMap : Type := {
  getSize : float * float;
  getCenter : float * float;
  latLngToContainerPoint : float * float -> float * float;
  containerPointToLatLng : float * float -> float * float;
  distanceTo : float * float -> float * float -> float
}.

(** The fields of [this].  [resultsElement] is the [textContent] of the
    results element, [None] when the tracker was built without one;
    [console] is everything written to the console so far; [selectedColor]
    exists in the single-target variant only. *)
Record ImageTracker : Type := {
  canvas : Z * Z;
  leafletMap : LeafletMap;
  resultsElement : option string;
  legendColorMap : option ColorMap;
  gridData : list FrameRecord;
  isEnabled : bool;
  GRID_SIZE : Z;
  selectedColor : option string;
  console : list string
}.
Definition set_canvas (st : ImageTracker) (c : Z * Z) : ImageTracker :=
  {| canvas := c; leafletMap := leafletMap st;
     resultsElement := resultsElement st;
     legendColorMap := legendColorMap st; gridData := gridData st;
     isEnabled := isEnabled st; GRID_SIZE := GRID_SIZE st;
     selectedColor := selectedColor st; console := console st |}.

Definition set_legendColorMap (st : ImageTracker) (m : option ColorMap)
  : ImageTracker :=
  {| canvas := canvas st; leafletMap := leafletMap st;
     resultsElement := resultsElement st;
     legendColorMap := m; gridData := gridData st;
     isEnabled := isEnabled st; GRID_SIZE := GRID_SIZE st;
     selectedColor := selectedColor st; console := console st |}.

Definition set_gridData (st : ImageTracker) (h : list FrameRecord)
  : ImageTracker :=
  {| canvas := canvas st; leafletMap := leafletMap st;
     resultsElement := resultsElement st;
     legendColorMap := legendColorMap st; gridData := h;
     isEnabled := isEnabled st; GRID_SIZE := GRID_SIZE st;
     selectedColor := selectedColor st; console := console st |}.

Definition set_isEnabled (st : ImageTracker) (b : bool) : ImageTracker :=
  {| canvas := canvas st; leafletMap := leafletMap st;
     resultsElement := resultsElement st;
     legendColorMap := legendColorMap st; gridData := gridData st;
     isEnabled := b; GRID_SIZE := GRID_SIZE st;
     selectedColor := selectedColor st; console := console st |}.

Definition set_selectedColor (st : ImageTracker) (c : option string)
  : ImageTracker :=
  {| canvas := canvas st; leafletMap := leafletMap st;
     resultsElement := resultsElement st;
     legendColorMap := legendColorMap st; gridData := gridData st;
     isEnabled := isEnabled st; GRID_SIZE := GRID_SIZE st;
     selectedColor := c; console := console st |}.

(** [if (this.resultsElement) this.resultsElement.textContent = text]. *)
Definition show (st : ImageTracker) (text : string) : ImageTracker :=
  {| canvas := canvas st; leafletMap := leafletMap st;
     resultsElement :=
       match resultsElement st with Some _ => Some text | None => None end;
     legendColorMap := legendColorMap st; gridData := gridData st;
     isEnabled := isEnabled st; GRID_SIZE := GRID_SIZE st;
     selectedColor := selectedColor st; console := console st |}.

(** [console.log], [console.warn] and [console.error]. *)
Definition log (st : ImageTracker) (line : string) : ImageTracker :=
  {| canvas := canvas st; leafletMap := leafletMap st;
     resultsElement := resultsElement st;
     legendColorMap := legendColorMap st; gridData := gridData st;
     isEnabled := isEnabled st; GRID_SIZE := GRID_SIZE st;
     selectedColor := selectedColor st; console := console st ++ [line] |}.

(** How a promise ends. *)
Inductive settled (A : Type) : Type :=
| Resolved (v : A)
| Rejected (reason : string).
Arguments Resolved {A} v.
Arguments Rejected {A} reason.

Definition TypeError : string := "TypeError".
Definition IndexSizeError : string := "IndexSizeError".
Definition NoColorsFound : string := "No colors found in legend.".
Definition ImageLoadFailed : string := "Failed to load legend image.".
Definition AmbiguousMotion : string := "Bewegung unklar".
Definition NoTargetAtReference : string := "Keine Zieldaten am Fadenkreuz".

(** ** The colour classifier (the same in both variants) *)

(** The three [parseInt] of [findClosestLegendColor] and the distance they
    give; [nan] when one of them is [NaN]. *)
Definition legend_distance (r g b : Z) (hex : string) : float :=
  match rgb_of_hex hex with
  | Some c => color_distance (r, g, b) c
  | None => nan
  end.

(** The body of the loop over [legendColorMap.keys()]. *)
Definition closer (r g b : Z) (best : float * option string) (hex : string)
  : float * option string :=
  let '(minDistance, closestColor) := best in
  let distance := legend_distance r g b hex in
  if (distance <? minDistance)%float then (distance, Some hex) else best.

Definition findClosestLegendColor (legendColorMap : option ColorMap)
  (r g b : Z) : option string :=
  match legendColorMap with
  | None => None
  | Some m =>
    if Map_size m =? 0 then None
    else
      let '(minDistance, closestColor) :=
        fold_left (closer r g b) (Map_keys m) (infinity, None) in
      if (minDistance <? 100)%float then closestColor else None
  end.

(** [classify(pixel) -> rank | none]: the closest legend colour, looked up
    in the map as [analyzeFrame] does. *)
Definition classify (legendColorMap : option ColorMap) (r g b : Z)
  : option Z :=
  match legendColorMap, findClosestLegendColor legendColorMap r g b with
  | Some m, Some closestColorHex => Map_get m closestColorHex
  | _, _ => None
  end.

(** ** Pieces both variants share *)

(** [cells rows cols]: the [(x, y)] of
    [for (y = 0; y < rows; y++) for (x = 0; x < cols; x++)], in loop order. *)
Definition cells (rows cols : Z) : list (Z * Z) :=
  flat_map (fun y => map (fun x => (x, y)) (zrange cols)) (zrange rows).

(** The [(sX, sY)] of the two search loops of radius [radius]. *)
Definition search_offsets (radius : Z) : list (Z * Z) :=
  flat_map (fun sY => map (fun sX => (sX, sY)) (zaround radius))
           (zaround radius).

(** [g[y][x]] for a row [y] known to exist. *)
Definition cell (g : list (list float)) (x y : Z) : option float :=
  match zget g y with
  | Some row => zget row x
  | None => None
  end.

(** [arr.length > 0 ? arr[arr.length - 1] : null]. *)
Definition last_record (h : list FrameRecord) : option FrameRecord :=
  zget h (Z.of_nat (length h) - 1).

(** What the code takes from the JavaScript host besides the canvas:
    [Date_ms s] is the number [new Date(s)] stands for in arithmetic, its
    milliseconds, [NaN] when [s] cannot be read; [Number_toString] is the
    conversion of a number to a string, which [toFixed] falls back on for
    numbers of [1e21] and more. *)
Record Host : Type := {
  Date_ms : string -> float;
  Number_toString : float -> string
}.

(** [(new Date(time2) - new Date(time1)) / 1000]. *)
Definition timeDiffSeconds (host : Host) (time1 time2 : string) : float :=
  ((Date_ms host time2 - Date_ms host time1) / 1000)%float.

Definition decimal (n : Z) : string := NilZero.string_of_int (Z.to_int n).

(** The tenths in [m * 2^e], halves going up:
    [floor(10 * m * 2^e + 1/2)]. *)
Definition tenths (m : positive) (e : Z) : Z :=
  if 0 <=? e then 10 * Zpos m * 2 ^ e
  else (20 * Zpos m + 2 ^ (- e)) / 2 ^ (- e + 1).

(** [x.toFixed(1)]: the decimal with one fractional digit nearest to the
    exact value of [x], the larger one when two are equally near. *)
Definition toFixed1 (host : Host) (x : float) : string :=
  match Prim2SF x with
  | S754_nan => "NaN"
  | S754_infinity s => if s then "-Infinity" else "Infinity"
  | S754_zero _ => "0.0"
  | S754_finite s m e =>
    if (0 <=? e) && (10 ^ 21 <=? Zpos m * 2 ^ e) then Number_toString host x
    else
      let n := tenths m e in
      ((if s then "-" else "") ++ decimal (n / 10) ++ "."
         ++ decimal (n mod 10))%string
  end.

(** * The whole-field averaging tracker ([image-tracker.js]) *)

Module Averaging.

Definition new_ImageTracker (canvas : Z * Z) (map : LeafletMap)
  (resultsElement : option string) : ImageTracker :=
  {| canvas := canvas; leafletMap := map;
     resultsElement := resultsElement;
     legendColorMap := None; gridData := []; isEnabled := false;
     GRID_SIZE := 10; selectedColor := None;
     console := ["ImageTracker initialized."%string] |}.

Definition setAnalysisEnabled (enabled : bool) (st : ImageTracker)
  : ImageTracker :=
  let st := set_isEnabled st enabled in
  if enabled then log st "Image analysis enabled."
  else show (set_gridData (log st "Image analysis disabled.") []) "--".

(** The loop of [parseLegend] down the centre column. *)
Definition scan_legend (img : Image) : list string :=
  fold_left
    (fun colors y =>
       let '(r, g, b, a) := getPixel img (img_width img / 2) y in
       if (200 <? a) && (r + g + b <? 700) then
         let hex := hex_of_rgb r g b in
         if negb (includes colors hex) then colors ++ [hex] else colors
       else colors)
    (zrange (img_height img)) [].

(** [parseLegend]: [loaded] is what the browser made of [legendUrl], [None]
    when [img.onerror] fires. *)
Definition parseLegend (legendUrl : string) (loaded : option Image)
  (st : ImageTracker) : settled ColorMap * ImageTracker :=
  let st := log st ("Parsing legend from: " ++ legendUrl)%string in
  match loaded with
  | Some img =>
    let colors := scan_legend img in
    let m := Map_new (with_ranks colors) in
    let st := set_legendColorMap st (Some m) in
    if Map_size m =? 0 then
      (Rejected NoColorsFound,
       log st "Could not extract any colors from the legend.")
    else (Resolved m, log st "Legend parsed successfully. Color map:")
  | None =>
    (Rejected ImageLoadFailed, log st "Failed to load legend image.")
  end.

(** One pixel of a cell: the body of the two innermost loops of
    [analyzeFrame].  An index outside [imageData] reads [undefined], which
    fails the alpha test and has no closest colour.  The colour found is a
    key of the map it was found in, so [get] returns its rank. *)
Definition sample_pixel (st : ImageTracker) (imageData : list Z)
  (gridX gridY : Z) (acc : Z * Z) (xy : Z * Z) : Z * Z :=
  let '(totalIntensity, pixelCount) := acc in
  let '(x, y) := xy in
  let i := ((gridY * GRID_SIZE st + y) * fst (canvas st)
            + (gridX * GRID_SIZE st + x)) * 4 in
  match zget imageData (i + 3), zget imageData i,
        zget imageData (i + 1), zget imageData (i + 2) with
  | Some a, Some r, Some g, Some b =>
    if 128 <? a then
      match findClosestLegendColor (legendColorMap st) r g b with
      | Some closestColorHex =>
        match legendColorMap st with
        | Some m =>
          match Map_get m closestColorHex with
          | Some rank => (totalIntensity + rank, pixelCount + 1)
          | None => acc
          end
        | None => acc
        end
      | None => acc
      end
    else acc
  | _, _, _, _ => acc
  end.

Definition cell_value (st : ImageTracker) (imageData : list Z)
  (gridX gridY : Z) : float :=
  let '(totalIntensity, pixelCount) :=
    fold_left (sample_pixel st imageData gridX gridY)
              (cells (GRID_SIZE st) (GRID_SIZE st)) (0, 0) in
  if (float_of_Z (GRID_SIZE st * GRID_SIZE st) / 10
      <? float_of_Z pixelCount)%float
  then (float_of_Z totalIntensity / float_of_Z pixelCount)%float
  else 0%float.

(** [currentGrid] after the cell loops, for the canvas size in [st]; the
    [Math.floor] of a quotient of two sizes is their integer quotient. *)
Definition rasterize (st : ImageTracker) (imageData : list Z)
  : list (list float) :=
  let cols := fst (canvas st) / GRID_SIZE st in
  let rows := snd (canvas st) / GRID_SIZE st in
  map (fun gridY => map (fun gridX => cell_value st imageData gridX gridY)
                        (zrange cols))
      (zrange rows).

Definition SEARCH_RADIUS : Z := 5.

Section Host.
Variable host : Host.

Definition calculateSpeed (dxCells dyCells : float) (time1 time2 : string)
  (st : ImageTracker) : ImageTracker :=
  let dxPixels := (dxCells * float_of_Z (GRID_SIZE st))%float in
  let dyPixels := (dyCells * float_of_Z (GRID_SIZE st))%float in
  let pixelDistance :=
    PrimFloat.sqrt (dxPixels * dxPixels + dyPixels * dyPixels)%float in
  if (pixelDistance <? 1)%float then show st "StationÃ¤r"
  else
    let mapCenter := getCenter (leafletMap st) in
    let point1 := latLngToContainerPoint (leafletMap st) mapCenter in
    let point2 := (fst point1 + dxPixels, snd point1 + dyPixels)%float in
    let newLatLng := containerPointToLatLng (leafletMap st) point2 in
    let realWorldDistanceMeters :=
      distanceTo (leafletMap st) mapCenter newLatLng in
    let timeDiff := timeDiffSeconds host time1 time2 in
    if (timeDiff <=? 0)%float then st
    else
      let speedMps := (realWorldDistanceMeters / timeDiff)%float in
      let speedKph := (speedMps * 3.6)%float in
      log (show st ("~ " ++ toFixed1 host speedKph ++ " km/h")%string)
          ("Calculated speed: " ++ toFixed1 host speedKph ++ " km/h")%string.

(** The body of the two search loops around the old cell [(x, y)] of value
    [v]; [bestMatch] is [(error, (x, y))].  A cell missing from its row reads
    [undefined] and gives the error [NaN], which is below nothing. *)
Definition search_step (grid2 : list (list float)) (rows cols x y : Z)
  (v : float) (bestMatch : float * (Z * Z)) (s : Z * Z)
  : completion (float * (Z * Z)) :=
  let '(searchX, searchY) := s in
  let newY := y + searchY in
  let newX := x + searchX in
  if (0 <=? newY) && (newY <? rows) && (0 <=? newX) && (newX <? cols) then
    match zget grid2 newY with
    | Some row2 =>
      let error :=
        match zget row2 newX with
        | Some w => abs (v - w)
        | None => nan
        end in
      if (error <? fst bestMatch)%float
      then Normal (error, (newX, newY))
      else Normal bestMatch
    | None => Throw TypeError
    end
  else Normal bestMatch.

(** The body of the two loops over the cells of the older grid. *)
Definition track_cell (grid1 grid2 : list (list float)) (rows cols : Z)
  (acc : Z * Z * Z) (xy : Z * Z) : completion (Z * Z * Z) :=
  let '(totalDx, totalDy, vectorCount) := acc in
  let '(x, y) := xy in
  match cell grid1 x y with
  | Some v =>
    if (0.1 <? v)%float then
      cbind
        (foldM (search_step grid2 rows cols x y v)
               (search_offsets SEARCH_RADIUS) (infinity, (-1, -1)))
        (fun bestMatch =>
           if (fst bestMatch <? 0.5)%float
           then Normal (totalDx + (fst (snd bestMatch) - x),
                        totalDy + (snd (snd bestMatch) - y),
                        vectorCount + 1)
           else Normal acc)
    else Normal acc
  | None => Normal acc
  end.

Definition trackMovement (gridData1 gridData2 : FrameRecord)
  (st : ImageTracker) : completion unit * ImageTracker :=
  let grid1 := grid gridData1 in
  let grid2 := grid gridData2 in
  let rows := Z.of_nat (length grid1) in
  match zget grid1 0 with
  | Some row0 =>
    let cols := Z.of_nat (length row0) in
    match foldM (track_cell grid1 grid2 rows cols) (cells rows cols)
                (0, 0, 0) with
    | Normal (totalDx, totalDy, vectorCount) =>
      if 10 <? vectorCount then
        let avgDx := (float_of_Z totalDx / float_of_Z vectorCount)%float in
        let avgDy := (float_of_Z totalDy / float_of_Z vectorCount)%float in
        (Normal tt,
         calculateSpeed avgDx avgDy (timestamp gridData1)
                        (timestamp gridData2) st)
      else (Normal tt, show st AmbiguousMotion)
    | Throw e => (Throw e, st)
    end
  | None => (Throw TypeError, st)
  end.

(** [getImageData(0, 0, width, height)] throws when the frame has no
    pixels. *)
Definition analyzeFrame (imageElement : Image) (time : string)
  (st : ImageTracker) : completion unit * ImageTracker :=
  if negb (isEnabled st)
     || match legendColorMap st with Some _ => false | None => true end
  then (Normal tt, st)
  else
    let st := set_canvas st (img_width imageElement, img_height imageElement) in
    if (fst (canvas st) =? 0) || (snd (canvas st) =? 0)
    then (Throw IndexSizeError, st)
    else
      let imageData := img_data imageElement in
      let currentGrid := rasterize st imageData in
      let lastGridData := last_record (gridData st) in
      let newGridData := {| timestamp := time; grid := currentGrid |} in
      let '(tracked, st) :=
        match lastGridData with
        | Some lastGridData =>
          if negb (String.eqb (timestamp lastGridData)
                              (timestamp newGridData))
          then trackMovement lastGridData newGridData st
          else (Normal tt, st)
        | None => (Normal tt, st)
        end in
      match tracked with
      | Normal _ =>
        let st := set_gridData st (gridData st ++ [newGridData]) in
        if 10 <? Z.of_nat (length (gridData st))
        then (Normal tt, set_gridData st (tl (gridData st)))
        else (Normal tt, st)
      | Throw e => (Throw e, st)
      end.

End Host.
End Averaging.

(** * The single-target tracker (the class carried in [saveSettings.php]) *)

Module SingleTarget.

Definition new_ImageTracker (canvas : Z * Z) (map : LeafletMap)
  (resultsElement : option string) : ImageTracker :=
  {| canvas := canvas; leafletMap := map;
     resultsElement := resultsElement;
     legendColorMap := None; gridData := []; isEnabled := false;
     GRID_SIZE := 10; selectedColor := None;
     console := ["ImageTracker initialized."%string] |}.

Definition setSelectedColor (hexColor : option string) (st : ImageTracker)
  : ImageTracker :=
  show (set_gridData (set_selectedColor st hexColor) []) "Warte auf Daten...".

Definition setAnalysisEnabled (enabled : bool) (st : ImageTracker)
  : ImageTracker :=
  let st := set_isEnabled st enabled in
  if enabled then log st "Image analysis enabled."
  else show (set_gridData (log st "Image analysis disabled.") []) "--".

(** [Math.abs(r - g) < 10 && Math.abs(g - b) < 10]. *)
Definition isGrey (r g b : Z) : bool :=
  (Z.abs (r - g) <? 10) && (Z.abs (g - b) <? 10).

(** The inner loop of [parseLegend] along row [y]: the colour it pushes
    before it breaks, if it gets that far. *)
Fixpoint scan_row (img : Image) (colorPositions : ColorMap) (y : Z)
  (xs : list Z) : option string :=
  match xs with
  | [] => None
  | x :: xs' =>
    let '(r, g, b, a) := getPixel img x y in
    if (200 <? a) && (r + g + b <? 700) && negb (isGrey r g b) then
      let hex := hex_of_rgb r g b in
      if negb (Map_has colorPositions hex) then Some hex
      else scan_row img colorPositions y xs'
    else scan_row img colorPositions y xs'
  end.

(** The two loops of [parseLegend]: [colors] and [colorPositions] at the
    end.  [0.25] and [0.75] are binary fractions, so the two products are
    exact and their floors are the integer quotients by four. *)
Definition scan_legend (img : Image) : list string * ColorMap :=
  let startX := img_width img / 4 in
  let endX := 3 * img_width img / 4 in
  fold_left
    (fun '(colors, colorPositions) y =>
       match scan_row img colorPositions y (zspan startX endX) with
       | Some hex => (colors ++ [hex], Map_set colorPositions hex y)
       | None => (colors, colorPositions)
       end)
    (zrange (img_height img)) ([], []).

Fixpoint insert_sorted (key : string -> Z) (c : string) (l : list string)
  : list string :=
  match l with
  | [] => [c]
  | d :: l' =>
    if key d <=? key c then d :: insert_sorted key c l' else c :: d :: l'
  end.

(** [colors.sort((a, b) => key(a) - key(b))]: the sort is stable. *)
Definition sort_by (key : string -> Z) (colors : list string) : list string :=
  fold_left (fun sorted c => insert_sorted key c sorted) colors [].

Definition position (colorPositions : ColorMap) (hex : string) : Z :=
  match Map_get colorPositions hex with
  | Some y => y
  | None => 0
  end.

Definition parseLegend (legendUrl : string) (loaded : option Image)
  (st : ImageTracker) : settled (ColorMap * list string) * ImageTracker :=
  let st := log st ("Parsing legend from: " ++ legendUrl)%string in
  match loaded with
  | Some img =>
    let '(colors, colorPositions) := scan_legend img in
    let colors := sort_by (position colorPositions) colors in
    let m := Map_new (with_ranks colors) in
    let st := set_legendColorMap st (Some m) in
    if Map_size m =? 0 then
      (Rejected NoColorsFound,
       log st "Could not extract any valid colors from the legend.")
    else
      (Resolved (m, colors),
       log st "Legend parsed successfully. Color map:")
  | None =>
    (Rejected ImageLoadFailed, log st "Failed to load legend image.")
  end.

(** [!this.selectedColor]: [null] and the empty string are both falsy. *)
Definition no_color (c : option string) : bool :=
  match c with
  | Some hex => String.eqb hex ""
  | None => true
  end.

(** [closestColorHex === this.selectedColor]. *)
Definition same_color (closest selected : option string) : bool :=
  match closest, selected with
  | Some a, Some b => String.eqb a b
  | None, None => true
  | _, _ => false
  end.

(** One pixel of a cell: the body of the two innermost loops of
    [analyzeFrame]. *)
Definition sample_pixel (st : ImageTracker) (imageData : list Z)
  (gridX gridY : Z) (targetColorPixels : Z) (xy : Z * Z) : Z :=
  let '(x, y) := xy in
  let i := ((gridY * GRID_SIZE st + y) * fst (canvas st)
            + (gridX * GRID_SIZE st + x)) * 4 in
  match zget imageData (i + 3), zget imageData i,
        zget imageData (i + 1), zget imageData (i + 2) with
  | Some a, Some r, Some g, Some b =>
    if 128 <? a then
      if same_color (findClosestLegendColor (legendColorMap st) r g b)
                    (selectedColor st)
      then targetColorPixels + 1
      else targetColorPixels
    else targetColorPixels
  | _, _, _, _ => targetColorPixels
  end.

Definition cell_value (st : ImageTracker) (imageData : list Z)
  (gridX gridY : Z) : float :=
  let targetColorPixels :=
    fold_left (sample_pixel st imageData gridX gridY)
              (cells (GRID_SIZE st) (GRID_SIZE st)) 0 in
  if (float_of_Z (GRID_SIZE st * GRID_SIZE st) / 10
      <? float_of_Z targetColorPixels)%float
  then 1%float
  else 0%float.

Definition rasterize (st : ImageTracker) (imageData : list Z)
  : list (list float) :=
  let cols := fst (canvas st) / GRID_SIZE st in
  let rows := snd (canvas st) / GRID_SIZE st in
  map (fun gridY => map (fun gridX => cell_value st imageData gridX gridY)
                        (zrange cols))
      (zrange rows).

Definition SEARCH_RADIUS : Z := 8.

Section Host.
Variable host : Host.

Definition calculateSpeed (dxCells dyCells : float) (time1 time2 : string)
  (st : ImageTracker) : ImageTracker :=
  if (dxCells =? 0)%float && (dyCells =? 0)%float then show st "Stationär"
  else
    let dxPixels := (dxCells * float_of_Z (GRID_SIZE st))%float in
    let dyPixels := (dyCells * float_of_Z (GRID_SIZE st))%float in
    let mapCenter := getCenter (leafletMap st) in
    let point1 := latLngToContainerPoint (leafletMap st) mapCenter in
    let point2 := (fst point1 + dxPixels, snd point1 + dyPixels)%float in
    let newLatLng := containerPointToLatLng (leafletMap st) point2 in
    let realWorldDistanceMeters :=
      distanceTo (leafletMap st) mapCenter newLatLng in
    let timeDiff := timeDiffSeconds host time1 time2 in
    if (timeDiff <=? 0)%float then st
    else
      let speedMps := (realWorldDistanceMeters / timeDiff)%float in
      let speedKph := (speedMps * 3.6)%float in
      log (show st ("~ " ++ toFixed1 host speedKph ++ " km/h")%string)
          ("Calculated speed: " ++ toFixed1 host speedKph ++ " km/h")%string.

(** The body of the two search loops around the reference cell:
    [bestMatch] is [None] while [found] is false and [minDistanceSq] is
    [Infinity]. *)
Definition search_step (grid2 : list (list float))
  (rows cols startX startY : Z) (bestMatch : option (Z * (Z * Z)))
  (s : Z * Z) : completion (option (Z * (Z * Z))) :=
  let '(sX, sY) := s in
  let newY := startY + sY in
  let newX := startX + sX in
  if (0 <=? newY) && (newY <? rows) && (0 <=? newX) && (newX <? cols) then
    match zget grid2 newY with
    | Some row2 =>
      match zget row2 newX with
      | Some w =>
        if (w =? 1)%float then
          let distanceSq := sX * sX + sY * sY in
          if below Z.ltb distanceSq bestMatch
          then Normal (Some (distanceSq, (newX, newY)))
          else Normal bestMatch
        else Normal bestMatch
      | None => Normal bestMatch
      end
    | None => Throw TypeError
    end
  else Normal bestMatch.

(** [Math.floor(size / 2 / GRID_SIZE)] as an index of the grid: [None] when
    it is [NaN] or infinite. *)
Definition crosshair_cell (size : float) (st : ImageTracker) : option Z :=
  floor_index (size / 2 / float_of_Z (GRID_SIZE st))%float.

Definition trackMovementFromCenter (gridData1 gridData2 : FrameRecord)
  (st : ImageTracker) : completion unit * ImageTracker :=
  let grid1 := grid gridData1 in
  let grid2 := grid gridData2 in
  let rows := Z.of_nat (length grid1) in
  match zget grid1 0 with
  | Some row0 =>
    let cols := Z.of_nat (length row0) in
    let mapSize := getSize (leafletMap st) in
    match crosshair_cell (fst mapSize) st, crosshair_cell (snd mapSize) st with
    | Some startX, Some startY =>
      match cell grid1 startX startY with
      | Some v =>
        if (v =? 1)%float then
          match foldM (search_step grid2 rows cols startX startY)
                      (search_offsets SEARCH_RADIUS) None with
          | Normal (Some (_, (bx, by_))) =>
            let dxCells := float_of_Z (bx - startX) in
            let dyCells := float_of_Z (by_ - startY) in
            (Normal tt,
             calculateSpeed dxCells dyCells (timestamp gridData1)
                            (timestamp gridData2) st)
          | Normal None => (Normal tt, show st AmbiguousMotion)
          | Throw e => (Throw e, st)
          end
        else (Normal tt, show st NoTargetAtReference)
      | None => (Normal tt, show st NoTargetAtReference)
      end
    | _, _ => (Normal tt, show st NoTargetAtReference)
    end
  | None => (Throw TypeError, st)
  end.

Definition analyzeFrame (imageElement : Image) (time : string)
  (st : ImageTracker) : completion unit * ImageTracker :=
  if negb (isEnabled st) || no_color (selectedColor st)
  then (Normal tt, st)
  else
    let st := set_canvas st (img_width imageElement, img_height imageElement) in
    if (fst (canvas st) =? 0) || (snd (canvas st) =? 0)
    then (Throw IndexSizeError, st)
    else
      let imageData := img_data imageElement in
      let currentGrid := rasterize st imageData in
      let lastGridData := last_record (gridData st) in
      let newGridData := {| timestamp := time; grid := currentGrid |} in
      let '(tracked, st) :=
        match lastGridData with
        | Some lastGridData =>
          if negb (String.eqb (timestamp lastGridData)
                              (timestamp newGridData))
          then trackMovementFromCenter lastGridData newGridData st
          else (Normal tt, st)
        | None => (Normal tt, st)
        end in
      match tracked with
      | Normal _ =>
        let st := set_gridData st (gridData st ++ [newGridData]) in
        if 10 <? Z.of_nat (length (gridData st))
        then (Normal tt, set_gridData st (tl (gridData st)))
        else (Normal tt, st)
      | Throw e => (Throw e, st)
      end.

End Host.
End SingleTarget.
(** * Vocabulary of the specification *)

Definition is_byte (n : Z) : Prop := 0 <= n < 256.

(** A colour of 24 bits: what a canvas pixel holds. *)
Definition rgb24 (c : rgb) : Prop :=
  let '(r, g, b) := c in is_byte r /\ is_byte g /\ is_byte b.

Definition hex_of (c : rgb) : string :=
  let '(r, g, b) := c in hex_of_rgb r g b.

(** The specification's ColorTable: distinct 24-bit colours with their
    ranks, in the table's iteration order. *)
Definition ColorTable : Type := list (rgb * Z).

Definition wf_table (t : ColorTable) : Prop :=
  Forall rgb24 (map fst t) /\ NoDup (map fst t).

(** The [Map] that holds a ColorTable in the tracker. *)
Definition map_of_table (t : ColorTable) : ColorMap :=
  map (fun e => (hex_of (fst e), snd e)) t.

(** The Euclidean distance of two colours in RGB space, as a real number:
    the root of the sum of the squares of the three channel differences. *)
Definition euclidean (p q : rgb) : R :=
  let '(r1, g1, b1) := p in
  let '(r2, g2, b2) := q in
  sqrt ((IZR r1 - IZR r2) * (IZR r1 - IZR r2)
        + (IZR g1 - IZR g2) * (IZR g1 - IZR g2)
        + (IZR b1 - IZR b2) * (IZR b1 - IZR b2)).

(** Entry [(c, rank)] is the first one of [t] at minimal Euclidean distance
    from the pixel [p]. *)
Definition nearest_entry (p : rgb) (t : ColorTable) (c : rgb) (rank : Z)
  : Prop :=
  exists i,
    nth_error t i = Some (c, rank) /\
    (forall j e, nth_error t j = Some e ->
                 (euclidean p c <= euclidean p (fst e))%R) /\
    (forall j e, (j < i)%nat -> nth_error t j = Some e ->
                 (euclidean p c < euclidean p (fst e))%R).

(** The real-world displacement of section 4.5: the cell displacement
    scaled by [cellSize], anchored at the projection's centre point, and the
    great-circle distance from the centre to the offset point. *)
Definition displacement_meters (m : LeafletMap) (cellSize : Z)
  (dxCells dyCells : float) : float :=
  let center := getCenter m in
  let anchor := latLngToContainerPoint m center in
  distanceTo m center
    (containerPointToLatLng m
       (fst anchor + dxCells * float_of_Z cellSize,
        snd anchor + dyCells * float_of_Z cellSize)%float).

(** Metres over seconds, in km/h. *)
Definition kmh (meters seconds : float) : float :=
  (meters / seconds * 3.6)%float.







(** The pixel distance of the averaging tracker. *)
Definition pixel_distance (cellSize : Z) (dxCells dyCells : float) : float :=
  let dx := (dxCells * float_of_Z cellSize)%float in
  let dy := (dyCells * float_of_Z cellSize)%float in
  PrimFloat.sqrt (dx * dx + dy * dy)%float.

(** FrameHistory after one more record: appended, and the oldest record
    dropped if that makes more than ten. *)
Definition push_evict (h : list FrameRecord) (r : FrameRecord)
  : list FrameRecord :=
  let h' := h ++ [r] in
  if 10 <? Z.of_nat (length h') then tl h' else h'.

Definition estimator : Type :=
  FrameRecord -> FrameRecord -> ImageTracker -> completion unit * ImageTracker.

(** What both [analyzeFrame]s do once the grid is built, with the motion
    estimator left open. *)
Definition record_frame (track : estimator) (newGridData : FrameRecord)
  (st : ImageTracker) : completion unit * ImageTracker :=
  let '(tracked, st) :=
    match last_record (gridData st) with
    | Some lastGridData =>
      if negb (String.eqb (timestamp lastGridData) (timestamp newGridData))
      then track lastGridData newGridData st
      else (Normal tt, st)
    | None => (Normal tt, st)
    end in
  match tracked with
  | Normal _ =>
    (Normal tt, set_gridData st (push_evict (gridData st) newGridData))
  | Throw e => (Throw e, st)
  end.

(** [st'] differs from [st] in what was shown and logged at most. *)
Definition only_output (st st' : ImageTracker) : Prop :=
  canvas st' = canvas st /\ leafletMap st' = leafletMap st /\
  legendColorMap st' = legendColorMap st /\ gridData st' = gridData st /\
  isEnabled st' = isEnabled st /\ GRID_SIZE st' = GRID_SIZE st /\
  selectedColor st' = selectedColor st.

(** The frame as the averaging tracker records it. *)
Definition averaging_record (img : Image) (time : string) (st : ImageTracker)
  : FrameRecord :=
  {| timestamp := time;
     grid := Averaging.rasterize
               (set_canvas st (img_width img, img_height img))
               (img_data img) |}.

(** The frame as the single-target tracker records it. *)
Definition single_record (img : Image) (time : string) (st : ImageTracker)
  : FrameRecord :=
  {| timestamp := time;
     grid := SingleTarget.rasterize
               (set_canvas st (img_width img, img_height img))
               (img_data img) |}.

(** The enabling preconditions of the two [analyzeFrame]s. *)
Definition averaging_ready (st : ImageTracker) : Prop :=
  isEnabled st = true /\ legendColorMap st <> None.

Definition single_ready (st : ImageTracker) : Prop :=
  isEnabled st = true /\ SingleTarget.no_color (selectedColor st) = false.

(** A cell position within a grid of [rows] by [cols] cells. *)
Definition in_bounds (rows cols : Z) (c : Z * Z) : bool :=
  (0 <=? snd c) && (snd c <? rows) && (0 <=? fst c) && (fst c <? cols).

(** The in-bounds cells of the square of radius [radius] around [(x, y)],
    in row-major order. *)
Definition window (rows cols radius x y : Z) : list (Z * Z) :=
  filter (in_bounds rows cols)
         (map (fun s => (x + fst s, y + snd s)) (search_offsets radius)).

(** Row-major order on cell positions [(x, y)]. *)
Definition row_major (a b : Z * Z) : Prop :=
  snd a < snd b \/ (snd a = snd b /\ fst a < fst b).

(** The error of matching an old cell of value [v] with a cell of value [w]
    of the newer grid: the absolute difference of the values. *)
Definition absolute_difference (v w : float) : float := abs (v - w).

(** The cost of [c] as a match: its error, if [c] holds a value and the
    error is a number below infinity. *)
Definition match_error (g2 : list (list float)) (v : float) (c : Z * Z)
  : option float :=
  match cell g2 (fst c) (snd c) with
  | Some w =>
    if (absolute_difference v w <? infinity)%float
    then Some (absolute_difference v w)
    else None
  | None => None
  end.

(** The displacement the averaging estimator accepts for the old cell
    [xy], if any: the cell is active, and its first best match in the window
    has an error below one half. *)
Definition accepted_vector (g1 g2 : list (list float)) (rows cols : Z)
  (xy : Z * Z) : option (Z * Z) :=
  match cell g1 (fst xy) (snd xy) with
  | Some v =>
    if (0.1 <? v)%float then
      match scan_min PrimFloat.ltb (match_error g2 v)
                     (window rows cols 5 (fst xy) (snd xy)) with
      | Some (err, b) =>
        if (err <? 0.5)%float
        then Some (fst b - fst xy, snd b - snd xy)
        else None
      | None => None
      end
    else None
  | None => None
  end.

Definition accepted_vectors (g1 g2 : list (list float)) (rows cols : Z)
  : list (Z * Z) :=
  flat_map (fun xy => match accepted_vector g1 g2 rows cols xy with
                      | Some d => [d]
                      | None => []
                      end)
           (cells rows cols).

Definition sum_dx (vs : list (Z * Z)) : Z := fold_right Z.add 0 (map fst vs).
Definition sum_dy (vs : list (Z * Z)) : Z := fold_right Z.add 0 (map snd vs).

(** The arithmetic mean of [n] numbers that add up to [total]. *)
Definition mean (total n : Z) : float :=
  (float_of_Z total / float_of_Z n)%float.

(** The reference cell of the single-target estimator: the centre of the
    viewport in grid coordinates. *)
Definition reference_cell (m : LeafletMap) (cellSize : Z) : option (Z * Z) :=
  match floor_index (fst (getSize m) / 2 / float_of_Z cellSize)%float,
        floor_index (snd (getSize m) / 2 / float_of_Z cellSize)%float with
  | Some x, Some y => Some (x, y)
  | _, _ => None
  end.

(** A cell of a binary grid holds the tracked colour. *)
Definition active (g : list (list float)) (c : Z * Z) : bool :=
  match cell g (fst c) (snd c) with
  | Some v => (v =? 1)%float
  | None => false
  end.

(** The squared Euclidean distance, in cells, of [c] from [ref]. *)
Definition distance_sq (ref c : Z * Z) : Z :=
  (fst c - fst ref) * (fst c - fst ref)
  + (snd c - snd ref) * (snd c - snd ref).

(** The cost of [c] as the new place of the target: its squared distance
    from the reference cell if it is active in the newer grid. *)
Definition target_cost (g2 : list (list float)) (ref c : Z * Z) : option Z :=
  if active g2 c then Some (distance_sq ref c) else None.

(** What the search of the single-target estimator comes to: the first
    nearest active cell of the window of radius 8 around [ref]. *)
Definition nearest_target (g2 : list (list float)) (rows cols : Z)
  (ref : Z * Z) : option (Z * (Z * Z)) :=
  scan_min Z.ltb (target_cost g2 ref) (window rows cols 8 (fst ref) (snd ref)).

(** The frame has pixels for [getImageData] to read. *)
Definition has_pixels (img : Image) : Prop :=
  0 < img_width img /\ 0 < img_height img.

(** The frame has pixels, and the motion estimation that a call of
    [analyzeFrame] would run can complete: the last record, if it has
    another timestamp, holds a grid with a first row and no more rows than
    the new frame gives. *)
Definition estimable (st : ImageTracker) (img : Image) (time : string)
  : Prop :=
  has_pixels img /\
  forall lastGridData,
    last_record (gridData st) = Some lastGridData ->
    timestamp lastGridData <> time ->
    grid lastGridData <> [] /\
    Z.of_nat (length (grid lastGridData)) <= img_height img / GRID_SIZE st.

(** What the centre-column scan of the averaging [parseLegend] samples in
    row [y]: the hex key of the centre pixel if it qualifies (alpha above
    200, R+G+B below 700). *)
Definition center_sample (img : Image) (y : Z) : option string :=
  let '(r, g, b, a) := getPixel img (img_width img / 2) y in
  if (200 <? a) && (r + g + b <? 700) then Some (hex_of_rgb r g b) else None.

(** A colour near the grey axis: [|R - G| < 10] and [|G - B| < 10]. *)
Definition near_gray (r g b : Z) : bool :=
  (Z.abs (r - g) <? 10) && (Z.abs (g - b) <? 10).

(** The pixel at column [x] of row [y] qualifies in the higher-fidelity
    scan (alpha above 200, R+G+B below 700, not near-grey) and has the hex
    key [hex]. *)
Definition band_sample (img : Image) (x y : Z) : option string :=
  let '(r, g, b, a) := getPixel img x y in
  if (200 <? a) && (r + g + b <? 700) && negb (near_gray r g b)
  then Some (hex_of_rgb r g b)
  else None.

(** The columns the higher-fidelity scan visits. *)
Definition band (img : Image) : list Z :=
  zspan (img_width img / 4) (3 * img_width img / 4).

(** The ranks 1, 2, ..., [n]. *)
Definition ranks (n : nat) : list Z := map (fun i => Z.of_nat i + 1) (seq 0 n).


(** Row [y] is the first row in which [sample] gives [hex]. *)
Definition first_seen_at (sample : Z -> option string) (hex : string) (y : Z)
  : Prop :=
  0 <= y /\ sample y = Some hex /\
  forall y', 0 <= y' < y -> sample y' <> Some hex.


(** Row [y] adds [hex] to the colours [known]: [hex] is the colour of the
    leftmost qualifying pixel of the band in that row whose colour is not
    known. *)
Definition records (img : Image) (known : list string) (y : Z) (hex : string)
  : Prop :=
  ~ In hex known /\
  exists x,
    In x (band img) /\ band_sample img x y = Some hex /\
    forall x' hex',
      In x' (band img) -> x' < x -> band_sample img x' y = Some hex' ->
      In hex' known.




(** The RGBA bytes of the pixel in column [px] of row [py], for image data
    of [width] pixels a row. *)
Definition pixel_at (width : Z) (imageData : list Z) (px py : Z)
  : option (Z * Z * Z * Z) :=
  let i := (py * width + px) * 4 in
  match zget imageData (i + 3), zget imageData i,
        zget imageData (i + 1), zget imageData (i + 2) with
  | Some a, Some r, Some g, Some b => Some (r, g, b, a)
  | _, _, _, _ => None
  end.

(** The constituent pixels of grid cell [(gridX, gridY)], row-major. *)
Definition cell_pixels (cellSize width : Z) (imageData : list Z)
  (gridX gridY : Z) : list (Z * Z * Z * Z) :=
  flat_map (fun xy =>
              match pixel_at width imageData (gridX * cellSize + fst xy)
                             (gridY * cellSize + snd xy) with
              | Some p => [p]
              | None => []
              end)
           (cells cellSize cellSize).

(** The pixels the rasterizer classifies: alpha above 128. *)
Definition classified (pixels : list (Z * Z * Z * Z)) : list (Z * Z * Z * Z) :=
  filter (fun p => 128 <? snd p) pixels.


(** The pixels whose closest legend colour is exactly the selected one. *)
Definition target_pixels (table : option ColorMap) (selected : option string)
  (pixels : list (Z * Z * Z * Z)) : list (Z * Z * Z * Z) :=
  filter (fun p => let '(r, g, b, _) := p in
                   SingleTarget.same_color
                     (findClosestLegendColor table r g b) selected)
         pixels.

(** [count] pixels are more than a tenth of a cell. *)
Definition covers (cellSize : Z) (count : nat) : bool :=
  (float_of_Z (cellSize * cellSize) / 10
   <? float_of_Z (Z.of_nat count))%float.


(** * Worked inputs *)

Definition demo_map : LeafletMap :=
  {| getSize := (100, 100)%float;
     getCenter := (0, 0)%float;
     latLngToContainerPoint := fun p => p;
     containerPointToLatLng := fun p => p;
     (* five metres a pixel, along x *)
     distanceTo := fun p q => (5 * abs (fst q - fst p))%float |}.

Definition demo_host : Host :=
  {| Date_ms := fun s =>
       if String.eqb s "12:00" then 0%float
       else if String.eqb s "12:05" then 300000%float
       else nan;
     Number_toString := fun _ => "1e+21"%string |}.

(** A bitmap of [w] by [h] pixels, all of them [px]. *)
Definition solid (w h : Z) (px : list Z) : Image :=
  {| img_width := w; img_height := h;
     img_data := concat (repeat px (Z.to_nat (w * h))) |}.

Definition blue : list Z := [0; 0; 255; 255].
Definition white : list Z := [255; 255; 255; 255].

Definition blue_legend : Image := solid 4 3 blue.
Definition white_legend : Image := solid 4 3 white.

(** A frame too low for a single row of cells. *)
Definition sliver : Image := solid 10 5 blue.

(** A frame of one cell, all blue. *)
Definition blue_tile : Image := solid 10 10 blue.

(** An averaging tracker with the legend [#0000ff -> 1], switched on. *)
Definition averaging_tracker : ImageTracker :=
  Averaging.setAnalysisEnabled true
    (snd (Averaging.parseLegend "legend.png" (Some blue_legend)
            (Averaging.new_ImageTracker (300, 150) demo_map (Some "--"%string)))).

(** A single-target tracker with the same legend, following [#0000ff]. *)
Definition single_tracker : ImageTracker :=
  SingleTarget.setAnalysisEnabled true
    (SingleTarget.setSelectedColor (Some "#0000ff"%string)
       (snd (SingleTarget.parseLegend "legend.png" (Some blue_legend)
               (SingleTarget.new_ImageTracker (300, 150) demo_map
                                              (Some "--"%string))))).

Definition empty_record (time : string) : FrameRecord :=
  {| timestamp := time; grid := [] |}.

Definition unit_record (time : string) : FrameRecord :=
  {| timestamp := time; grid := [[1%float]] |}.

(** A field of four by four cells that hold 1 to 16, row after row. *)
Definition ramp_record (time : string) : FrameRecord :=
  {| timestamp := time;
     grid := [[1; 2; 3; 4]; [5; 6; 7; 8]; [9; 10; 11; 12];
              [13; 14; 15; 16]]%float |}.

(** The same field one cell further to the right: the last column has
    left the frame and the first one is empty. *)
Definition ramp_record_moved (time : string) : FrameRecord :=
  {| timestamp := time;
     grid := [[0; 1; 2; 3]; [0; 5; 6; 7]; [0; 9; 10; 11];
              [0; 13; 14; 15]]%float |}.

(** A binary grid of ten by ten cells, active at [(x, y)] only. *)
Definition spot_grid (x y : Z) : list (list float) :=
  map (fun gy => map (fun gx => if (gx =? x) && (gy =? y)
                                then 1%float else 0%float)
                     (zrange 10))
      (zrange 10).

Definition spot_record (time : string) (x y : Z) : FrameRecord :=
  {| timestamp := time; grid := spot_grid x y |}.

(** The averaging tracker after a first frame of one blue cell. *)
Definition averaging_tracker_1 : ImageTracker :=
  snd (Averaging.analyzeFrame demo_host blue_tile "12:00" averaging_tracker).

(** The averaging tracker after a first frame too low for a row of cells. *)
Definition averaging_tracker_sliver : ImageTracker :=
  snd (Averaging.analyzeFrame demo_host sliver "12:00" averaging_tracker).





(** The averaging tracker after a legend parse that found no colour, still
    switched on: its table is empty, not absent. *)
Definition averaging_tracker_no_colors : ImageTracker :=
  snd (Averaging.parseLegend "legend2.png" (Some white_legend)
                             averaging_tracker).

(** The averaging tracker with its canvas sized for [blue_tile]. *)
Definition blue_tile_tracker : ImageTracker :=
  set_canvas averaging_tracker (10, 10).

(** * Auxiliary definitions of the proofs *)

(** A number that is not [NaN]. *)
Definition is_number (x : float) : Prop := Prim2SF x <> S754_nan.

(** Numbers other than [NaN] are ordered as these triples are,
    lexicographically. *)
Definition order_key (x : spec_float) : Z * Z * Z :=
  match x with
  | S754_zero _ => (0, 0, 0)
  | S754_infinity true => (-2, 0, 0)
  | S754_infinity false => (2, 0, 0)
  | S754_nan => (3, 0, 0)
  | S754_finite true m e => (-1, - e, - Zpos m)
  | S754_finite false m e => (1, e, Zpos m)
  end.

Definition key_lt (a b : Z * Z * Z) : Prop :=
  let '(a1, a2, a3) := a in
  let '(b1, b2, b3) := b in
  a1 < b1 \/ (a1 = b1 /\ (a2 < b2 \/ (a2 = b2 /\ a3 < b3))).


(** [Math.sqrt(n)] for an integer [n]. *)
Definition root (n : Z) : float := PrimFloat.sqrt (float_of_Z n).

(** The largest sum of three squared differences of bytes. *)
Definition max_distance_sq : Z := 3 * 255 ^ 2.

(** [root] rises strictly on the [fuel] integers from [n] on. *)
Fixpoint roots_rising (fuel : nat) (n : Z) : bool :=
  match fuel with
  | O => true
  | S fuel' => (root n <? root (n + 1))%float && roots_rising fuel' (n + 1)
  end.

(** The radicand of the distance [findClosestLegendColor] computes for the
    key [hex]. *)
Definition legend_cost (r g b : Z) (hex : string) : option Z :=
  match rgb_of_hex hex with
  | Some c => Some (color_distance_sq (r, g, b) c)
  | None => None
  end.

(** The pair [(minDistance, closestColor)] that stands for a best entry
    found by radicand. *)
Definition closest_state (best : option (Z * string)) : float * option string :=
  match best with
  | Some (d, hex) => (root d, Some hex)
  | None => (infinity, None)
  end.

(** The [bestMatch] object that stands for a best match. *)
Definition match_state (best : option (float * (Z * Z))) : float * (Z * Z) :=
  match best with
  | Some bestMatch => bestMatch
  | None => (infinity, (-1, -1))
  end.


Definition byte_hex_ok (n : Z) : bool :=
  match padStart2 (toString16 n) with
  | String c1 (String c2 EmptyString) =>
    match parseInt16 (String c1 (String c2 EmptyString)) with
    | Some m => m =? n
    | None => false
    end
  | _ => false
  end.

Definition two_color_table : ColorTable :=
  [((0, 0, 255), 1); ((0, 255, 0), 2)].

(** The loop of the averaging [parseLegend], row by row. *)
Definition scan_rows (sample : Z -> option string) (ys : list Z)
  (colors : list string) : list string :=
  fold_left (fun colors y =>
               match sample y with
               | Some hex =>
                 if negb (includes colors hex) then colors ++ [hex]
                 else colors
               | None => colors
               end) ys colors.

Definition band_step (img : Image) (acc : list string * ColorMap) (y : Z)
  : list string * ColorMap :=
  let '(colors, colorPositions) := acc in
  match SingleTarget.scan_row img colorPositions y (band img) with
  | Some hex => (colors ++ [hex], Map_set colorPositions hex y)
  | None => (colors, colorPositions)
  end.


(** What one pixel adds to the count of the single-target tracker. *)
Definition pixel_targets (table : option ColorMap) (selected : option string)
  (p : option (Z * Z * Z * Z)) : list (Z * Z * Z * Z) :=
  match p with
  | Some (r, g, b, a) =>
    if (128 <? a)
       && SingleTarget.same_color (findClosestLegendColor table r g b)
                                  selected
    then [(r, g, b, a)]
    else []
  | None => []
  end.


(** * Sessions: the tracker as a page drives it *)

(** A call of a public method of the averaging tracker.  [parseLegend] is
    taken at the moment its image has loaded, or failed to. *)
Inductive averaging_call : Type :=
| A_setAnalysisEnabled (enabled : bool)
| A_parseLegend (legendUrl : string) (loaded : option Image)
| A_analyzeFrame (imageElement : Image) (time : string).

(** A call of a public method of the single-target tracker. *)
Inductive single_call : Type :=
| S_setSelectedColor (hexColor : option string)
| S_setAnalysisEnabled (enabled : bool)
| S_parseLegend (legendUrl : string) (loaded : option Image)
| S_analyzeFrame (imageElement : Image) (time : string).

(** One call: how it ends, and the tracker it leaves.  A rejected promise
    is no exception; an uncaught exception leaves the tracker as it was
    when it was thrown. *)
Definition averaging_step (host : Host) (st : ImageTracker)
  (c : averaging_call) : completion unit * ImageTracker :=
  match c with
  | A_setAnalysisEnabled enabled =>
    (Normal tt, Averaging.setAnalysisEnabled enabled st)
  | A_parseLegend legendUrl loaded =>
    (Normal tt, snd (Averaging.parseLegend legendUrl loaded st))
  | A_analyzeFrame imageElement time =>
    Averaging.analyzeFrame host imageElement time st
  end.

Definition single_step (host : Host) (st : ImageTracker) (c : single_call)
  : completion unit * ImageTracker :=
  match c with
  | S_setSelectedColor hexColor =>
    (Normal tt, SingleTarget.setSelectedColor hexColor st)
  | S_setAnalysisEnabled enabled =>
    (Normal tt, SingleTarget.setAnalysisEnabled enabled st)
  | S_parseLegend legendUrl loaded =>
    (Normal tt, snd (SingleTarget.parseLegend legendUrl loaded st))
  | S_analyzeFrame imageElement time =>
    SingleTarget.analyzeFrame host imageElement time st
  end.

(** The tracker after a sequence of calls. *)
Definition averaging_run (host : Host) (calls : list averaging_call)
  (st : ImageTracker) : ImageTracker :=
  fold_left (fun st c => snd (averaging_step host st c)) calls st.

Definition single_run (host : Host) (calls : list single_call)
  (st : ImageTracker) : ImageTracker :=
  fold_left (fun st c => snd (single_step host st c)) calls st.

(** How the calls of a sequence end, one after the other. *)
Fixpoint averaging_trace (host : Host) (calls : list averaging_call)
  (st : ImageTracker) : list (completion unit) :=
  match calls with
  | [] => []
  | c :: calls' =>
    fst (averaging_step host st c)
    :: averaging_trace host calls' (snd (averaging_step host st c))
  end.

Fixpoint single_trace (host : Host) (calls : list single_call)
  (st : ImageTracker) : list (completion unit) :=
  match calls with
  | [] => []
  | c :: calls' =>
    fst (single_step host st c)
    :: single_trace host calls' (snd (single_step host st c))
  end.

(** The frames of a sequence of calls all have [width] by [height] pixels. *)
Definition averaging_frames_sized (width height : Z) (c : averaging_call)
  : Prop :=
  match c with
  | A_analyzeFrame imageElement _ =>
    img_width imageElement = width /\ img_height imageElement = height
  | _ => True
  end.

Definition single_frames_sized (width height : Z) (c : single_call) : Prop :=
  match c with
  | S_analyzeFrame imageElement _ =>
    img_width imageElement = width /\ img_height imageElement = height
  | _ => True
  end.

(** All rows of a grid have the same number of cells. *)
Definition rectangular (g : list (list float)) : Prop :=
  exists cols : nat, Forall (fun row => length row = cols) g.

(** A table as [parseLegend] builds it: distinct keys, ranks 1..N in table
    order. *)
Definition ranked_table (m : ColorMap) : Prop :=
  NoDup (Map_keys m) /\ map snd m = ranks (length m).

(** What holds of a tracker whatever the page has called on it. *)
Definition tracker_invariant (st : ImageTracker) : Prop :=
  GRID_SIZE st = 10 /\
  (length (gridData st) <= 10)%nat /\
  (isEnabled st = false -> gridData st = []) /\
  Forall (fun r => rectangular (grid r)) (gridData st) /\
  match legendColorMap st with
  | Some m => ranked_table m
  | None => True
  end.

(** ** More vocabulary *)

(** A grid of [rows] by [cols] cells that all hold [v]. *)
Definition uniform (rows cols : nat) (v : float) : list (list float) :=
  repeat (repeat v cols) rows.

(** A finite number: neither [NaN] nor infinite. *)
Definition finite (v : float) : Prop :=
  match Prim2SF v with
  | S754_zero _ => True
  | S754_finite _ _ _ => True
  | _ => False
  end.

(** The cells of the older grid the averaging estimator tracks: those with
    a value above 0.1. *)
Definition raining (g1 : list (list float)) (xy : Z * Z) : bool :=
  match cell g1 (fst xy) (snd xy) with
  | Some v => (0.1 <? v)%float
  | None => false
  end.

(** The first column, or row, of the search window of radius 5 around
    column, or row, [k]. *)
Definition window_start (k : Z) : Z := Z.max 0 (k - 5).

(** The test [d === 0] on a cell delta gives what it gives on the
    integer. *)
Definition delta_zero_ok (d : Z) : bool :=
  Bool.eqb (float_of_Z d =? 0)%float (d =? 0).

(** The frame's data are the RGBA bytes of [img_width] by [img_height]
    pixels, as [getImageData] hands them out. *)
Definition well_formed (img : Image) : Prop :=
  0 <= img_width img /\ 0 <= img_height img /\
  Z.of_nat (length (img_data img)) = 4 * (img_width img * img_height img).

(** * The CORS proxy ([proxy.php]) *)

Module Proxy.

(** A value of [$_GET]: a string, or an array when the parameter was named
    with brackets. *)
#[warnings="-register-all"]
Inductive php_value : Type :=
| PString (s : string)
| PArray (items : list (string * php_value)).

(** What the script takes from PHP and the network.  [curl target] is what
    [curl_exec] returns for [target] ([None] is [false]) with the
    [http_code] and the [content_type] ([None] is [null]) of
    [curl_getinfo]. *)
Record Php : Type := {
  http_build_query : list (string * php_value) -> string;
  curl : string -> option string * Z * option string
}.

(** The answer of the script: the status, the header lines the script set,
    in order, and the body. *)
Record Response : Type := {
  status : Z;
  headers : list string;
  body : string
}.

(** How a request ends: an answer, with the URL fetched for it if one was,
    or an uncaught exception. *)
Inductive outcome : Type :=
| Sent (r : Response) (fetched : option string)
| Uncaught (e : string).

Definition allowedPrefix : string := "https://maps.dwd.de/geoserver/dwd/wms".

(** The three [header] calls at the top of the script. *)
Definition cors : list string :=
  ["Access-Control-Allow-Origin: *"%string;
   "Access-Control-Allow-Methods: GET, OPTIONS"%string;
   "Access-Control-Allow-Headers: *"%string].

(** [$a[$k]], [None] when the key is not set. *)
Fixpoint array_get (a : list (string * php_value)) (k : string)
  : option php_value :=
  match a with
  | [] => None
  | (k', v) :: a' => if String.eqb k' k then Some v else array_get a' k
  end.

(** [unset($a[$k])]. *)
Definition unset (a : list (string * php_value)) (k : string)
  : list (string * php_value) :=
  filter (fun e => negb (String.eqb (fst e) k)) a.

(** [substr($s, 0, $n)]. *)
Definition substr0 (s : string) (n : nat) : string := String.substring 0 n s.

(** [strpos($s, $c) !== false] for a character [c]. *)
Fixpoint has_char (c : ascii) (s : string) : bool :=
  match s with
  | EmptyString => false
  | String d s' => Ascii.eqb d c || has_char c s'
  end.

(** A string in a condition: the empty string and ["0"] are false. *)
Definition truthy (s : string) : bool :=
  negb (String.eqb s "" || String.eqb s "0").

(** The whole script, for the request method and the parameters of the
    query string.  [substr] throws a [TypeError] when it is handed an
    array. *)
Definition handle (php : Php) (REQUEST_METHOD : string)
  (GET : list (string * php_value)) : outcome :=
  if String.eqb REQUEST_METHOD "OPTIONS" then
    Sent {| status := 200; headers := cors; body := ""%string |} None
  else
    match array_get GET "url" with
    | None =>
      Sent {| status := 400; headers := cors;
              body := "Fehler: Parameter 'url' fehlt."%string |} None
    | Some (PArray _) => Uncaught TypeError
    | Some (PString target) =>
      if negb (String.eqb (substr0 target (String.length allowedPrefix))
                          allowedPrefix)
      then
        Sent {| status := 403; headers := cors;
                body := ("Zugriff verweigert: '" ++ target
                           ++ "' nicht erlaubt.")%string |} None
      else
        let params := unset GET "url" in
        let target :=
          match params with
          | [] => target
          | _ :: _ =>
            let sep :=
              if has_char "?"%char target then "&"%string else "?"%string in
            (target ++ sep ++ http_build_query php params)%string
          end in
        let '(response, httpCode, contentType) := curl php target in
        Sent {| (* [http_response_code(0)] sets nothing *)
                status := if httpCode =? 0 then 200 else httpCode;
                headers :=
                  cors ++
                  match contentType with
                  | Some ct =>
                    if truthy ct then [("Content-Type: " ++ ct)%string]
                    else []
                  | None => []
                  end;
                body := match response with
                        | Some text => text
                        | None => ""%string
                        end |}
             (Some target)
    end.

End Proxy.

(** * Proofs *)

(** ** The strict-minimum scan *)

Section ScanFacts.
Context {A C : Type}.
Variable clt : C -> C -> bool.
Variable cost : A -> option C.
Variable ok : C -> Prop.

Hypothesis cost_ok : forall a c, cost a = Some c -> ok c.
Hypothesis clt_irrefl : forall a, clt a a = false.
Hypothesis clt_trans :
  forall a b c, clt a b = true -> clt b c = true -> clt a c = true.
Hypothesis clt_negtrans :
  forall a b c, ok b -> clt a b = false -> clt b c = false -> clt a c = false.

Lemma scan_min_snoc l a :
  scan_min clt cost (l ++ [a]) = keep_min clt cost (scan_min clt cost l) a.
Proof. unfold scan_min. now rewrite fold_left_app. Qed.

Lemma scan_min_none l :
  scan_min clt cost l = None -> forall a, In a l -> cost a = None.
Proof.
  induction l as [|x l IH] using rev_ind; [now intros|].
  rewrite scan_min_snoc. unfold keep_min.
  destruct (cost x) as [cx|] eqn:Hx.
  - destruct (scan_min clt cost l) as [[m b]|]; simpl; [|discriminate].
    destruct (clt cx m); discriminate.
  - intros Hs a Ha. apply in_app_or in Ha.
    destruct Ha as [Ha|[<-|[]]]; [now apply IH|exact Hx].
Qed.

Lemma nth_error_snoc_cases (l : list A) x j a' :
  nth_error (l ++ [x]) j = Some a' ->
  ((j < length l)%nat /\ nth_error l j = Some a') \/
  (j = length l /\ a' = x).
Proof.
  intros Hj. destruct (Nat.lt_ge_cases j (length l)) as [Hjl|Hjl].
  - left. rewrite nth_error_app1 in Hj by exact Hjl. auto.
  - right. rewrite nth_error_app2 in Hj by exact Hjl.
    destruct (j - length l)%nat as [|k] eqn:Ek; simpl in Hj.
    + inversion Hj. split; [lia|reflexivity].
    + destruct k; discriminate.
Qed.

Lemma first_min_keep l x c a :
  first_min clt cost l c a ->
  (forall cx, cost x = Some cx -> clt cx c = false) ->
  first_min clt cost (l ++ [x]) c a.
Proof.
  intros (i & Hi & Hc & Hall & Hbefore) Hx.
  assert (Hlen : (i < length l)%nat) by (apply nth_error_Some; congruence).
  exists i. repeat split.
  - rewrite nth_error_app1 by exact Hlen. exact Hi.
  - exact Hc.
  - intros j a' c' Hj Hc'.
    destruct (nth_error_snoc_cases _ _ _ _ Hj) as [[_ Hj']|[_ ->]]; eauto.
  - intros j a' c' Hji Hj Hc'.
    rewrite nth_error_app1 in Hj by lia. eauto.
Qed.

Lemma first_min_replace l x cx :
  cost x = Some cx ->
  (forall a' c', In a' l -> cost a' = Some c' -> clt cx c' = true) ->
  first_min clt cost (l ++ [x]) cx x.
Proof.
  intros Hx Hlow. exists (length l). repeat split.
  - rewrite nth_error_app2, Nat.sub_diag by lia. reflexivity.
  - exact Hx.
  - intros j a' c' Hj Hc'.
    destruct (nth_error_snoc_cases _ _ _ _ Hj) as [[_ Hj']|[_ ->]].
    + apply nth_error_In in Hj'. specialize (Hlow _ _ Hj' Hc').
      destruct (clt c' cx) eqn:E; [|reflexivity].
      pose proof (clt_trans _ _ _ E Hlow) as F.
      rewrite clt_irrefl in F. discriminate.
    + rewrite Hx in Hc'. inversion Hc'; subst. apply clt_irrefl.
  - intros j a' c' Hjl Hj Hc'.
    rewrite nth_error_app1 in Hj by exact Hjl.
    apply nth_error_In in Hj. eauto.
Qed.

Lemma scan_min_first l c a :
  scan_min clt cost l = Some (c, a) -> first_min clt cost l c a.
Proof.
  revert c a. induction l as [|x l IH] using rev_ind; intros c a.
  - discriminate.
  - rewrite scan_min_snoc. unfold keep_min.
    destruct (cost x) as [cx|] eqn:Hx.
    + destruct (scan_min clt cost l) as [[m b]|] eqn:Hs; simpl.
      * destruct (clt cx m) eqn:Hlt; intros E; inversion E; subst; clear E.
        -- destruct (IH _ _ eq_refl) as (i & Hi & Hc & Hall & Hbefore).
           apply first_min_replace; [exact Hx|].
           intros a' c' Ha' Hc'. apply In_nth_error in Ha'.
           destruct Ha' as [j Hj]. specialize (Hall _ _ _ Hj Hc').
           destruct (clt c c') eqn:E; [reflexivity|].
           rewrite (clt_negtrans _ _ _ (cost_ok _ _ Hc') E Hall) in Hlt.
           discriminate.
        -- apply first_min_keep; [now apply IH|].
           intros cy Hcy. congruence.
      * intros E; inversion E; subst; clear E.
        apply first_min_replace; [exact Hx|].
        intros a' c' Ha' Hc'.
        rewrite (scan_min_none _ Hs _ Ha') in Hc'. discriminate.
    + intros Hs. apply first_min_keep; [now apply IH|].
      intros cy Hcy. congruence.
Qed.

Lemma scan_min_found l a c :
  In a l -> cost a = Some c -> scan_min clt cost l <> None.
Proof.
  intros Ha Hc Hs. rewrite (scan_min_none _ Hs _ Ha) in Hc. discriminate.
Qed.

(** The first minimum is unique: position, candidate and cost. *)
Lemma first_min_unique l c a c' a' :
  first_min clt cost l c a -> first_min clt cost l c' a' ->
  a = a' /\ c = c'.
Proof.
  intros (i & Hi & Hc & Hall & Hbefore) (i' & Hi' & Hc' & Hall' & Hbefore').
  destruct (Nat.lt_trichotomy i i') as [Hlt|[->|Hlt]].
  - pose proof (Hbefore' _ _ _ Hlt Hi Hc) as E.
    rewrite (Hall _ _ _ Hi' Hc') in E. discriminate.
  - rewrite Hi in Hi'. inversion Hi'; subst.
    rewrite Hc in Hc'. inversion Hc'; subst. auto.
  - pose proof (Hbefore _ _ _ Hlt Hi' Hc') as E.
    rewrite (Hall' _ _ _ Hi Hc) in E. discriminate.
Qed.

Lemma first_min_scan l c a :
  first_min clt cost l c a -> scan_min clt cost l = Some (c, a).
Proof.
  intros H. destruct (scan_min clt cost l) as [[c' a']|] eqn:Hs.
  - apply scan_min_first in Hs.
    destruct (first_min_unique _ _ _ _ _ H Hs) as [-> ->]. reflexivity.
  - destruct H as (i & Hi & Hc & _). apply nth_error_In in Hi.
    rewrite (scan_min_none _ Hs _ Hi) in Hc. discriminate.
Qed.
End ScanFacts.

Lemma Zltb_irrefl a : Z.ltb a a = false.
Proof. apply Z.ltb_irrefl. Qed.

Lemma Zltb_trans a b c : Z.ltb a b = true -> Z.ltb b c = true -> Z.ltb a c = true.
Proof. rewrite !Z.ltb_lt. lia. Qed.

Lemma Zltb_negtrans a b c :
  Z.ltb a b = false -> Z.ltb b c = false -> Z.ltb a c = false.
Proof. rewrite !Z.ltb_ge. lia. Qed.

(** The scan facts for integer costs. *)
Lemma Z_scan_min_first {A : Type} (cost : A -> option Z) l c a :
  scan_min Z.ltb cost l = Some (c, a) -> first_min Z.ltb cost l c a.
Proof.
  apply (scan_min_first Z.ltb cost (fun _ => True)).
  - trivial.
  - exact Zltb_irrefl.
  - exact Zltb_trans.
  - intros x y z _. apply Zltb_negtrans.
Qed.

Lemma Z_first_min_scan {A : Type} (cost : A -> option Z) l c a :
  first_min Z.ltb cost l c a -> scan_min Z.ltb cost l = Some (c, a).
Proof.
  apply (first_min_scan Z.ltb cost (fun _ => True)).
  - trivial.
  - exact Zltb_irrefl.
  - exact Zltb_trans.
  - intros x y z _. apply Zltb_negtrans.
Qed.

(** ** The order of binary64 numbers *)

Lemma SFltb_key x y :
  x <> S754_nan -> y <> S754_nan ->
  (SFltb x y = true <-> key_lt (order_key x) (order_key y)).
Proof.
  intros Hx Hy. unfold SFltb, SFcompare.
  destruct x as [sx|sx| |sx mx ex], y as [sy|sy| |sy my ey]; try congruence;
    try (destruct sx); try (destruct sy); simpl;
    try (split; [discriminate || lia|]; intros;
         lia || reflexivity || (exfalso; lia)).
  all: try (split; intros; try lia; try discriminate; try reflexivity).
  all: change (PosDef.Pos.compare_cont Eq mx my) with (Pos.compare mx my) in *.
  all: destruct (Z.compare_spec ex ey); destruct (Pos.compare_spec mx my);
    simpl in *; try discriminate; try lia; try reflexivity.
Qed.

Lemma SFltb_nan_l y : SFltb S754_nan y = false.
Proof. reflexivity. Qed.

Lemma SFltb_nan_r x : SFltb x S754_nan = false.
Proof. destruct x as [[]|[]| |[] m e]; reflexivity. Qed.

Lemma ltb_numbers x y : (x <? y)%float = true -> is_number x /\ is_number y.
Proof.
  rewrite ltb_spec. unfold is_number. intros H. split; intros E.
  - rewrite E, SFltb_nan_l in H. discriminate.
  - rewrite E, SFltb_nan_r in H. discriminate.
Qed.

Lemma ltb_key x y :
  is_number x -> is_number y ->
  ((x <? y)%float = true <->
   key_lt (order_key (Prim2SF x)) (order_key (Prim2SF y))).
Proof. intros Hx Hy. rewrite ltb_spec. now apply SFltb_key. Qed.

Lemma key_lt_irrefl a : ~ key_lt a a.
Proof. destruct a as [[a1 a2] a3]. unfold key_lt. lia. Qed.

Lemma key_lt_trans a b c : key_lt a b -> key_lt b c -> key_lt a c.
Proof.
  destruct a as [[a1 a2] a3], b as [[b1 b2] b3], c as [[c1 c2] c3].
  unfold key_lt. lia.
Qed.

Lemma key_lt_negtrans a b c : ~ key_lt a b -> ~ key_lt b c -> ~ key_lt a c.
Proof.
  destruct a as [[a1 a2] a3], b as [[b1 b2] b3], c as [[c1 c2] c3].
  unfold key_lt. lia.
Qed.

Lemma ltb_irrefl x : (x <? x)%float = false.
Proof.
  destruct (x <? x)%float eqn:E; [|reflexivity].
  destruct (ltb_numbers _ _ E) as [Hx _].
  apply (ltb_key _ _ Hx Hx) in E. now apply key_lt_irrefl in E.
Qed.

Lemma ltb_trans x y z :
  (x <? y)%float = true -> (y <? z)%float = true -> (x <? z)%float = true.
Proof.
  intros Hxy Hyz.
  destruct (ltb_numbers _ _ Hxy) as [Hx Hy].
  destruct (ltb_numbers _ _ Hyz) as [_ Hz].
  apply (ltb_key _ _ Hx Hz).
  apply (ltb_key _ _ Hx Hy) in Hxy. apply (ltb_key _ _ Hy Hz) in Hyz.
  eapply key_lt_trans; eassumption.
Qed.

Lemma ltb_negtrans x y z :
  is_number y ->
  (x <? y)%float = false -> (y <? z)%float = false -> (x <? z)%float = false.
Proof.
  intros Hy Hxy Hyz.
  destruct (x <? z)%float eqn:E; [|reflexivity].
  destruct (ltb_numbers _ _ E) as [Hx Hz].
  apply (ltb_key _ _ Hx Hz) in E. exfalso.
  apply (key_lt_negtrans _ _ _
           (fun K => eq_true_false_abs _ (proj2 (ltb_key _ _ Hx Hy) K) Hxy)
           (fun K => eq_true_false_abs _ (proj2 (ltb_key _ _ Hy Hz) K) Hyz)).
  exact E.
Qed.

Lemma ltb_asym x y : (x <? y)%float = true -> (y <? x)%float = false.
Proof.
  intros H. destruct (y <? x)%float eqn:E; [|reflexivity].
  pose proof (ltb_trans _ _ _ H E) as F. rewrite ltb_irrefl in F.
  discriminate.
Qed.

(** What is not below [Infinity] is below nothing. *)
Lemma ltb_infinity_last x y :
  (x <? infinity)%float = false -> (x <? y)%float = false.
Proof.
  intros H. destruct (x <? y)%float eqn:E; [|reflexivity].
  destruct (ltb_numbers _ _ E) as [Hx Hy].
  apply (ltb_key _ _ Hx Hy) in E.
  assert (Hi : is_number infinity) by (unfold is_number; discriminate).
  assert (K : ~ key_lt (order_key (Prim2SF x)) (order_key (Prim2SF infinity))).
  { intros K. apply (ltb_key _ _ Hx Hi) in K. congruence. }
  exfalso. apply K. clear K H.
  change (Prim2SF infinity) with (S754_infinity false).
  unfold is_number in Hx, Hy.
  destruct (Prim2SF x) as [[]|[]| |[] mx ex], (Prim2SF y) as [[]|[]| |[] my ey];
    simpl in *; try congruence; lia.
Qed.

(** The scan facts for costs that are numbers. *)
Lemma float_scan_min_first {A : Type} (cost : A -> option float) l c a :
  (forall a c, cost a = Some c -> is_number c) ->
  scan_min PrimFloat.ltb cost l = Some (c, a) ->
  first_min PrimFloat.ltb cost l c a.
Proof.
  intros Hok. apply (scan_min_first PrimFloat.ltb cost is_number Hok).
  - exact ltb_irrefl.
  - exact ltb_trans.
  - exact ltb_negtrans.
Qed.

Lemma float_first_min_scan {A : Type} (cost : A -> option float) l c a :
  (forall a c, cost a = Some c -> is_number c) ->
  first_min PrimFloat.ltb cost l c a ->
  scan_min PrimFloat.ltb cost l = Some (c, a).
Proof.
  intros Hok. apply (first_min_scan PrimFloat.ltb cost is_number Hok).
  - exact ltb_irrefl.
  - exact ltb_trans.
  - exact ltb_negtrans.
Qed.
(** ** Loops over integer ranges *)

Lemma zspan_In lo hi k : In k (zspan lo hi) <-> lo <= k < hi.
Proof.
  unfold zspan. rewrite in_map_iff. split.
  - intros (n & <- & Hn). apply in_seq in Hn. lia.
  - intros H. exists (Z.to_nat (k - lo)). split; [lia|].
    apply in_seq. lia.
Qed.

Lemma zrange_In n k : In k (zrange n) <-> 0 <= k < n.
Proof. apply zspan_In. Qed.

Lemma zspan_length lo hi : length (zspan lo hi) = Z.to_nat (hi - lo).
Proof. unfold zspan. now rewrite length_map, length_seq. Qed.

Lemma zget_Some {A : Type} (l : list A) (i : Z) (a : A) :
  zget l i = Some a <-> 0 <= i /\ nth_error l (Z.to_nat i) = Some a.
Proof.
  unfold zget. destruct (i <? 0) eqn:E.
  - apply Z.ltb_lt in E. split; [discriminate|lia].
  - apply Z.ltb_ge in E. tauto.
Qed.

Lemma zget_in_range {A : Type} (l : list A) (i : Z) :
  0 <= i < Z.of_nat (length l) -> exists a, zget l i = Some a.
Proof.
  intros H. destruct (nth_error l (Z.to_nat i)) as [a|] eqn:E.
  - exists a. apply zget_Some. split; [lia|exact E].
  - apply nth_error_None in E. lia.
Qed.

Lemma zget_of_nat {A : Type} (l : list A) (n : nat) :
  zget l (Z.of_nat n) = nth_error l n.
Proof.
  unfold zget. destruct (Z.of_nat n <? 0) eqn:E.
  - apply Z.ltb_lt in E. lia.
  - now rewrite Nat2Z.id.
Qed.

(** ** Hex keys name their colour *)

Lemma byte_hex_all : forallb byte_hex_ok (zrange 256) = true.
Proof. vm_compute. reflexivity. Qed.

Lemma byte_hex n :
  is_byte n ->
  exists c1 c2,
    padStart2 (toString16 n) = String c1 (String c2 EmptyString) /\
    parseInt16 (String c1 (String c2 EmptyString)) = Some n.
Proof.
  intros Hn. pose proof byte_hex_all as Hall.
  rewrite forallb_forall in Hall.
  specialize (Hall n (proj2 (zrange_In 256 n) Hn)).
  unfold byte_hex_ok in Hall.
  destruct (padStart2 (toString16 n)) as [|c1 [|c2 [|? ?]]]; try discriminate.
  destruct (parseInt16 (String c1 (String c2 EmptyString))) as [m|] eqn:E;
    [|discriminate].
  apply Z.eqb_eq in Hall. subst m. now exists c1, c2.
Qed.

Lemma rgb_of_hex_of c : rgb24 c -> rgb_of_hex (hex_of c) = Some c.
Proof.
  destruct c as [[r g] b]. intros (Hr & Hg & Hb).
  destruct (byte_hex r Hr) as (r1 & r2 & Er & Pr).
  destruct (byte_hex g Hg) as (g1 & g2 & Eg & Pg).
  destruct (byte_hex b Hb) as (b1 & b2 & Eb & Pb).
  unfold hex_of, hex_of_rgb, rgb_of_hex. rewrite Er, Eg, Eb.
  unfold js_substring. cbn [String.append String.substring Nat.sub].
  now rewrite Pr, Pg, Pb.
Qed.

Lemma hex_of_inj c c' : rgb24 c -> rgb24 c' -> hex_of c = hex_of c' -> c = c'.
Proof.
  intros H H' E. apply rgb_of_hex_of in H, H'. congruence.
Qed.

Lemma hex_of_nonempty c : hex_of c <> EmptyString.
Proof. destruct c as [[r g] b]. discriminate. Qed.

(** ** Distances and their radicands *)

Lemma color_distance_sq_nonneg p q : 0 <= color_distance_sq p q.
Proof.
  destruct p as [[r1 g1] b1], q as [[r2 g2] b2]. unfold color_distance_sq.
  rewrite !Z.pow_2_r.
  pose proof (Z.square_nonneg (r1 - r2)).
  pose proof (Z.square_nonneg (g1 - g2)).
  pose proof (Z.square_nonneg (b1 - b2)). lia.
Qed.

Lemma byte_square_le a b : is_byte a -> is_byte b -> (a - b) ^ 2 <= 255 ^ 2.
Proof.
  unfold is_byte. intros Ha Hb. rewrite !Z.pow_2_r.
  destruct (Z.le_ge_cases 0 (a - b)).
  - apply Z.mul_le_mono_nonneg; lia.
  - replace ((a - b) * (a - b)) with ((b - a) * (b - a)) by ring.
    apply Z.mul_le_mono_nonneg; lia.
Qed.

Lemma color_distance_sq_range p q :
  rgb24 p -> rgb24 q -> 0 <= color_distance_sq p q <= max_distance_sq.
Proof.
  intros Hp Hq. split; [apply color_distance_sq_nonneg|].
  destruct p as [[r1 g1] b1], q as [[r2 g2] b2].
  destruct Hp as (Hr1 & Hg1 & Hb1), Hq as (Hr2 & Hg2 & Hb2).
  unfold color_distance_sq, max_distance_sq.
  pose proof (byte_square_le _ _ Hr1 Hr2).
  pose proof (byte_square_le _ _ Hg1 Hg2).
  pose proof (byte_square_le _ _ Hb1 Hb2). lia.
Qed.

(** The number under the root of [color_distance] is the square of the
    Euclidean distance. *)
Lemma euclidean_radicand p q :
  euclidean p q = sqrt (IZR (color_distance_sq p q)).
Proof.
  destruct p as [[r1 g1] b1], q as [[r2 g2] b2].
  unfold euclidean, color_distance_sq. f_equal.
  rewrite !Z.pow_2_r, !plus_IZR, !mult_IZR, !minus_IZR. reflexivity.
Qed.

Lemma euclidean_lt p q q' :
  (euclidean p q < euclidean p q')%R <->
  color_distance_sq p q < color_distance_sq p q'.
Proof.
  rewrite !euclidean_radicand. split.
  - intros H. apply sqrt_lt_0_alt in H. now apply lt_IZR.
  - intros H. apply sqrt_lt_1_alt. split.
    + apply IZR_le. apply color_distance_sq_nonneg.
    + now apply IZR_lt.
Qed.

Lemma euclidean_le p q q' :
  (euclidean p q <= euclidean p q')%R <->
  color_distance_sq p q <= color_distance_sq p q'.
Proof.
  split.
  - intros H. apply Z.le_ngt. intros Hlt.
    apply euclidean_lt in Hlt. lra.
  - intros H. apply Rnot_lt_le. intros Hlt.
    apply euclidean_lt in Hlt. lia.
Qed.

Lemma euclidean_lt_100 p q :
  (euclidean p q < 100)%R <-> color_distance_sq p q < 100 * 100.
Proof.
  rewrite euclidean_radicand.
  replace 100%R with (sqrt (IZR (100 * 100))).
  2:{ rewrite mult_IZR. apply sqrt_square. lra. }
  split.
  - intros H. apply sqrt_lt_0_alt in H. now apply lt_IZR.
  - intros H. apply sqrt_lt_1_alt. split.
    + apply IZR_le. apply color_distance_sq_nonneg.
    + now apply IZR_lt.
Qed.

(** The binary64 root of the radicands of colour distances rises strictly:
    checked on each of them. *)
Lemma roots_rising_all :
  roots_rising (Z.to_nat max_distance_sq) 0 = true.
Proof. vm_compute. reflexivity. Qed.

Lemma roots_rising_step fuel n k :
  roots_rising fuel n = true -> n <= k < n + Z.of_nat fuel ->
  (root k <? root (k + 1))%float = true.
Proof.
  revert n. induction fuel as [|fuel IH]; intros n H Hk; [lia|].
  cbn [roots_rising] in H. apply andb_true_iff in H. destruct H as [H0 H1].
  destruct (Z.eq_dec k n) as [->|Hne]; [exact H0|].
  apply (IH (n + 1) H1). lia.
Qed.

Lemma root_step k :
  0 <= k < max_distance_sq -> (root k <? root (k + 1))%float = true.
Proof.
  intros Hk. apply (roots_rising_step _ 0 k roots_rising_all).
  rewrite Z2Nat.id by (unfold max_distance_sq; lia). lia.
Qed.

Lemma root_rises n m :
  0 <= n -> n < m -> m <= max_distance_sq ->
  (root n <? root m)%float = true.
Proof.
  intros Hn Hnm Hm.
  replace m with (n + 1 + Z.of_nat (Z.to_nat (m - n - 1))) in * by lia.
  induction (Z.to_nat (m - n - 1)) as [|d IH].
  - rewrite Z.add_0_r. apply root_step. lia.
  - apply ltb_trans with (root (n + 1 + Z.of_nat d)).
    + apply IH; lia.
    + replace (n + 1 + Z.of_nat (S d)) with (n + 1 + Z.of_nat d + 1) by lia.
      apply root_step. lia.
Qed.

(** Roots compare as their radicands do. *)
Lemma root_ltb n m :
  0 <= n <= max_distance_sq -> 0 <= m <= max_distance_sq ->
  (root n <? root m)%float = (n <? m).
Proof.
  intros Hn Hm. destruct (n <? m) eqn:E.
  - apply Z.ltb_lt in E. apply root_rises; lia.
  - apply Z.ltb_ge in E. destruct (Z.eq_dec m n) as [->|Hne].
    + apply ltb_irrefl.
    + apply ltb_asym. apply root_rises; lia.
Qed.

Lemma root_ltb_100 n :
  0 <= n <= max_distance_sq -> (root n <? 100)%float = (n <? 100 * 100).
Proof.
  intros Hn. destruct (n <? 100 * 100) eqn:E.
  - apply Z.ltb_lt in E. destruct (Z.eq_dec n 9999) as [->|Hne].
    + vm_compute. reflexivity.
    + apply ltb_trans with (root 9999).
      * apply root_rises; unfold max_distance_sq; lia.
      * vm_compute. reflexivity.
  - apply Z.ltb_ge in E. destruct (Z.eq_dec n 10000) as [->|Hne].
    + vm_compute. reflexivity.
    + destruct (root n <? 100)%float eqn:F; [|reflexivity].
      assert (G : (root 10000 <? root n)%float = true)
        by (apply root_rises; lia).
      pose proof (ltb_trans _ _ _ G F) as K. vm_compute in K. discriminate.
Qed.

Lemma root_ltb_infinity n :
  0 <= n <= max_distance_sq -> (root n <? infinity)%float = true.
Proof.
  intros Hn. destruct (Z.eq_dec n max_distance_sq) as [->|Hne].
  - vm_compute. reflexivity.
  - apply ltb_trans with (root max_distance_sq).
    + apply root_rises; lia.
    + vm_compute. reflexivity.
Qed.

(** ** The classifier *)

Lemma scan_min_map {A B C : Type} (clt : C -> C -> bool)
  (cost : B -> option C) (f : A -> B) (l : list A) :
  scan_min clt cost (map f l) =
  option_map (fun ca => (fst ca, f (snd ca)))
             (scan_min clt (fun a => cost (f a)) l).
Proof.
  unfold scan_min.
  change (@None (C * B))
    with (option_map (fun ca : C * A => (fst ca, f (snd ca))) None).
  generalize (@None (C * A)) as best.
  induction l as [|a l IH]; intros best; [reflexivity|].
  simpl. rewrite <- IH. f_equal.
  unfold keep_min. destruct (cost (f a)) as [c|]; [|reflexivity].
  destruct best as [[m b]|]; simpl; [|reflexivity].
  destruct (clt c m); reflexivity.
Qed.

Lemma scan_min_ext {A C : Type} (clt : C -> C -> bool)
  (cost cost' : A -> option C) (l : list A) :
  (forall a, In a l -> cost a = cost' a) ->
  scan_min clt cost l = scan_min clt cost' l.
Proof.
  unfold scan_min. generalize (@None (C * A)) as best.
  induction l as [|a l IH]; intros best H; [reflexivity|].
  simpl. unfold keep_min at 2 4. rewrite (H a (or_introl eq_refl)).
  apply IH. intros a' Ha'. apply H. now right.
Qed.

Lemma Map_get_table (t : ColorTable) c rank :
  wf_table t -> In (c, rank) t ->
  Map_get (map_of_table t) (hex_of c) = Some rank.
Proof.
  intros [Hb Hd]. induction t as [|[c' rank'] t IH]; [now intros|].
  simpl in *. inversion Hb; subst. inversion Hd; subst.
  intros [E|Hin].
  - inversion E; subst. now rewrite String.eqb_refl.
  - destruct (String.eqb (hex_of c') (hex_of c)) eqn:E.
    + apply String.eqb_eq in E. apply hex_of_inj in E; auto.
      * subst c'. exfalso. apply H3.
        change c with (fst (c, rank)). now apply in_map.
      * rewrite Forall_forall in H2. apply H2.
        change c with (fst (c, rank)). now apply in_map.
    + now apply IH.
Qed.

(** One turn of the loop of [findClosestLegendColor], on a key that names
    a 24-bit colour: the comparison of the two roots is the comparison of
    their radicands. *)
Lemma closer_keep_min r g b best hex c :
  rgb24 (r, g, b) -> rgb24 c -> rgb_of_hex hex = Some c ->
  match best with
  | Some (d, _) => 0 <= d <= max_distance_sq
  | None => True
  end ->
  closer r g b (closest_state best) hex =
  closest_state (keep_min Z.ltb (legend_cost r g b) best hex) /\
  match keep_min Z.ltb (legend_cost r g b) best hex with
  | Some (d, _) => 0 <= d <= max_distance_sq
  | None => True
  end.
Proof.
  intros Hp Hc Hhex Hbest.
  pose proof (color_distance_sq_range _ _ Hp Hc) as Hd.
  unfold closer, keep_min, legend_cost, legend_distance. rewrite Hhex.
  unfold color_distance. fold (root (color_distance_sq (r, g, b) c)).
  destruct best as [[m hex']|]; cbn [closest_state below].
  - rewrite (root_ltb _ _ Hd Hbest).
    destruct (color_distance_sq (r, g, b) c <? m); split;
      reflexivity || assumption.
  - rewrite (root_ltb_infinity _ Hd). split; [reflexivity|exact Hd].
Qed.

Lemma closer_fold r g b keys best :
  rgb24 (r, g, b) ->
  Forall (fun hex => exists c, rgb24 c /\ rgb_of_hex hex = Some c) keys ->
  match best with
  | Some (d, _) => 0 <= d <= max_distance_sq
  | None => True
  end ->
  fold_left (closer r g b) keys (closest_state best) =
  closest_state (fold_left (keep_min Z.ltb (legend_cost r g b)) keys best).
Proof.
  intros Hp Hkeys. revert best.
  induction Hkeys as [|hex keys (c & Hc & Hhex) _ IH]; intros best Hbest;
    [reflexivity|].
  destruct (closer_keep_min r g b best hex c Hp Hc Hhex Hbest) as [E Hnext].
  cbn [fold_left]. rewrite E. now apply IH.
Qed.

Lemma table_keys (t : ColorTable) :
  wf_table t ->
  Forall (fun hex => exists c, rgb24 c /\ rgb_of_hex hex = Some c)
         (Map_keys (map_of_table t)).
Proof.
  intros [Hb _]. unfold Map_keys, map_of_table. rewrite map_map.
  apply Forall_forall. intros hex Hin. apply in_map_iff in Hin.
  destruct Hin as ([c rank] & <- & Hin). cbn [fst snd].
  assert (Hc : rgb24 c).
  { rewrite Forall_forall in Hb. apply Hb.
    change c with (fst (c, rank)). now apply in_map. }
  exists c. split; [exact Hc|now apply rgb_of_hex_of].
Qed.

(** [findClosestLegendColor] on a ColorTable, by radicands. *)
Lemma findClosestLegendColor_table (t : ColorTable) (r g b : Z) :
  wf_table t -> rgb24 (r, g, b) ->
  findClosestLegendColor (Some (map_of_table t)) r g b =
  if Map_size (map_of_table t) =? 0 then None
  else
    match scan_min Z.ltb (legend_cost r g b) (Map_keys (map_of_table t)) with
    | Some (d, hex) => if d <? 100 * 100 then Some hex else None
    | None => None
    end.
Proof.
  intros Hwf Hp. unfold findClosestLegendColor.
  destruct (Map_size (map_of_table t) =? 0); [reflexivity|].
  change (infinity, @None string) with (closest_state None).
  rewrite (closer_fold r g b _ None Hp (table_keys t Hwf) I).
  fold (scan_min Z.ltb (legend_cost r g b) (Map_keys (map_of_table t))).
  destruct (scan_min Z.ltb (legend_cost r g b) (Map_keys (map_of_table t)))
    as [[d hex]|] eqn:Hs; cbn [closest_state].
  - apply Z_scan_min_first in Hs. destruct Hs as (i & Hi & Hcost & _).
    apply nth_error_In in Hi.
    pose proof (table_keys t Hwf) as Hkeys. rewrite Forall_forall in Hkeys.
    destruct (Hkeys _ Hi) as (c & Hc & Hhex).
    unfold legend_cost in Hcost. rewrite Hhex in Hcost.
    assert (Ed : d = color_distance_sq (r, g, b) c) by congruence.
    rewrite Ed.
    now rewrite (root_ltb_100 _ (color_distance_sq_range _ _ Hp Hc)).
  - vm_compute. reflexivity.
Qed.

(** What the scan of [findClosestLegendColor] finds in a ColorTable. *)
Lemma scan_table (t : ColorTable) (r g b : Z) :
  wf_table t ->
  scan_min Z.ltb (legend_cost r g b) (Map_keys (map_of_table t)) =
  option_map (fun ce => (fst ce, hex_of (fst (snd ce))))
    (scan_min Z.ltb (fun e => Some (color_distance_sq (r, g, b) (fst e))) t).
Proof.
  intros [Hb _]. unfold Map_keys, map_of_table. rewrite map_map. simpl.
  rewrite scan_min_map. f_equal.
  apply scan_min_ext. intros [c rank] Hin. simpl.
  unfold legend_cost. rewrite rgb_of_hex_of; [reflexivity|].
  rewrite Forall_forall in Hb. apply Hb.
  change c with (fst (c, rank)). now apply in_map.
Qed.

Lemma nearest_entry_first_min p t c rank :
  nearest_entry p t c rank <->
  first_min Z.ltb (fun e => Some (color_distance_sq p (fst e))) t
            (color_distance_sq p c) (c, rank).
Proof.
  unfold nearest_entry, first_min. split.
  - intros (i & Hi & Hall & Hbefore). exists i. repeat split; auto.
    + intros j a' c' Hj E. inversion E; subst. apply Z.ltb_ge.
      apply euclidean_le. eauto.
    + intros j a' c' Hlt Hj E. inversion E; subst. apply Z.ltb_lt.
      apply euclidean_lt. eauto.
  - intros (i & Hi & _ & Hall & Hbefore). exists i. repeat split; auto.
    + intros j e Hj. apply euclidean_le. apply Z.ltb_ge. eauto.
    + intros j e Hlt Hj. apply euclidean_lt. apply Z.ltb_lt. eauto.
Qed.

Lemma classify_table_cases (t : ColorTable) (r g b : Z) :
  wf_table t -> rgb24 (r, g, b) ->
  (t = [] /\ classify (Some (map_of_table t)) r g b = None) \/
  (exists c rank,
      nearest_entry (r, g, b) t c rank /\
      classify (Some (map_of_table t)) r g b =
      if color_distance_sq (r, g, b) c <? 100 * 100 then Some rank else None).
Proof.
  intros Hwf Hp. destruct t as [|e0 t0] eqn:Et; [left; split; reflexivity|].
  right. rewrite <- Et in *.
  assert (Hne : (Map_size (map_of_table t) =? 0) = false).
  { apply Z.eqb_neq. unfold Map_size, map_of_table. rewrite length_map.
    rewrite Et. simpl. lia. }
  unfold classify. rewrite (findClosestLegendColor_table t r g b Hwf Hp), Hne.
  rewrite (scan_table t r g b Hwf).
  destruct (scan_min Z.ltb _ t) as [[d [c rank]]|] eqn:Hs.
  - pose proof Hs as Hf. apply Z_scan_min_first in Hf.
    assert (Hd : d = color_distance_sq (r, g, b) c).
    { destruct Hf as (i & _ & E & _). cbv beta in E. cbn [fst] in E.
      now inversion E. }
    subst d. exists c, rank. split; [now apply nearest_entry_first_min|].
    simpl. destruct (_ <? _); [|reflexivity].
    apply Map_get_table; [exact Hwf|].
    destruct Hf as (i & Hi & _). now apply nth_error_In in Hi.
  - exfalso. rewrite Et in Hs.
    exact (scan_min_found Z.ltb _ (e0 :: t0) e0 _ (or_introl eq_refl)
                          eq_refl Hs).
Qed.

Lemma nearest_entry_unique p t c rank c' rank' :
  nearest_entry p t c rank -> nearest_entry p t c' rank' ->
  c = c' /\ rank = rank'.
Proof.
  rewrite !nearest_entry_first_min. intros H H'.
  destruct (first_min_unique _ _ _ _ _ _ _ H H') as [E _].
  inversion E. auto.
Qed.

(** C3.  For every RGB pixel and every ColorTable, classification returns
    the rank of the table entry at minimal Euclidean RGB distance from the
    pixel exactly when that minimal distance is strictly below 100, the
    first entry in the table's iteration order winning among equally near
    ones, and none otherwise; with an empty or an absent table it returns
    none. *)
Theorem classify_nearest_within_tolerance (t : ColorTable) (r g b : Z) :
  wf_table t -> rgb24 (r, g, b) ->
  (forall rank,
      classify (Some (map_of_table t)) r g b = Some rank <->
      exists c, nearest_entry (r, g, b) t c rank /\
                (euclidean (r, g, b) c < 100)%R) /\
  (classify (Some (map_of_table t)) r g b = None <->
   forall c rank, nearest_entry (r, g, b) t c rank ->
                  (100 <= euclidean (r, g, b) c)%R) /\
  classify (Some []) r g b = None /\
  classify None r g b = None.
Proof.
  intros Hwf Hp.
  destruct (classify_table_cases t r g b Hwf Hp)
    as [[Ht Hc]|(c & rank & Hn & Hc)].
  - split; [|split; [|split; reflexivity]].
    + intros rank. split.
      * rewrite Hc. discriminate.
      * intros (c & Hn & _). destruct Hn as (i & Hi & _).
        subst t. destruct i; discriminate.
    + split.
      * intros _ c rank (i & Hi & _). subst t. destruct i; discriminate.
      * intros _. exact Hc.
  - rewrite Hc. clear Hc.
    destruct (color_distance_sq (r, g, b) c <? 100 * 100) eqn:E.
    + apply Z.ltb_lt, euclidean_lt_100 in E.
      split; [|split; [|split; reflexivity]].
      * intros rank'. split.
        -- intros H. inversion H; subst. now exists c.
        -- intros (c' & Hn' & _).
           destruct (nearest_entry_unique _ _ _ _ _ _ Hn Hn') as [_ ->].
           reflexivity.
      * split; [discriminate|].
        intros H. specialize (H _ _ Hn). lra.
    + apply Z.ltb_ge in E.
      assert (Hfar : (100 <= euclidean (r, g, b) c)%R).
      { apply Rnot_lt_le. intros H. apply euclidean_lt_100 in H. lia. }
      split; [|split; [|split; reflexivity]].
      * intros rank'. split; [discriminate|].
        intros (c' & Hn' & Hlt).
        destruct (nearest_entry_unique _ _ _ _ _ _ Hn Hn') as [<- _]. lra.
      * split; [|reflexivity].
        intros _ c' rank' Hn'.
        destruct (nearest_entry_unique _ _ _ _ _ _ Hn Hn') as [<- _].
        exact Hfar.
Qed.

Lemma two_color_table_wf : wf_table two_color_table.
Proof.
  split.
  - repeat constructor; unfold is_byte; lia.
  - repeat constructor; simpl; intuition discriminate.
Defined.

Lemma near_blue_rgb24 : rgb24 (10, 10, 250).
Proof. repeat split; lia. Defined.

Lemma classify_nearest_witness :
  wf_table two_color_table /\ rgb24 (10, 10, 250) /\
  classify (Some (map_of_table two_color_table)) 10 10 250 = Some 1.
Proof.
  split; [exact two_color_table_wf|]. split; [exact near_blue_rgb24|].
  apply (proj1 (classify_nearest_within_tolerance
                  two_color_table 10 10 250 two_color_table_wf
                  near_blue_rgb24) 1).
  exists (0, 0, 255). split.
  - exists 0%nat. split; [reflexivity|]. split.
    + intros [|[|[|j]]] e Hj; cbn in Hj; try discriminate;
        inversion Hj; subst; cbn [fst]; apply euclidean_le; cbn; lia.
    + intros j e Hlt. inversion Hlt.
  - apply euclidean_lt_100. cbn. lia.
Defined.

(** ** The speed calculator *)



(** *** Decimal numerals *)











(** The scenario of the specification: one cell of ten pixels in five
    minutes, at five metres a pixel, is 0.6 km/h. *)
Example speed_of_one_cell_in_five_minutes :
  resultsElement
    (SingleTarget.calculateSpeed demo_host 1 0 "12:00" "12:05" single_tracker)
  = Some "~ 0.6 km/h"%string /\
  resultsElement
    (SingleTarget.calculateSpeed demo_host 0 0 "12:00" "12:05" single_tracker)
  = Some "Stationär"%string /\
  SingleTarget.calculateSpeed demo_host 1 0 "12:05" "12:00" single_tracker
  = single_tracker /\
  resultsElement
    (SingleTarget.calculateSpeed demo_host 1 0 "12:00" "noon" single_tracker)
  = Some "~ NaN km/h"%string.
Proof.
  repeat split; vm_compute; reflexivity.
Qed.

(** ** Frame history *)

Lemma only_output_refl st : only_output st st.
Proof. repeat split. Qed.

Lemma only_output_trans st1 st2 st3 :
  only_output st1 st2 -> only_output st2 st3 -> only_output st1 st3.
Proof.
  unfold only_output. intros H1 H2.
  decompose [and] H1. decompose [and] H2. repeat split; congruence.
Qed.

Lemma only_output_show st text : only_output st (show st text).
Proof. repeat split. Qed.

Lemma only_output_log st line : only_output st (log st line).
Proof. repeat split. Qed.

Lemma averaging_calculateSpeed_output host dx dy t1 t2 st :
  only_output st (Averaging.calculateSpeed host dx dy t1 t2 st).
Proof.
  unfold Averaging.calculateSpeed.
  repeat match goal with
         | |- context [if ?b then _ else _] => destruct b
         end; repeat split.
Qed.

Lemma single_calculateSpeed_output host dx dy t1 t2 st :
  only_output st (SingleTarget.calculateSpeed host dx dy t1 t2 st).
Proof.
  unfold SingleTarget.calculateSpeed.
  repeat match goal with
         | |- context [if ?b then _ else _] => destruct b
         end; repeat split.
Qed.

Lemma trackMovement_output host r1 r2 st :
  only_output st (snd (Averaging.trackMovement host r1 r2 st)).
Proof.
  unfold Averaging.trackMovement.
  destruct (zget (grid r1) 0); [|apply only_output_refl].
  destruct (foldM _ _ _) as [[[tdx tdy] n]|e]; [|apply only_output_refl].
  destruct (10 <? n); simpl.
  - apply averaging_calculateSpeed_output.
  - apply only_output_show.
Qed.

Lemma trackMovementFromCenter_output host r1 r2 st :
  only_output st (snd (SingleTarget.trackMovementFromCenter host r1 r2 st)).
Proof.
  unfold SingleTarget.trackMovementFromCenter.
  destruct (zget (grid r1) 0); [|apply only_output_refl].
  destruct (SingleTarget.crosshair_cell _ _); [|apply only_output_show].
  destruct (SingleTarget.crosshair_cell _ _); [|apply only_output_show].
  destruct (cell _ _ _); [|apply only_output_show].
  destruct (_ =? _)%float; [|apply only_output_show].
  destruct (foldM _ _ _) as [[[d [bx by_]]|]|e]; simpl.
  - apply single_calculateSpeed_output.
  - apply only_output_show.
  - apply only_output_refl.
Qed.

Lemma averaging_analyzeFrame_unfold host img time st :
  Averaging.analyzeFrame host img time st =
  if negb (isEnabled st)
     || match legendColorMap st with Some _ => false | None => true end
  then (Normal tt, st)
  else if (img_width img =? 0) || (img_height img =? 0)
  then (Throw IndexSizeError,
        set_canvas st (img_width img, img_height img))
  else record_frame (Averaging.trackMovement host)
                    (averaging_record img time st)
                    (set_canvas st (img_width img, img_height img)).
Proof.
  unfold Averaging.analyzeFrame, record_frame, averaging_record, push_evict.
  destruct (negb (isEnabled st) || _); [reflexivity|].
  cbn [canvas gridData set_canvas timestamp fst snd].
  destruct ((img_width img =? 0) || (img_height img =? 0)); [reflexivity|].
  destruct (last_record (gridData st)) as [lastGridData|].
  - destruct (negb (String.eqb (timestamp lastGridData) time)).
    + destruct (Averaging.trackMovement _ _ _ _) as [[u|e] st'];
        [|reflexivity].
      cbn [gridData set_gridData]. destruct (10 <? _); reflexivity.
    + cbn [gridData set_gridData set_canvas].
      destruct (10 <? _); reflexivity.
  - cbn [gridData set_gridData set_canvas]. destruct (10 <? _); reflexivity.
Qed.

Lemma single_analyzeFrame_unfold host img time st :
  SingleTarget.analyzeFrame host img time st =
  if negb (isEnabled st) || SingleTarget.no_color (selectedColor st)
  then (Normal tt, st)
  else if (img_width img =? 0) || (img_height img =? 0)
  then (Throw IndexSizeError,
        set_canvas st (img_width img, img_height img))
  else record_frame (SingleTarget.trackMovementFromCenter host)
                    (single_record img time st)
                    (set_canvas st (img_width img, img_height img)).
Proof.
  unfold SingleTarget.analyzeFrame, record_frame, single_record, push_evict.
  destruct (negb (isEnabled st) || _); [reflexivity|].
  cbn [canvas gridData set_canvas timestamp fst snd].
  destruct ((img_width img =? 0) || (img_height img =? 0)); [reflexivity|].
  destruct (last_record (gridData st)) as [lastGridData|].
  - destruct (negb (String.eqb (timestamp lastGridData) time)).
    + destruct (SingleTarget.trackMovementFromCenter _ _ _ _)
        as [[u|e] st']; [|reflexivity].
      cbn [gridData set_gridData]. destruct (10 <? _); reflexivity.
    + cbn [gridData set_gridData set_canvas].
      destruct (10 <? _); reflexivity.
  - cbn [gridData set_gridData set_canvas]. destruct (10 <? _); reflexivity.
Qed.

Lemma record_frame_untracked (track : estimator) new st :
  match last_record (gridData st) with
  | Some lastGridData => timestamp lastGridData = timestamp new
  | None => True
  end ->
  record_frame track new st =
  (Normal tt, set_gridData st (push_evict (gridData st) new)).
Proof.
  unfold record_frame. destruct (last_record (gridData st)) as [l|].
  - intros E. apply String.eqb_eq in E. rewrite E. reflexivity.
  - reflexivity.
Qed.

Lemma record_frame_tracked (track : estimator) new st lastGridData :
  last_record (gridData st) = Some lastGridData ->
  timestamp lastGridData <> timestamp new ->
  only_output st (snd (track lastGridData new st)) ->
  record_frame track new st =
  match track lastGridData new st with
  | (Normal _, st') =>
    (Normal tt, set_gridData st' (push_evict (gridData st) new))
  | (Throw e, st') => (Throw e, st')
  end.
Proof.
  intros Hlast Hne Hout. unfold record_frame. rewrite Hlast.
  apply String.eqb_neq in Hne. rewrite Hne. simpl.
  destruct (track lastGridData new st) as [[u|e] st']; [|reflexivity].
  simpl in Hout. destruct Hout as (_ & _ & _ & Hg & _). now rewrite Hg.
Qed.

Lemma has_pixels_nonzero img :
  has_pixels img -> (img_width img =? 0) || (img_height img =? 0) = false.
Proof.
  intros [Hw Hh]. apply orb_false_iff. split; apply Z.eqb_neq; lia.
Qed.

Lemma last_record_snoc (older : list FrameRecord) (previous : FrameRecord) :
  last_record (older ++ [previous]) = Some previous.
Proof.
  unfold last_record. rewrite length_app. cbn [length].
  replace (Z.of_nat (length older + 1) - 1) with (Z.of_nat (length older))
    by lia.
  rewrite zget_of_nat, nth_error_app2 by lia.
  now rewrite Nat.sub_diag.
Qed.

Lemma record_frame_first (track : estimator) new st :
  gridData st = [] ->
  record_frame track new st =
  (Normal tt, set_gridData st (push_evict (gridData st) new)).
Proof.
  intros E. apply record_frame_untracked. now rewrite E.
Qed.

Lemma record_frame_same_time (track : estimator) new st older previous :
  gridData st = older ++ [previous] ->
  timestamp previous = timestamp new ->
  record_frame track new st =
  (Normal tt, set_gridData st (push_evict (gridData st) new)).
Proof.
  intros E Ht. apply record_frame_untracked.
  now rewrite E, last_record_snoc.
Qed.

Lemma record_frame_new_time (track : estimator) new st older previous :
  gridData st = older ++ [previous] ->
  timestamp previous <> timestamp new ->
  only_output st (snd (track previous new st)) ->
  record_frame track new st =
  match track previous new st with
  | (Normal _, st') =>
    (Normal tt, set_gridData st' (push_evict (gridData st) new))
  | (Throw e, st') => (Throw e, st')
  end.
Proof.
  intros E Ht Hout. apply record_frame_tracked; [|exact Ht|exact Hout].
  now rewrite E, last_record_snoc.
Qed.

(** C9.  Once its precondition holds and the frame has pixels to read,
    [analyzeFrame] runs the motion estimator exactly when FrameHistory is
    not empty and the timestamp of its most recent entry differs from the
    new frame's: it then runs it on that entry and the new record, and ends
    the way the estimator ends.  With an empty history, or with an equal
    timestamp, the call only appends the frame: it completes normally,
    shows nothing and logs nothing. *)
Theorem estimator_runs_only_on_new_timestamp (host : Host)
  (img : Image) (time : string) (st : ImageTracker) :
  let st1 := set_canvas st (img_width img, img_height img) in
  let appended new st2 :=
    (Normal tt, set_gridData st2 (push_evict (gridData st) new)) in
  let after (tracked : completion unit * ImageTracker) new :=
    match tracked with
    | (Normal _, st2) => appended new st2
    | (Throw e, st2) => (Throw e, st2)
    end in
  (averaging_ready st -> has_pixels img ->
   let new := averaging_record img time st in
   (gridData st = [] ->
    Averaging.analyzeFrame host img time st = appended new st1) /\
   (forall older previous,
       gridData st = older ++ [previous] ->
       (timestamp previous = time ->
        Averaging.analyzeFrame host img time st = appended new st1) /\
       (timestamp previous <> time ->
        Averaging.analyzeFrame host img time st =
        after (Averaging.trackMovement host previous new st1) new))) /\
  (single_ready st -> has_pixels img ->
   let new := single_record img time st in
   (gridData st = [] ->
    SingleTarget.analyzeFrame host img time st = appended new st1) /\
   (forall older previous,
       gridData st = older ++ [previous] ->
       (timestamp previous = time ->
        SingleTarget.analyzeFrame host img time st = appended new st1) /\
       (timestamp previous <> time ->
        SingleTarget.analyzeFrame host img time st =
        after (SingleTarget.trackMovementFromCenter
                 host previous new st1) new))).
Proof.
  intros st1 appended after. split.
  - intros [Hen Hmap] Hpix new. rewrite averaging_analyzeFrame_unfold.
    rewrite Hen, (has_pixels_nonzero img Hpix).
    destruct (legendColorMap st) as [m|]; [|congruence].
    cbn [negb orb]. fold st1. fold new. split.
    + intros E. now apply record_frame_first.
    + intros older previous E. split; intros Ht.
      * now apply (record_frame_same_time _ new st1 older previous).
      * rewrite (record_frame_new_time _ new st1 older previous E Ht).
        -- reflexivity.
        -- apply trackMovement_output.
  - intros [Hen Hcol] Hpix new. rewrite single_analyzeFrame_unfold.
    rewrite Hen, Hcol, (has_pixels_nonzero img Hpix).
    cbn [negb orb]. fold st1. fold new. split.
    + intros E. now apply record_frame_first.
    + intros older previous E. split; intros Ht.
      * now apply (record_frame_same_time _ new st1 older previous).
      * rewrite (record_frame_new_time _ new st1 older previous E Ht).
        -- reflexivity.
        -- apply trackMovementFromCenter_output.
Qed.

(** After a first frame at 12:00, a frame at 12:05 makes the averaging
    estimator run (one cell is too little: "Bewegung unklar"), and another
    frame at 12:00 is appended without an estimate: the results element
    keeps its "--". *)
Lemma estimator_runs_witness :
  gridData averaging_tracker_1
  = [] ++ [averaging_record blue_tile "12:00" averaging_tracker] /\
  Averaging.analyzeFrame demo_host blue_tile "12:05" averaging_tracker_1
  = (Normal tt,
     set_gridData
       (show averaging_tracker_1 "Bewegung unklar")
       [averaging_record blue_tile "12:00" averaging_tracker;
        averaging_record blue_tile "12:05" averaging_tracker_1]) /\
  Averaging.analyzeFrame demo_host blue_tile "12:00" averaging_tracker_1
  = (Normal tt,
     set_gridData
       averaging_tracker_1
       [averaging_record blue_tile "12:00" averaging_tracker;
        averaging_record blue_tile "12:00" averaging_tracker_1]).
Proof.
  assert (Hready : averaging_ready averaging_tracker_1).
  { split; [reflexivity|]. vm_compute. discriminate. }
  assert (Hpix : has_pixels blue_tile) by (split; reflexivity).
  assert (Hhist : gridData averaging_tracker_1
                  = [] ++ [averaging_record blue_tile "12:00"
                                            averaging_tracker])
    by reflexivity.
  split; [exact Hhist|]. split.
  - rewrite (proj2 (proj2 (proj1 (estimator_runs_only_on_new_timestamp
                                     demo_host blue_tile "12:05"
                                     averaging_tracker_1)
                                  Hready Hpix)
                          [] _ Hhist)).
    + reflexivity.
    + discriminate.
  - rewrite (proj1 (proj2 (proj1 (estimator_runs_only_on_new_timestamp
                                     demo_host blue_tile "12:00"
                                     averaging_tracker_1)
                                  Hready Hpix)
                          [] _ Hhist)).
    + reflexivity.
    + reflexivity.
Defined.

(** ** The averaging estimator *)

Lemma nan_below_nothing x : (nan <? x)%float = false.
Proof. apply ltb_infinity_last. reflexivity. Qed.

Lemma match_error_number g2 v c e : match_error g2 v c = Some e -> is_number e.
Proof.
  unfold match_error. destruct (cell g2 (fst c) (snd c)) as [w|]; [|discriminate].
  destruct (absolute_difference v w <? infinity)%float eqn:E; [|discriminate].
  intros H. inversion H; subst. exact (proj1 (ltb_numbers _ _ E)).
Qed.

(** One turn of the search loop, on a row that exists. *)
Lemma search_turn (row2 : list float) (v : float) (newX newY : Z)
  (cost : option float) (best : option (float * (Z * Z))) :
  cost = match zget row2 newX with
         | Some w =>
           if (absolute_difference v w <? infinity)%float
           then Some (absolute_difference v w)
           else None
         | None => None
         end ->
  (if (match zget row2 newX with
       | Some w => abs (v - w)
       | None => nan
       end <? fst (match_state best))%float
   then (match zget row2 newX with
         | Some w => abs (v - w)
         | None => nan
         end, (newX, newY))
   else match_state best) =
  match_state match cost with
              | Some c => if below PrimFloat.ltb c best
                          then Some (c, (newX, newY)) else best
              | None => best
              end.
Proof.
  intros ->. destruct (zget row2 newX) as [w|].
  - fold (absolute_difference v w).
    destruct (absolute_difference v w <? infinity)%float eqn:E.
    + destruct best as [[e p]|]; cbn [match_state below fst].
      * destruct (absolute_difference v w <? e)%float; reflexivity.
      * now rewrite E.
    + now rewrite (ltb_infinity_last _ _ E).
  - now rewrite nan_below_nothing.
Qed.

Lemma search_loop (grid2 : list (list float)) (rows cols x y : Z) (v : float)
  (l : list (Z * Z)) (best : option (float * (Z * Z))) :
  rows <= Z.of_nat (length grid2) ->
  foldM (Averaging.search_step grid2 rows cols x y v) l (match_state best) =
  Normal (match_state
            (fold_left (keep_min PrimFloat.ltb (match_error grid2 v))
               (filter (in_bounds rows cols)
                       (map (fun s => (x + fst s, y + snd s)) l))
               best)).
Proof.
  intros Hrows. revert best.
  induction l as [|[sX sY] l IH]; intros best; [reflexivity|].
  cbn [foldM map filter fst snd].
  unfold Averaging.search_step at 1. unfold in_bounds at 1.
  cbn [fst snd].
  destruct ((0 <=? y + sY) && (y + sY <? rows) && (0 <=? x + sX)
            && (x + sX <? cols)) eqn:Hin.
  - apply andb_prop in Hin. destruct Hin as [Hin _].
    apply andb_prop in Hin. destruct Hin as [Hin _].
    apply andb_prop in Hin. destruct Hin as [H0 H1].
    apply Z.leb_le in H0. apply Z.ltb_lt in H1.
    destruct (zget_in_range grid2 (y + sY)) as [row2 Hrow]; [lia|].
    rewrite Hrow. cbn [fold_left].
    rewrite <- IH. unfold keep_min.
    rewrite <- (search_turn row2 v (x + sX) (y + sY)
                  (match_error grid2 v (x + sX, y + sY)) best).
    + destruct (_ <? _)%float; reflexivity.
    + unfold match_error, cell. cbn [fst snd]. now rewrite Hrow.
  - cbn [cbind]. apply IH.
Qed.

Lemma search_window (grid2 : list (list float)) (rows cols x y : Z)
  (v : float) :
  rows <= Z.of_nat (length grid2) ->
  foldM (Averaging.search_step grid2 rows cols x y v)
        (search_offsets Averaging.SEARCH_RADIUS) (infinity, (-1, -1)) =
  Normal (match_state
            (scan_min PrimFloat.ltb (match_error grid2 v)
                      (window rows cols 5 x y))).
Proof.
  intros H. change (infinity, (-1, -1)) with (match_state None).
  now rewrite search_loop.
Qed.

Lemma track_cell_accepts (g1 g2 : list (list float)) (rows cols : Z)
  (tdx tdy n : Z) (xy : Z * Z) :
  rows <= Z.of_nat (length g2) ->
  Averaging.track_cell g1 g2 rows cols (tdx, tdy, n) xy =
  Normal match accepted_vector g1 g2 rows cols xy with
         | Some d => (tdx + fst d, tdy + snd d, n + 1)
         | None => (tdx, tdy, n)
         end.
Proof.
  intros Hrows. destruct xy as [x y].
  unfold Averaging.track_cell, accepted_vector. cbn [fst snd].
  destruct (cell g1 x y) as [v|]; [|reflexivity].
  destruct (0.1 <? v)%float; [|reflexivity].
  rewrite search_window by exact Hrows. cbn [cbind].
  destruct (scan_min _ _ _) as [[err [bx by_]]|]; cbn [match_state fst snd].
  - destruct (err <? 0.5)%float; reflexivity.
  - replace (infinity <? 0.5)%float with false by reflexivity. reflexivity.
Qed.

Lemma track_loop (g1 g2 : list (list float)) (rows cols : Z)
  (l : list (Z * Z)) (tdx tdy n : Z) :
  rows <= Z.of_nat (length g2) ->
  foldM (Averaging.track_cell g1 g2 rows cols) l (tdx, tdy, n) =
  Normal
    (let vs := flat_map (fun xy => match accepted_vector g1 g2 rows cols xy
                                   with Some d => [d] | None => [] end) l in
     (tdx + sum_dx vs, tdy + sum_dy vs, n + Z.of_nat (length vs))).
Proof.
  intros Hrows. revert tdx tdy n.
  induction l as [|xy l IH]; intros tdx tdy n.
  - cbn. f_equal. f_equal; [f_equal|]; lia.
  - cbn [foldM flat_map]. rewrite track_cell_accepts by exact Hrows.
    cbn [cbind].
    destruct (accepted_vector g1 g2 rows cols xy) as [[dx dy]|].
    + rewrite IH. cbv zeta. unfold sum_dx, sum_dy.
      cbn [app map fold_right length fst snd].
      f_equal. f_equal; [f_equal|]; lia.
    + rewrite IH. reflexivity.
Qed.

(** *** Loop order *)

Lemma StronglySorted_map_mono {A B : Type} (RA : A -> A -> Prop)
  (RB : B -> B -> Prop) (f : A -> B) (l : list A) :
  (forall a b, RA a b -> RB (f a) (f b)) ->
  StronglySorted RA l -> StronglySorted RB (map f l).
Proof.
  intros Hf. induction 1 as [|a l Hs IH Hall]; simpl; constructor; auto.
  rewrite Forall_forall in *. intros b Hb. apply in_map_iff in Hb.
  destruct Hb as (a' & <- & Ha'). auto.
Qed.

Lemma StronglySorted_filter {A : Type} (R : A -> A -> Prop) (p : A -> bool)
  (l : list A) : StronglySorted R l -> StronglySorted R (filter p l).
Proof.
  induction 1 as [|a l Hs IH Hall]; simpl; [constructor|].
  destruct (p a); [|exact IH]. constructor; [exact IH|].
  rewrite Forall_forall in *. intros b Hb. apply filter_In in Hb.
  apply Hall. tauto.
Qed.

Lemma StronglySorted_app {A : Type} (R : A -> A -> Prop) (l1 l2 : list A) :
  StronglySorted R l1 -> StronglySorted R l2 ->
  (forall a b, In a l1 -> In b l2 -> R a b) ->
  StronglySorted R (l1 ++ l2).
Proof.
  induction 1 as [|a l Hs IH Hall]; intros H2 Hcross; simpl; [exact H2|].
  constructor.
  - apply IH; [exact H2|]. intros x b Hx Hb. apply Hcross; simpl; auto.
  - rewrite Forall_forall in *. intros b Hb. apply in_app_or in Hb.
    destruct Hb as [Hb|Hb]; [now apply Hall|].
    apply Hcross; simpl; auto.
Qed.

Lemma seq_sorted (a n : nat) : StronglySorted lt (seq a n).
Proof.
  revert a. induction n as [|n IH]; intros a; simpl; constructor.
  - apply IH.
  - rewrite Forall_forall. intros b Hb. apply in_seq in Hb. lia.
Qed.

Lemma zspan_sorted (lo hi : Z) : StronglySorted Z.lt (zspan lo hi).
Proof.
  unfold zspan. apply StronglySorted_map_mono with (RA := lt).
  - intros a b Hab. lia.
  - apply seq_sorted.
Qed.

Lemma sorted_nth {A : Type} (R : A -> A -> Prop) (l : list A) :
  StronglySorted R l ->
  forall i j a b,
    (j < i)%nat -> nth_error l j = Some a -> nth_error l i = Some b -> R a b.
Proof.
  induction 1 as [|h l Hs IH Hall]; intros i j a b Hji Hj Hi.
  - destruct j; discriminate.
  - destruct i as [|i]; [lia|]. destruct j as [|j].
    + cbn in Hj, Hi. inversion Hj; subst.
      rewrite Forall_forall in Hall. apply Hall.
      now apply nth_error_In in Hi.
    + cbn in Hj, Hi. apply (IH i j); auto. lia.
Qed.

Lemma product_row_major (xs ys : list Z) :
  StronglySorted Z.lt xs -> StronglySorted Z.lt ys ->
  StronglySorted row_major
    (flat_map (fun y => map (fun x => (x, y)) xs) ys).
Proof.
  intros Hxs. induction 1 as [|y ys Hs IH Hall]; simpl; [constructor|].
  apply StronglySorted_app.
  - apply StronglySorted_map_mono with (RA := Z.lt); [|exact Hxs].
    intros a b Hab. right. simpl. auto.
  - exact IH.
  - intros a b Ha Hb. apply in_map_iff in Ha. destruct Ha as (x & <- & _).
    apply in_flat_map in Hb. destruct Hb as (y' & Hy' & Hb).
    apply in_map_iff in Hb. destruct Hb as (x' & <- & _).
    left. simpl. rewrite Forall_forall in Hall. auto.
Qed.

Lemma cells_row_major (rows cols : Z) :
  StronglySorted row_major (cells rows cols).
Proof. apply product_row_major; apply zspan_sorted. Qed.

Lemma cells_In (rows cols : Z) (c : Z * Z) :
  In c (cells rows cols) <-> 0 <= fst c < cols /\ 0 <= snd c < rows.
Proof.
  unfold cells. rewrite in_flat_map. split.
  - intros (y & Hy & Hc). apply in_map_iff in Hc.
    destruct Hc as (x & <- & Hx). apply zrange_In in Hx, Hy. simpl. lia.
  - intros [Hx Hy]. exists (snd c). split; [now apply zrange_In|].
    apply in_map_iff. exists (fst c). split; [now destruct c|].
    now apply zrange_In.
Qed.

Lemma window_row_major (rows cols radius x y : Z) :
  StronglySorted row_major (window rows cols radius x y).
Proof.
  unfold window. apply StronglySorted_filter.
  apply StronglySorted_map_mono with (RA := row_major).
  - intros a b [H|[H1 H2]]; [left|right]; simpl; lia.
  - apply product_row_major; apply zspan_sorted.
Qed.

Lemma window_In (rows cols radius x y : Z) (c : Z * Z) :
  In c (window rows cols radius x y) <->
  Z.abs (fst c - x) <= radius /\ Z.abs (snd c - y) <= radius /\
  0 <= fst c < cols /\ 0 <= snd c < rows.
Proof.
  unfold window. rewrite filter_In, in_map_iff. unfold in_bounds.
  rewrite !andb_true_iff, !Z.leb_le, !Z.ltb_lt. split.
  - intros [(s & <- & Hs) Hb]. unfold search_offsets in Hs.
    apply in_flat_map in Hs. destruct Hs as (sY & HsY & Hs).
    apply in_map_iff in Hs. destruct Hs as (sX & <- & HsX).
    apply zspan_In in HsX, HsY. simpl in *. lia.
  - intros (Hx & Hy & Hc & Hr). split; [|lia].
    exists (fst c - x, snd c - y). split.
    + destruct c; simpl; f_equal; lia.
    + unfold search_offsets. apply in_flat_map. exists (snd c - y). split.
      * apply zspan_In. lia.
      * apply in_map_iff. exists (fst c - x). split; [reflexivity|].
        apply zspan_In. lia.
Qed.

(** What it takes for the averaging estimator to accept a vector. *)
Lemma accepted_vector_spec (g1 g2 : list (list float)) (rows cols x y : Z)
  (d : Z * Z) :
  accepted_vector g1 g2 rows cols (x, y) = Some d <->
  exists v err b,
    cell g1 x y = Some v /\ (0.1 <? v)%float = true /\
    first_min PrimFloat.ltb (match_error g2 v) (window rows cols 5 x y)
              err b /\
    (err <? 0.5)%float = true /\ d = (fst b - x, snd b - y).
Proof.
  unfold accepted_vector. cbn [fst snd]. split.
  - destruct (cell g1 x y) as [v|]; [|discriminate].
    destruct (0.1 <? v)%float eqn:Hv; [|discriminate].
    destruct (scan_min _ _ _) as [[err b]|] eqn:Hs; [|discriminate].
    destruct (err <? 0.5)%float eqn:He; [|discriminate].
    intros E. inversion E; subst. exists v, err, b.
    apply float_scan_min_first in Hs; [auto|].
    intros c e. apply match_error_number.
  - intros (v & err & b & Hc & Hv & Hf & He & ->).
    rewrite Hc, Hv.
    rewrite (float_first_min_scan _ _ _ _ (match_error_number g2 v) Hf).
    now rewrite He.
Qed.

(** The cost of a match is its error, for the cells of the newer grid whose
    error is a number below infinity. *)
Lemma match_error_spec (g2 : list (list float)) (v : float) (c : Z * Z)
  (e : float) :
  match_error g2 v c = Some e <->
  exists w, cell g2 (fst c) (snd c) = Some w /\
            e = absolute_difference v w /\ (e <? infinity)%float = true.
Proof.
  unfold match_error. split.
  - destruct (cell g2 (fst c) (snd c)) as [w|]; [|discriminate].
    destruct (absolute_difference v w <? infinity)%float eqn:E;
      [|discriminate].
    intros H. inversion H; subst. now exists w.
  - intros (w & -> & -> & E). now rewrite E.
Qed.

(** On an older grid with a first row, and a newer grid of at least as many
    rows, the averaging estimator completes: it reports the mean of the
    accepted vectors if there are more than ten of them, ambiguous motion
    otherwise. *)
Lemma trackMovement_reports_mean (host : Host)
  (r1 r2 : FrameRecord) (st : ImageTracker) (row0 : list float) :
  zget (grid r1) 0 = Some row0 ->
  (length (grid r1) <= length (grid r2))%nat ->
  let rows := Z.of_nat (length (grid r1)) in
  let cols := Z.of_nat (length row0) in
  let vs := accepted_vectors (grid r1) (grid r2) rows cols in
  let n := Z.of_nat (length vs) in
  Averaging.trackMovement host r1 r2 st =
  (Normal tt,
   if 10 <? n
   then Averaging.calculateSpeed host (mean (sum_dx vs) n)
                                 (mean (sum_dy vs) n)
                                 (timestamp r1) (timestamp r2) st
   else show st AmbiguousMotion).
Proof.
  intros Hrow0 Hlen rows cols vs n.
  unfold Averaging.trackMovement. rewrite Hrow0.
  fold rows. fold cols.
  rewrite track_loop by (unfold rows; lia).
  cbv zeta. fold (accepted_vectors (grid r1) (grid r2) rows cols).
  fold vs. rewrite !Z.add_0_l. fold n.
  destruct (10 <? n); reflexivity.
Qed.

(** With no row in the older grid, [grid1[0].length] throws. *)
Lemma trackMovement_empty_grid (host : Host)
  (r1 r2 : FrameRecord) (st : ImageTracker) :
  grid r1 = [] ->
  Averaging.trackMovement host r1 r2 st = (Throw TypeError, st).
Proof.
  intros H. unfold Averaging.trackMovement. now rewrite H.
Qed.

(** ** The single-target estimator *)

Lemma center_search_loop (grid2 : list (list float)) (rows cols x y : Z)
  (l : list (Z * Z)) (best : option (Z * (Z * Z))) :
  rows <= Z.of_nat (length grid2) ->
  foldM (SingleTarget.search_step grid2 rows cols x y) l best =
  Normal (fold_left (keep_min Z.ltb (target_cost grid2 (x, y)))
            (filter (in_bounds rows cols)
                    (map (fun s => (x + fst s, y + snd s)) l))
            best).
Proof.
  intros Hrows. revert best.
  induction l as [|[sX sY] l IH]; intros best; [reflexivity|].
  cbn [foldM map filter fst snd].
  unfold SingleTarget.search_step at 1. unfold in_bounds at 1.
  cbn [fst snd].
  destruct ((0 <=? y + sY) && (y + sY <? rows) && (0 <=? x + sX)
            && (x + sX <? cols)) eqn:Hin.
  - apply andb_prop in Hin. destruct Hin as [Hin _].
    apply andb_prop in Hin. destruct Hin as [Hin _].
    apply andb_prop in Hin. destruct Hin as [H0 H1].
    apply Z.leb_le in H0. apply Z.ltb_lt in H1.
    destruct (zget_in_range grid2 (y + sY)) as [row2 Hrow]; [lia|].
    rewrite Hrow. cbn [fold_left].
    unfold keep_min at 2, target_cost at 2, active, cell. cbn [fst snd].
    rewrite Hrow.
    replace (distance_sq (x, y) (x + sX, y + sY)) with (sX * sX + sY * sY)
      by (unfold distance_sq; cbn [fst snd]; ring).
    destruct (zget row2 (x + sX)) as [w|].
    + destruct (w =? 1)%float.
      * destruct (below Z.ltb (sX * sX + sY * sY) best); cbn [cbind];
          apply IH.
      * cbn [cbind]. apply IH.
    + cbn [cbind]. apply IH.
  - cbn [cbind]. apply IH.
Qed.

(** On an older grid with a first row, and a newer grid of at least as many
    rows, the single-target estimator completes: no target at the reference
    cell, or ambiguous motion when the window holds no active cell, or the
    displacement to the first nearest active cell of the window. *)
Lemma trackMovementFromCenter_reports_nearest
  (host : Host) (r1 r2 : FrameRecord) (st : ImageTracker)
  (row0 : list float) :
  zget (grid r1) 0 = Some row0 ->
  (length (grid r1) <= length (grid r2))%nat ->
  let rows := Z.of_nat (length (grid r1)) in
  let cols := Z.of_nat (length row0) in
  SingleTarget.trackMovementFromCenter host r1 r2 st =
  (Normal tt,
   match reference_cell (leafletMap st) (GRID_SIZE st) with
   | Some ref =>
     if active (grid r1) ref then
       match nearest_target (grid r2) rows cols ref with
       | Some (_, b) =>
         SingleTarget.calculateSpeed host
           (float_of_Z (fst b - fst ref)) (float_of_Z (snd b - snd ref))
           (timestamp r1) (timestamp r2) st
       | None => show st AmbiguousMotion
       end
     else show st NoTargetAtReference
   | None => show st NoTargetAtReference
   end).
Proof.
  intros Hrow0 Hlen rows cols.
  unfold SingleTarget.trackMovementFromCenter. rewrite Hrow0.
  fold rows. fold cols.
  unfold reference_cell, SingleTarget.crosshair_cell.
  destruct (floor_index _) as [startX|]; [|reflexivity].
  destruct (floor_index _) as [startY|]; [|reflexivity].
  unfold active. cbn [fst snd].
  destruct (cell (grid r1) startX startY) as [v|]; [|reflexivity].
  destruct (v =? 1)%float; [|reflexivity].
  rewrite center_search_loop by (unfold rows; lia).
  change (fold_left _ _ None)
    with (nearest_target (grid r2) rows cols (startX, startY)).
  destruct (nearest_target _ _ _ _) as [[d [bx by_]]|]; reflexivity.
Qed.

Lemma trackMovementFromCenter_empty_grid (host : Host)
  (r1 r2 : FrameRecord) (st : ImageTracker) :
  grid r1 = [] ->
  SingleTarget.trackMovementFromCenter host r1 r2 st =
  (Throw TypeError, st).
Proof.
  intros H. unfold SingleTarget.trackMovementFromCenter. now rewrite H.
Qed.

(** What the search of the single-target estimator finds. *)
Lemma nearest_target_spec (g2 : list (list float)) (rows cols : Z)
  (ref : Z * Z) :
  let w := window rows cols 8 (fst ref) (snd ref) in
  (forall d b,
      nearest_target g2 rows cols ref = Some (d, b) <->
      first_min Z.ltb (target_cost g2 ref) w d b) /\
  (nearest_target g2 rows cols ref = None <->
   forall c, In c w -> active g2 c = false).
Proof.
  intros w. unfold nearest_target. fold w. split.
  - intros d b. split.
    + apply Z_scan_min_first.
    + apply Z_first_min_scan.
  - split.
    + intros Hs c Hc. pose proof (scan_min_none _ _ _ Hs c Hc) as E.
      unfold target_cost in E. destruct (active g2 c); [discriminate|].
      reflexivity.
    + intros Hall.
      destruct (scan_min Z.ltb (target_cost g2 ref) w) as [[d b]|] eqn:Hs;
        [|reflexivity].
      apply Z_scan_min_first in Hs.
      destruct Hs as (i & Hi & Hc & _). apply nth_error_In in Hi.
      unfold target_cost in Hc. rewrite (Hall _ Hi) in Hc. discriminate.
Qed.

(** ** The estimators, as specified *)

(** C1, amended.  In whole-field averaging mode, for two consecutive grids
    of which the older has a first row and the newer at least as many rows
    as the older, the estimator considers every cell of the older grid
    (row-major, within the older grid's dimensions) whose value exceeds 0.1;
    in the in-bounds square of radius 5 around it, it finds the cell of
    the newer grid of minimal absolute value difference, the earliest in
    row-major order among equals; it accepts that match only if its error
    is below 0.5; and it reports the arithmetic mean of the accepted
    displacements if there are more than ten, ambiguous motion otherwise. *)
Theorem averaging_estimator_mean_of_accepted (host : Host)
  (r1 r2 : FrameRecord) (st : ImageTracker) (row0 : list float) :
  zget (grid r1) 0 = Some row0 ->
  (length (grid r1) <= length (grid r2))%nat ->
  let rows := Z.of_nat (length (grid r1)) in
  let cols := Z.of_nat (length row0) in
  let vs := accepted_vectors (grid r1) (grid r2) rows cols in
  let n := Z.of_nat (length vs) in
  Averaging.trackMovement host r1 r2 st =
  (Normal tt,
   if 10 <? n
   then Averaging.calculateSpeed host (mean (sum_dx vs) n)
                                 (mean (sum_dy vs) n)
                                 (timestamp r1) (timestamp r2) st
   else show st AmbiguousMotion) /\
  (forall x y d,
      accepted_vector (grid r1) (grid r2) rows cols (x, y) = Some d <->
      exists v err b,
        cell (grid r1) x y = Some v /\ (0.1 <? v)%float = true /\
        first_min PrimFloat.ltb (match_error (grid r2) v)
                  (window rows cols 5 x y) err b /\
        (err <? 0.5)%float = true /\ d = (fst b - x, snd b - y)) /\
  (forall v c e,
      match_error (grid r2) v c = Some e <->
      exists w, cell (grid r2) (fst c) (snd c) = Some w /\
                e = absolute_difference v w /\
                (e <? infinity)%float = true) /\
  (forall x y c,
      In c (window rows cols 5 x y) <->
      Z.abs (fst c - x) <= 5 /\ Z.abs (snd c - y) <= 5 /\
      0 <= fst c < cols /\ 0 <= snd c < rows) /\
  (forall x y, StronglySorted row_major (window rows cols 5 x y)) /\
  (forall c, In c (cells rows cols) <->
             0 <= fst c < cols /\ 0 <= snd c < rows) /\
  StronglySorted row_major (cells rows cols).
Proof.
  intros Hrow0 Hlen rows cols vs n.
  split; [|split; [|split; [|split; [|split; [|split]]]]].
  - exact (trackMovement_reports_mean host r1 r2 st row0 Hrow0 Hlen).
  - intros x y d. apply accepted_vector_spec.
  - intros v c e. apply match_error_spec.
  - intros x y c. apply window_In.
  - intros x y. apply window_row_major.
  - intros c. apply cells_In.
  - apply cells_row_major.
Qed.

(** Twelve cells of [ramp_record] find their value one cell to the right,
    the four of the last column find nothing within 0.5: the mean of the
    twelve displacements is one cell to the right, which at five metres a
    pixel and five minutes is 0.6 km/h. *)
Lemma averaging_estimator_witness :
  zget (grid (ramp_record "12:00")) 0 = Some [1; 2; 3; 4]%float /\
  (length (grid (ramp_record "12:00"))
   <= length (grid (ramp_record_moved "12:05")))%nat /\
  accepted_vectors (grid (ramp_record "12:00"))
                   (grid (ramp_record_moved "12:05")) 4 4
  = repeat (1, 0) 12 /\
  Averaging.trackMovement demo_host (ramp_record "12:00")
                          (ramp_record_moved "12:05") averaging_tracker =
  (Normal tt,
   log (show averaging_tracker "~ 0.6 km/h") "Calculated speed: 0.6 km/h").
Proof.
  split; [reflexivity|]. split; [simpl; lia|]. split; [reflexivity|].
  rewrite (proj1 (averaging_estimator_mean_of_accepted
                    demo_host (ramp_record "12:00")
                    (ramp_record_moved "12:05") averaging_tracker
                    [1; 2; 3; 4]%float eq_refl (le_n 4))).
  reflexivity.
Defined.

(** The averaging estimator on two frames too low for a row of cells: an
    uncaught [TypeError] where C1 promises ambiguous motion. *)
Lemma averaging_estimator_throws_on_empty_grids :
  accepted_vectors (grid (empty_record "12:00"))
                   (grid (empty_record "12:05")) 0 0 = [] /\
  Averaging.trackMovement demo_host (empty_record "12:00")
                          (empty_record "12:05") averaging_tracker =
  (Throw TypeError, averaging_tracker) /\
  (Throw TypeError, averaging_tracker) <>
  (Normal tt, show averaging_tracker AmbiguousMotion).
Proof.
  split; [reflexivity|]. split; [|discriminate].
  apply trackMovement_empty_grid. reflexivity.
Qed.

(** C2, amended.  In single-target mode, for two consecutive grids of which
    the older has a first row and the newer at least as many rows as the
    older: if the reference cell (the viewport centre in grid coordinates)
    is not active in the older grid, the estimator reports no target at the
    reference; otherwise it searches the in-bounds square of radius 8 around
    the reference cell in the newer grid for the active cell of minimal
    squared distance, the earliest in row-major order among equals, reports
    ambiguous motion if the square holds no active cell, and the
    displacement from the reference cell to the cell found otherwise. *)
Theorem single_target_estimator_nearest_active
  (host : Host) (r1 r2 : FrameRecord) (st : ImageTracker)
  (row0 : list float) :
  zget (grid r1) 0 = Some row0 ->
  (length (grid r1) <= length (grid r2))%nat ->
  let rows := Z.of_nat (length (grid r1)) in
  let cols := Z.of_nat (length row0) in
  let w ref := window rows cols 8 (fst ref) (snd ref) in
  let found := nearest_target (grid r2) rows cols in
  SingleTarget.trackMovementFromCenter host r1 r2 st =
  (Normal tt,
   match reference_cell (leafletMap st) (GRID_SIZE st) with
   | Some ref =>
     if active (grid r1) ref then
       match found ref with
       | Some (_, b) =>
         SingleTarget.calculateSpeed host
           (float_of_Z (fst b - fst ref)) (float_of_Z (snd b - snd ref))
           (timestamp r1) (timestamp r2) st
       | None => show st AmbiguousMotion
       end
     else show st NoTargetAtReference
   | None => show st NoTargetAtReference
   end) /\
  (forall ref d b,
      found ref = Some (d, b) <->
      first_min Z.ltb (target_cost (grid r2) ref) (w ref) d b) /\
  (forall ref,
      found ref = None <->
      forall c, In c (w ref) -> active (grid r2) c = false) /\
  (forall ref c,
      In c (w ref) <->
      Z.abs (fst c - fst ref) <= 8 /\ Z.abs (snd c - snd ref) <= 8 /\
      0 <= fst c < cols /\ 0 <= snd c < rows) /\
  (forall ref, StronglySorted row_major (w ref)).
Proof.
  intros Hrow0 Hlen rows cols w found.
  split; [|split; [|split; [|split]]].
  - exact (trackMovementFromCenter_reports_nearest
             host r1 r2 st row0 Hrow0 Hlen).
  - intros ref d b.
    apply (proj1 (nearest_target_spec (grid r2) rows cols ref)).
  - intros ref. apply (proj2 (nearest_target_spec (grid r2) rows cols ref)).
  - intros ref c. apply window_In.
  - intros ref. apply window_row_major.
Qed.

Lemma single_target_estimator_witness :
  zget (grid (spot_record "12:00" 5 5)) 0 = Some (repeat 0%float 10) /\
  (length (grid (spot_record "12:00" 5 5))
   <= length (grid (spot_record "12:05" 6 5)))%nat /\
  SingleTarget.trackMovementFromCenter
    demo_host (spot_record "12:00" 5 5) (spot_record "12:05" 6 5)
    single_tracker =
  (Normal tt,
   SingleTarget.calculateSpeed demo_host 1 0 "12:00" "12:05" single_tracker).
Proof.
  split; [reflexivity|]. split; [simpl; lia|].
  exact (proj1 (single_target_estimator_nearest_active
                  demo_host (spot_record "12:00" 5 5)
                  (spot_record "12:05" 6 5) single_tracker
                  (repeat 0%float 10) eq_refl (le_n 10))).
Defined.

(** The single-target estimator on two frames too low for a row of cells:
    an uncaught [TypeError] where C2 promises "no target at reference". *)
Lemma single_target_estimator_throws_on_empty_grids :
  reference_cell (leafletMap single_tracker) (GRID_SIZE single_tracker)
  = Some (5, 5) /\
  active (grid (empty_record "12:00")) (5, 5) = false /\
  SingleTarget.trackMovementFromCenter
    demo_host (empty_record "12:00") (empty_record "12:05") single_tracker =
  (Throw TypeError, single_tracker) /\
  (Throw TypeError, single_tracker) <>
  (Normal tt, show single_tracker NoTargetAtReference).
Proof.
  split; [reflexivity|]. split; [reflexivity|]. split; [|discriminate].
  apply trackMovementFromCenter_empty_grid. reflexivity.
Qed.

(** ** FrameHistory is a bounded queue *)

Lemma push_evict_skipn (h : list FrameRecord) (r : FrameRecord) :
  (length h <= 10)%nat ->
  push_evict h r = skipn (length (h ++ [r]) - 10) (h ++ [r]).
Proof.
  intros Hlen. unfold push_evict. cbv zeta.
  rewrite length_app. cbn [length].
  destruct (10 <? Z.of_nat (length h + 1)) eqn:E.
  - apply Z.ltb_lt in E.
    replace (length h + 1 - 10)%nat with 1%nat by lia.
    now destruct (h ++ [r]).
  - apply Z.ltb_ge in E.
    replace (length h + 1 - 10)%nat with 0%nat by lia. reflexivity.
Qed.

Lemma push_evict_length (h : list FrameRecord) (r : FrameRecord) :
  (length h <= 10)%nat -> (length (push_evict h r) <= 10)%nat.
Proof.
  intros Hlen. rewrite push_evict_skipn by exact Hlen.
  rewrite length_skipn, length_app. cbn [length]. lia.
Qed.

Lemma push_evict_many (h rs : list FrameRecord) :
  (length h <= 10)%nat ->
  fold_left push_evict rs h = skipn (length (h ++ rs) - 10) (h ++ rs).
Proof.
  revert h. induction rs as [|r rs IH]; intros h Hlen.
  - rewrite app_nil_r. cbn [fold_left].
    replace (length h - 10)%nat with 0%nat by lia. reflexivity.
  - cbn [fold_left]. rewrite IH by now apply push_evict_length.
    rewrite push_evict_skipn by exact Hlen.
    set (k := (length (h ++ [r]) - 10)%nat).
    assert (Hk : (k <= length (h ++ [r]))%nat) by (unfold k; lia).
    replace (h ++ r :: rs) with ((h ++ [r]) ++ rs)
      by (rewrite <- app_assoc; reflexivity).
    assert (E : skipn k (h ++ [r]) ++ rs = skipn k ((h ++ [r]) ++ rs)).
    { rewrite (skipn_app k (h ++ [r]) rs).
      replace (k - length (h ++ [r]))%nat with 0%nat by lia. reflexivity. }
    rewrite E, skipn_skipn. f_equal.
    rewrite length_skipn, !length_app. cbn [length].
    unfold k. rewrite length_app. cbn [length]. lia.
Qed.

Lemma record_frame_completes (track : estimator) (new : FrameRecord)
  (st : ImageTracker) :
  (forall lastGridData,
      last_record (gridData st) = Some lastGridData ->
      timestamp lastGridData <> timestamp new ->
      exists st', track lastGridData new st = (Normal tt, st') /\
                  only_output st st') ->
  exists st',
    record_frame track new st = (Normal tt, st') /\
    gridData st' = push_evict (gridData st) new.
Proof.
  intros Htrack. unfold record_frame.
  destruct (last_record (gridData st)) as [lastGridData|] eqn:Hlast.
  - destruct (String.eqb (timestamp lastGridData) (timestamp new)) eqn:E.
    + simpl. eexists. split; reflexivity.
    + apply String.eqb_neq in E.
      destruct (Htrack _ eq_refl E) as (st' & Ht & Hout).
      rewrite Ht. simpl. eexists. split; [reflexivity|].
      simpl. destruct Hout as (_ & _ & _ & Hg & _). now rewrite Hg.
  - eexists. split; reflexivity.
Qed.

Lemma record_frame_bounded (track : estimator) (new : FrameRecord)
  (st : ImageTracker) c st' :
  (forall lastGridData, only_output st (snd (track lastGridData new st))) ->
  (length (gridData st) <= 10)%nat ->
  record_frame track new st = (c, st') ->
  (length (gridData st') <= 10)%nat.
Proof.
  intros Hout Hlen. unfold record_frame.
  destruct (last_record (gridData st)) as [lastGridData|].
  - destruct (negb _).
    + specialize (Hout lastGridData).
      destruct (track lastGridData new st) as [[u|e] st2]; simpl in Hout;
        destruct Hout as (_ & _ & _ & Hg & _);
        intros E; inversion E; subst; simpl.
      * apply push_evict_length. now rewrite Hg.
      * now rewrite Hg.
    + intros E. inversion E; subst. simpl. now apply push_evict_length.
  - intros E. inversion E; subst. simpl. now apply push_evict_length.
Qed.

Lemma averaging_rasterize_length st imageData :
  length (Averaging.rasterize st imageData) =
  Z.to_nat (snd (canvas st) / GRID_SIZE st).
Proof.
  unfold Averaging.rasterize. rewrite length_map. unfold zrange.
  rewrite zspan_length. f_equal. lia.
Qed.

Lemma single_rasterize_length st imageData :
  length (SingleTarget.rasterize st imageData) =
  Z.to_nat (snd (canvas st) / GRID_SIZE st).
Proof.
  unfold SingleTarget.rasterize. rewrite length_map. unfold zrange.
  rewrite zspan_length. f_equal. lia.
Qed.

Lemma zget_first {A : Type} (l : list A) :
  l <> [] -> exists a, zget l 0 = Some a.
Proof. destruct l as [|a l]; [congruence|]. intros _. now exists a. Qed.

Lemma averaging_analyzeFrame_completes host img time st :
  estimable st img time -> averaging_ready st ->
  exists st',
    Averaging.analyzeFrame host img time st = (Normal tt, st') /\
    gridData st' = push_evict (gridData st) (averaging_record img time st).
Proof.
  intros [Hpix Hest] [Hen Hmap].
  rewrite averaging_analyzeFrame_unfold, Hen, (has_pixels_nonzero img Hpix).
  destruct (legendColorMap st) as [m|]; [|congruence]. cbn [negb orb].
  match goal with
  | |- exists st', record_frame ?track ?new ?st1 = _ /\ _ =>
    destruct (record_frame_completes track new st1) as (st' & E & Hst');
      [|exists st'; split; [exact E|exact Hst']]
  end.
  cbn [gridData set_canvas].
  intros lastGridData Hlast Hne. destruct (Hest _ Hlast Hne) as [Hg Hrows].
  destruct (zget_first _ Hg) as [row0 Hrow0].
  rewrite (trackMovement_reports_mean host _ _ _ row0 Hrow0).
  - eexists. split; [reflexivity|].
    destruct (10 <? _).
    + apply averaging_calculateSpeed_output.
    + apply only_output_show.
  - unfold averaging_record. cbn [grid].
    rewrite averaging_rasterize_length. cbn [canvas set_canvas snd GRID_SIZE].
    lia.
Qed.

Lemma single_analyzeFrame_completes host img time st :
  estimable st img time -> single_ready st ->
  exists st',
    SingleTarget.analyzeFrame host img time st = (Normal tt, st') /\
    gridData st' = push_evict (gridData st) (single_record img time st).
Proof.
  intros [Hpix Hest] [Hen Hcol].
  rewrite single_analyzeFrame_unfold, Hen, Hcol, (has_pixels_nonzero img Hpix).
  cbn [negb orb].
  match goal with
  | |- exists st', record_frame ?track ?new ?st1 = _ /\ _ =>
    destruct (record_frame_completes track new st1) as (st' & E & Hst');
      [|exists st'; split; [exact E|exact Hst']]
  end.
  cbn [gridData set_canvas].
  intros lastGridData Hlast Hne. destruct (Hest _ Hlast Hne) as [Hg Hrows].
  destruct (zget_first _ Hg) as [row0 Hrow0].
  rewrite (trackMovementFromCenter_reports_nearest
             host _ _ _ row0 Hrow0).
  - eexists. split; [reflexivity|].
    destruct (reference_cell _ _) as [ref|]; [|apply only_output_show].
    destruct (active _ _); [|apply only_output_show].
    destruct (nearest_target _ _ _ _) as [[d b]|].
    + apply single_calculateSpeed_output.
    + apply only_output_show.
  - unfold single_record. cbn [grid].
    rewrite single_rasterize_length. cbn [canvas set_canvas snd GRID_SIZE].
    lia.
Qed.

Lemma averaging_analyzeFrame_bounded host img time st c st' :
  (length (gridData st) <= 10)%nat ->
  Averaging.analyzeFrame host img time st = (c, st') ->
  (length (gridData st') <= 10)%nat.
Proof.
  intros Hlen. rewrite averaging_analyzeFrame_unfold.
  destruct (negb (isEnabled st) || _).
  - intros E. inversion E; subst. exact Hlen.
  - destruct ((img_width img =? 0) || (img_height img =? 0)).
    + intros E. inversion E; subst. exact Hlen.
    + apply record_frame_bounded; [|exact Hlen].
      intros l. apply trackMovement_output.
Qed.

Lemma single_analyzeFrame_bounded host img time st c st' :
  (length (gridData st) <= 10)%nat ->
  SingleTarget.analyzeFrame host img time st = (c, st') ->
  (length (gridData st') <= 10)%nat.
Proof.
  intros Hlen. rewrite single_analyzeFrame_unfold.
  destruct (negb (isEnabled st) || _).
  - intros E. inversion E; subst. exact Hlen.
  - destruct ((img_width img =? 0) || (img_height img =? 0)).
    + intros E. inversion E; subst. exact Hlen.
    + apply record_frame_bounded; [|exact Hlen].
      intros l. apply trackMovementFromCenter_output.
Qed.

Lemma averaging_step_bounded host st (c : averaging_call) :
  (length (gridData st) <= 10)%nat ->
  (length (gridData (snd (averaging_step host st c))) <= 10)%nat.
Proof.
  intros Hlen. destruct c as [enabled|legendUrl loaded|imageElement time];
    cbn [averaging_step snd].
  - unfold Averaging.setAnalysisEnabled. destruct enabled; cbn; [exact Hlen|lia].
  - unfold Averaging.parseLegend. destruct loaded as [img|]; [|exact Hlen].
    cbv zeta. destruct (Map_size _ =? 0); exact Hlen.
  - destruct (Averaging.analyzeFrame host imageElement time st) as [c st']
      eqn:E.
    exact (averaging_analyzeFrame_bounded host _ _ _ _ _ Hlen E).
Qed.

Lemma single_step_bounded host st (c : single_call) :
  (length (gridData st) <= 10)%nat ->
  (length (gridData (snd (single_step host st c))) <= 10)%nat.
Proof.
  intros Hlen.
  destruct c as [hexColor|enabled|legendUrl loaded|imageElement time];
    cbn [single_step snd].
  - cbn. lia.
  - unfold SingleTarget.setAnalysisEnabled.
    destruct enabled; cbn; [exact Hlen|lia].
  - unfold SingleTarget.parseLegend. destruct loaded as [img|]; [|exact Hlen].
    destruct (SingleTarget.scan_legend img) as [colors colorPositions].
    cbv zeta. destruct (Map_size _ =? 0); exact Hlen.
  - destruct (SingleTarget.analyzeFrame host imageElement time st) as [c st']
      eqn:E.
    exact (single_analyzeFrame_bounded host _ _ _ _ _ Hlen E).
Qed.

Lemma averaging_run_bounded host calls st :
  (length (gridData st) <= 10)%nat ->
  (length (gridData (averaging_run host calls st)) <= 10)%nat.
Proof.
  unfold averaging_run. revert st.
  induction calls as [|c calls IH]; intros st Hlen; [exact Hlen|].
  cbn [fold_left]. apply IH. now apply averaging_step_bounded.
Qed.

Lemma single_run_bounded host calls st :
  (length (gridData st) <= 10)%nat ->
  (length (gridData (single_run host calls st)) <= 10)%nat.
Proof.
  unfold single_run. revert st.
  induction calls as [|c calls IH]; intros st Hlen; [exact Hlen|].
  cbn [fold_left]. apply IH. now apply single_step_bounded.
Qed.

(** C8, amended.  Every [analyzeFrame] call that passes its enabling
    precondition, on a frame that has pixels, and whose motion estimation
    (if the call runs one) has an older grid with a first row and no more
    rows than the new one, appends exactly one FrameRecord, also when the
    new timestamp equals the last one, and then drops the oldest record if
    and only if that makes more than ten.  FrameHistory therefore holds the
    last ten records appended, in the order of their insertion; and
    whatever the frame and however the call ends, also by an exception, a
    history of at most ten records is one of at most ten records
    afterwards, so that no sequence of calls on a new tracker ever leaves
    more than ten. *)
Theorem history_appends_one_and_evicts_oldest
  (host : Host) (img : Image) (time : string)
  (st : ImageTracker) :
  (estimable st img time -> averaging_ready st ->
   exists st',
     Averaging.analyzeFrame host img time st = (Normal tt, st') /\
     gridData st' = push_evict (gridData st) (averaging_record img time st)) /\
  (estimable st img time -> single_ready st ->
   exists st',
     SingleTarget.analyzeFrame host img time st = (Normal tt, st') /\
     gridData st' = push_evict (gridData st) (single_record img time st)) /\
  (forall h r,
      (length h <= 10)%nat ->
      push_evict h r = skipn (length (h ++ [r]) - 10) (h ++ [r])) /\
  (forall h rs,
      (length h <= 10)%nat ->
      fold_left push_evict rs h = skipn (length (h ++ rs) - 10) (h ++ rs)) /\
  (forall c st',
      (length (gridData st) <= 10)%nat ->
      Averaging.analyzeFrame host img time st = (c, st') ->
      (length (gridData st') <= 10)%nat) /\
  (forall c st',
      (length (gridData st) <= 10)%nat ->
      SingleTarget.analyzeFrame host img time st = (c, st') ->
      (length (gridData st') <= 10)%nat) /\
  (forall calls canvas map results,
      (length (gridData (averaging_run
                           host calls
                           (Averaging.new_ImageTracker canvas map results)))
       <= 10)%nat) /\
  (forall calls canvas map results,
      (length (gridData (single_run
                           host calls
                           (SingleTarget.new_ImageTracker canvas map results)))
       <= 10)%nat).
Proof.
  split; [|split; [|split; [|split; [|split; [|split; [|split]]]]]].
  - apply averaging_analyzeFrame_completes.
  - apply single_analyzeFrame_completes.
  - exact push_evict_skipn.
  - exact push_evict_many.
  - intros c st'. apply averaging_analyzeFrame_bounded.
  - intros c st'. apply single_analyzeFrame_bounded.
  - intros calls canvas map results. apply averaging_run_bounded. cbn. lia.
  - intros calls canvas map results. apply single_run_bounded. cbn. lia.
Qed.

Lemma averaging_tracker_1_estimable :
  estimable averaging_tracker_1 blue_tile "12:05".
Proof.
  split; [split; reflexivity|].
  intros lastGridData Hlast _. vm_compute in Hlast.
  inversion Hlast; subst. split; [discriminate|].
  vm_compute. discriminate.
Defined.

Lemma history_appends_witness :
  estimable averaging_tracker_1 blue_tile "12:05" /\
  averaging_ready averaging_tracker_1 /\
  exists st',
    Averaging.analyzeFrame demo_host blue_tile "12:05" averaging_tracker_1 =
    (Normal tt, st') /\
    gridData st' =
    [averaging_record blue_tile "12:00" averaging_tracker;
     averaging_record blue_tile "12:05" averaging_tracker_1].
Proof.
  assert (Hready : averaging_ready averaging_tracker_1).
  { split; [reflexivity|]. vm_compute. discriminate. }
  split; [exact averaging_tracker_1_estimable|]. split; [exact Hready|].
  exact (proj1 (history_appends_one_and_evicts_oldest
                  demo_host blue_tile "12:05" averaging_tracker_1)
               averaging_tracker_1_estimable Hready).
Defined.

(** A frame too low for a row of cells is recorded with an empty grid; the
    next call, with a new timestamp, passes the precondition, throws in the
    estimator and appends nothing. *)
Lemma sliver_frame_is_not_appended :
  isEnabled averaging_tracker_sliver = true /\
  legendColorMap averaging_tracker_sliver = Some [("#0000ff"%string, 1)] /\
  gridData averaging_tracker_sliver = [empty_record "12:00"] /\
  fst (Averaging.analyzeFrame demo_host sliver "12:05"
                              averaging_tracker_sliver) = Throw TypeError /\
  gridData (snd (Averaging.analyzeFrame demo_host sliver "12:05"
                                        averaging_tracker_sliver)) =
  [empty_record "12:00"].
Proof.
  repeat split; vm_compute; reflexivity.
Qed.

(** ** The legend extractor *)

Lemma includes_In (colors : list string) (hex : string) :
  includes colors hex = true <-> In hex colors.
Proof.
  unfold includes. rewrite existsb_exists. split.
  - intros (x & Hx & E). apply String.eqb_eq in E. now subst.
  - intros H. exists hex. split; [exact H|apply String.eqb_refl].
Qed.

Lemma Map_has_In (m : ColorMap) (k : string) :
  Map_has m k = true <-> In k (Map_keys m).
Proof.
  unfold Map_has, Map_keys. rewrite existsb_exists, in_map_iff. split.
  - intros (e & He & E). apply String.eqb_eq in E. now exists e.
  - intros (e & E & He). exists e. split; [exact He|].
    apply String.eqb_eq. exact E.
Qed.

Lemma Map_set_fresh (m : ColorMap) (k : string) (v : Z) :
  ~ In k (Map_keys m) -> Map_set m k v = m ++ [(k, v)].
Proof.
  induction m as [|[k' v'] m IH]; intros Hk; [reflexivity|].
  simpl in *. destruct (String.eqb k' k) eqn:E.
  - apply String.eqb_eq in E. tauto.
  - rewrite IH; tauto.
Qed.

Lemma Map_new_distinct (entries : list (string * Z)) :
  NoDup (map fst entries) -> Map_new entries = entries.
Proof.
  unfold Map_new.
  assert (H : forall acc,
             NoDup (map fst (acc ++ entries)) ->
             fold_left (fun m e => Map_set m (fst e) (snd e)) entries acc
             = acc ++ entries).
  { induction entries as [|[k v] entries IH]; intros acc Hnd.
    - now rewrite app_nil_r.
    - cbn [fold_left fst snd]. rewrite Map_set_fresh.
      + rewrite IH; rewrite <- app_assoc; [reflexivity|exact Hnd].
      + rewrite map_app in Hnd. cbn [map fst] in Hnd.
        apply NoDup_remove_2 in Hnd. intros Hin. apply Hnd.
        apply in_or_app. now left. }
  intros Hnd. exact (H [] Hnd).
Qed.

Lemma with_ranks_keys (colors : list string) :
  map fst (with_ranks colors) = colors.
Proof.
  unfold with_ranks.
  assert (H : forall (B : Type) (l : list string) (l' : list B),
             length l = length l' -> map fst (combine l l') = l).
  { intros B l. induction l as [|a l IH]; intros [|b l'] E;
      try discriminate; [reflexivity|]. simpl. f_equal. auto. }
  apply H. now rewrite length_map, length_seq.
Qed.

Lemma with_ranks_ranks (colors : list string) :
  map snd (with_ranks colors) = ranks (length colors).
Proof.
  unfold with_ranks, ranks.
  assert (H : forall (A B : Type) (l : list A) (l' : list B),
             length l = length l' -> map snd (combine l l') = l').
  { intros A B l. induction l as [|a l IH]; intros [|b l'] E;
      try discriminate; [reflexivity|]. simpl. f_equal. auto. }
  apply H. now rewrite length_map, length_seq.
Qed.

Lemma with_ranks_length (colors : list string) :
  length (with_ranks colors) = length colors.
Proof. rewrite <- (with_ranks_keys colors) at 2. now rewrite length_map. Qed.

(** The table built from distinct colours. *)
Lemma table_of_distinct (colors : list string) :
  NoDup colors ->
  let m := Map_new (with_ranks colors) in
  Map_keys m = colors /\ map snd m = ranks (length m) /\
  length m = length colors.
Proof.
  intros Hnd m. unfold m.
  rewrite Map_new_distinct by (rewrite with_ranks_keys; exact Hnd).
  unfold Map_keys.
  rewrite with_ranks_keys, with_ranks_ranks, with_ranks_length. auto.
Qed.

Lemma fold_left_pointwise {A B : Type} (f g : A -> B -> A) (l : list B)
  (a : A) :
  (forall a b, f a b = g a b) -> fold_left f l a = fold_left g l a.
Proof.
  intros H. revert a. induction l as [|b l IH]; intros a; [reflexivity|].
  simpl. now rewrite H, IH.
Qed.

Lemma averaging_scan_legend_rows (img : Image) :
  Averaging.scan_legend img =
  scan_rows (center_sample img) (zrange (img_height img)) [].
Proof.
  unfold Averaging.scan_legend, scan_rows.
  apply fold_left_pointwise. intros colors y.
  unfold center_sample.
  destruct (getPixel img (img_width img / 2) y) as [[[r g] b] a].
  destruct ((200 <? a) && (r + g + b <? 700)); reflexivity.
Qed.

Lemma zrange_succ (n : nat) :
  zrange (Z.of_nat (S n)) = zrange (Z.of_nat n) ++ [Z.of_nat n].
Proof.
  unfold zrange, zspan. rewrite !Z.sub_0_r, !Nat2Z.id.
  rewrite seq_S, map_app. reflexivity.
Qed.

Lemma Forall2_snoc {A B : Type} (R : A -> B -> Prop) l l' a b :
  Forall2 R l l' -> R a b -> Forall2 R (l ++ [a]) (l' ++ [b]).
Proof. intros H Hab. apply Forall2_app; [exact H|]. now constructor. Qed.

Lemma StronglySorted_snoc (l : list Z) (n : Z) :
  StronglySorted Z.lt l -> Forall (fun y => y < n) l ->
  StronglySorted Z.lt (l ++ [n]).
Proof.
  intros Hs Hall. apply StronglySorted_app; [exact Hs|repeat constructor|].
  intros a b Ha [<-|[]]. rewrite Forall_forall in Hall. auto.
Qed.

(** After the first [n] rows: the colours are distinct, each stands at the
    row it was first sampled in, those rows increase along the list, and
    every colour sampled so far is in the list. *)
Lemma scan_rows_invariant (sample : Z -> option string) (n : nat) :
  let colors := scan_rows sample (zrange (Z.of_nat n)) [] in
  NoDup colors /\
  (exists rows,
      Forall2 (first_seen_at sample) colors rows /\
      StronglySorted Z.lt rows /\
      Forall (fun y => y < Z.of_nat n) rows) /\
  (forall y hex, 0 <= y < Z.of_nat n -> sample y = Some hex ->
                 In hex colors).
Proof.
  induction n as [|n IH].
  - cbn. split; [constructor|]. split.
    + exists []. repeat constructor.
    + intros y hex Hy. lia.
  - cbv zeta in *. rewrite zrange_succ. unfold scan_rows in *.
    rewrite fold_left_app. cbn [fold_left].
    set (colors := fold_left _ (zrange (Z.of_nat n)) []) in *.
    destruct IH as (Hnd & (rows & Hrows & Hsorted & Hbound) & Hall).
    assert (Hkeep :
              (forall hex, sample (Z.of_nat n) = Some hex -> In hex colors) ->
              NoDup colors /\
              (exists rows0,
                  Forall2 (first_seen_at sample) colors rows0 /\
                  StronglySorted Z.lt rows0 /\
                  Forall (fun y => y < Z.of_nat (S n)) rows0) /\
              (forall y hex, 0 <= y < Z.of_nat (S n) ->
                             sample y = Some hex -> In hex colors)).
    { intros Hn. split; [exact Hnd|]. split.
      - exists rows. repeat split; auto.
        eapply Forall_impl; [|exact Hbound]. intros; cbv beta in *; lia.
      - intros y hex Hy Hs.
        destruct (Z.eq_dec y (Z.of_nat n)) as [->|Hne]; [auto|].
        apply (Hall y); [lia|exact Hs]. }
    destruct (sample (Z.of_nat n)) as [hex|] eqn:Hs.
    + destruct (includes colors hex) eqn:Hinc; cbn [negb].
      * apply Hkeep. intros hex' E. inversion E; subst.
        now apply includes_In.
      * assert (Hnew : ~ In hex colors).
        { intros Hin. apply includes_In in Hin. congruence. }
        split; [|split].
        -- apply NoDup_app_remove_l with (l := []). simpl.
           apply NoDup_rev in Hnd.
           rewrite <- (rev_involutive (colors ++ [hex])).
           apply NoDup_rev. rewrite rev_app_distr. simpl.
           constructor; [|exact Hnd].
           intros Hin. apply in_rev in Hin. contradiction.
        -- exists (rows ++ [Z.of_nat n]). repeat split.
           ++ apply Forall2_snoc; [exact Hrows|].
              repeat split; [lia|exact Hs|].
              intros y' Hy' E. apply Hnew. exact (Hall y' hex Hy' E).
           ++ now apply StronglySorted_snoc.
           ++ apply Forall_app. split.
              ** eapply Forall_impl; [|exact Hbound].
                 intros; cbv beta in *; lia.
              ** repeat constructor. lia.
        -- intros y hex' Hy Hs'. apply in_or_app.
           destruct (Z.eq_dec y (Z.of_nat n)) as [->|Hne].
           ++ right. rewrite Hs in Hs'. inversion Hs'. now left.
           ++ left. apply (Hall y); [lia|exact Hs'].
    + apply Hkeep. discriminate.
Qed.

Lemma zrange_to_nat (n : Z) : zrange n = zrange (Z.of_nat (Z.to_nat n)).
Proof. unfold zrange, zspan. do 2 f_equal. lia. Qed.

(** *** The higher-fidelity scan *)

Lemma scan_row_cons (img : Image) (cp : ColorMap) (y x : Z) (xs : list Z) :
  SingleTarget.scan_row img cp y (x :: xs) =
  match band_sample img x y with
  | Some hex =>
    if Map_has cp hex then SingleTarget.scan_row img cp y xs else Some hex
  | None => SingleTarget.scan_row img cp y xs
  end.
Proof.
  cbn [SingleTarget.scan_row]. unfold band_sample.
  destruct (getPixel img x y) as [[[r g] b] a].
  change (near_gray r g b) with (SingleTarget.isGrey r g b).
  destruct ((200 <? a) && (r + g + b <? 700)
            && negb (SingleTarget.isGrey r g b)); [|reflexivity].
  destruct (Map_has cp (hex_of_rgb r g b)); reflexivity.
Qed.

(** The colour a row gives is new, and it is the colour of the first pixel
    of the row, in scan order, that qualifies with a new colour. *)
Lemma scan_row_some (img : Image) (cp : ColorMap) (y : Z) (xs : list Z)
  (hex : string) :
  SingleTarget.scan_row img cp y xs = Some hex ->
  ~ In hex (Map_keys cp) /\
  exists l1 x l2,
    xs = l1 ++ x :: l2 /\ band_sample img x y = Some hex /\
    forall x' hex', In x' l1 -> band_sample img x' y = Some hex' ->
                    In hex' (Map_keys cp).
Proof.
  induction xs as [|x xs IH]; [discriminate|].
  rewrite scan_row_cons.
  assert (Hrest :
            (forall hex', band_sample img x y = Some hex' ->
                          In hex' (Map_keys cp)) ->
            SingleTarget.scan_row img cp y xs = Some hex ->
            ~ In hex (Map_keys cp) /\
            exists l1 x0 l2,
              x :: xs = l1 ++ x0 :: l2 /\ band_sample img x0 y = Some hex /\
              forall x' hex', In x' l1 -> band_sample img x' y = Some hex' ->
                              In hex' (Map_keys cp)).
  { intros Hx H. destruct (IH H) as (Hk & l1 & x0 & l2 & E & Hs & Hbefore).
    split; [exact Hk|]. exists (x :: l1), x0, l2. split; [now rewrite E|].
    split; [exact Hs|]. intros x' hex' [<-|Hin] Hs'; [now apply Hx|].
    now apply (Hbefore x'). }
  destruct (band_sample img x y) as [h|] eqn:Hb.
  - destruct (Map_has cp h) eqn:Hhas.
    + apply Hrest. intros hex' E. inversion E; subst.
      now apply Map_has_In.
    + intros E. inversion E; subst. split.
      * intros Hin. apply Map_has_In in Hin. congruence.
      * exists [], x, xs. split; [reflexivity|]. split; [exact Hb|].
        intros x' hex' [].
  - apply Hrest. discriminate.
Qed.

(** A row that gives no colour holds known colours only. *)
Lemma scan_row_none (img : Image) (cp : ColorMap) (y : Z) (xs : list Z) :
  SingleTarget.scan_row img cp y xs = None ->
  forall x hex, In x xs -> band_sample img x y = Some hex ->
                In hex (Map_keys cp).
Proof.
  induction xs as [|x xs IH]; [now intros|].
  rewrite scan_row_cons. intros H x0 hex [<-|Hin] Hs.
  - rewrite Hs in H. destruct (Map_has cp hex) eqn:Hhas; [|discriminate].
    now apply Map_has_In.
  - assert (H' : SingleTarget.scan_row img cp y xs = None).
    { destruct (band_sample img x y) as [h|]; [|exact H].
      destruct (Map_has cp h); [exact H|discriminate]. }
    exact (IH H' x0 hex Hin Hs).
Qed.

Lemma combine_snoc {A B : Type} (l : list A) (l' : list B) a b :
  length l = length l' ->
  combine (l ++ [a]) (l' ++ [b]) = combine l l' ++ [(a, b)].
Proof.
  revert l'. induction l as [|x l IH]; intros [|y l'] E; try discriminate;
    [reflexivity|].
  simpl. f_equal. apply IH. now inversion E.
Qed.

Lemma combine_keys {B : Type} (l : list string) (l' : list B) :
  length l = length l' -> map fst (combine l l') = l.
Proof.
  revert l'. induction l as [|x l IH]; intros [|y l'] E; try discriminate;
    [reflexivity|].
  simpl. f_equal. apply IH. now inversion E.
Qed.

Lemma single_scan_legend_rows (img : Image) :
  SingleTarget.scan_legend img =
  fold_left (band_step img) (zrange (img_height img)) ([], []).
Proof.
  unfold SingleTarget.scan_legend. apply fold_left_pointwise.
  intros [colors cp] y. reflexivity.
Qed.

Lemma sorted_after (l1 l2 : list Z) (x b : Z) :
  StronglySorted Z.lt (l1 ++ x :: l2) -> In b l2 -> x < b.
Proof.
  induction l1 as [|a l1 IH]; cbn [app]; intros Hs Hb;
    apply StronglySorted_inv in Hs; destruct Hs as [Hs Hall].
  - rewrite Forall_forall in Hall. now apply Hall.
  - now apply IH.
Qed.

Lemma sorted_before (l1 l2 : list Z) (x x' : Z) :
  StronglySorted Z.lt (l1 ++ x :: l2) ->
  In x' (l1 ++ x :: l2) -> x' < x -> In x' l1.
Proof.
  intros Hs Hin Hlt. apply in_app_or in Hin.
  destruct Hin as [Hin|[E|Hin]]; [exact Hin|lia|].
  pose proof (sorted_after _ _ _ _ Hs Hin). lia.
Qed.

Lemma firstn_snoc_short {A : Type} (l : list A) (a : A) (k : nat) :
  (k <= length l)%nat -> firstn k (l ++ [a]) = firstn k l.
Proof.
  intros Hk. rewrite firstn_app.
  replace (k - length l)%nat with 0%nat by lia.
  cbn [firstn]. apply app_nil_r.
Qed.

(** After the first [n] rows of the higher-fidelity scan: the colours are
    distinct; each has its row, the rows ascend; each colour is what its row
    adds to the colours before it; and a row without a colour of its own
    holds colours of the rows above it only. *)
Lemma band_scan_invariant (img : Image) (n : nat) :
  let acc := fold_left (band_step img) (zrange (Z.of_nat n)) ([], []) in
  exists rows,
    snd acc = combine (fst acc) rows /\ length (fst acc) = length rows /\
    NoDup (fst acc) /\ StronglySorted Z.lt rows /\
    Forall (fun y => 0 <= y < Z.of_nat n) rows /\
    (forall k hex y,
        nth_error (fst acc) k = Some hex -> nth_error rows k = Some y ->
        records img (firstn k (fst acc)) y hex) /\
    (forall y x hex,
        0 <= y < Z.of_nat n -> ~ In y rows ->
        In x (band img) -> band_sample img x y = Some hex ->
        exists k y', nth_error (fst acc) k = Some hex /\
                     nth_error rows k = Some y' /\ y' < y).
Proof.
  induction n as [|n IH].
  - cbn. exists [].
    split; [reflexivity|]. split; [reflexivity|]. split; [constructor|].
    split; [constructor|]. split; [constructor|]. split.
    + intros [|k] hex y H; discriminate.
    + intros y x hex Hy. lia.
  - cbv zeta in *. rewrite zrange_succ, fold_left_app. cbn [fold_left].
    destruct (fold_left (band_step img) (zrange (Z.of_nat n)) ([], []))
      as [colors cp].
    cbn [fst snd] in IH.
    destruct IH as (rows & Hcp & Hlen & Hnd & Hsorted & Hbound & Hrec & Hrest).
    assert (Hkeys : Map_keys cp = colors).
    { subst cp. now apply combine_keys. }
    assert (Hbelow : Forall (fun y => y < Z.of_nat n) rows).
    { eapply Forall_impl; [|exact Hbound]. intros; cbv beta in *; lia. }
    assert (Hbound' : Forall (fun y => 0 <= y < Z.of_nat (S n)) rows).
    { eapply Forall_impl; [|exact Hbound]. intros; cbv beta in *; lia. }
    unfold band_step.
    destruct (SingleTarget.scan_row img cp (Z.of_nat n) (band img))
      as [hex|] eqn:Hrow; cbn [fst snd].
    + destruct (scan_row_some _ _ _ _ _ Hrow)
        as (Hnew & l1 & x & l2 & Eband & Hs & Hbefore).
      rewrite Hkeys in Hnew, Hbefore.
      exists (rows ++ [Z.of_nat n]).
      split; [|split; [|split; [|split; [|split; [|split]]]]].
      * rewrite Map_set_fresh by (rewrite Hkeys; exact Hnew).
        subst cp. symmetry. now apply combine_snoc.
      * rewrite !length_app. simpl. lia.
      * rewrite <- (rev_involutive (colors ++ [hex])).
        apply NoDup_rev. rewrite rev_app_distr. simpl.
        constructor; [|now apply NoDup_rev].
        intros Hin. apply in_rev in Hin. contradiction.
      * now apply StronglySorted_snoc.
      * apply Forall_app. split; [exact Hbound'|].
        repeat constructor; lia.
      * intros k h y Hk Hy.
        destruct (Nat.lt_ge_cases k (length colors)) as [Hlt|Hge].
        -- rewrite nth_error_app1 in Hk by exact Hlt.
           rewrite nth_error_app1 in Hy by lia.
           rewrite firstn_snoc_short by lia. now apply Hrec.
        -- rewrite nth_error_app2 in Hk by exact Hge.
           rewrite nth_error_app2 in Hy by lia.
           destruct (k - length colors)%nat as [|k'] eqn:Ek;
             [|destruct k'; discriminate].
           replace (k - length rows)%nat with 0%nat in Hy by lia.
           cbn in Hk, Hy. inversion Hk; inversion Hy; subst h y.
           replace k with (length colors) by lia.
           rewrite firstn_snoc_short, firstn_all by lia.
           split; [exact Hnew|]. exists x.
           split; [rewrite Eband; apply in_elt|]. split; [exact Hs|].
           intros x' hex' Hx' Hlt Hs'. apply (Hbefore x'); [|exact Hs'].
           apply (sorted_before l1 l2 x x'); [|now rewrite <- Eband|exact Hlt].
           rewrite <- Eband. apply zspan_sorted.
      * intros y x0 h Hy Hnot Hx0 Hs0.
        assert (Hyn : y <> Z.of_nat n).
        { intros ->. apply Hnot. apply in_or_app. right. now left. }
        destruct (Hrest y x0 h) as (k & y' & Hk & Hy' & Hlt);
          [lia| |exact Hx0|exact Hs0|].
        { intros Hin. apply Hnot. apply in_or_app. now left. }
        exists k, y'. split; [|split; [|exact Hlt]].
        -- rewrite nth_error_app1; [exact Hk|].
           apply nth_error_Some. congruence.
        -- rewrite nth_error_app1; [exact Hy'|].
           apply nth_error_Some. congruence.
    + exists rows.
      split; [exact Hcp|]. split; [exact Hlen|]. split; [exact Hnd|].
      split; [exact Hsorted|]. split; [exact Hbound'|].
      split; [exact Hrec|].
      intros y x0 h Hy Hnot Hx0 Hs0.
      destruct (Z.eq_dec y (Z.of_nat n)) as [->|Hne].
      * pose proof (scan_row_none _ _ _ _ Hrow x0 h Hx0 Hs0) as Hin.
        rewrite Hkeys in Hin. apply In_nth_error in Hin.
        destruct Hin as [k Hk]. exists k.
        destruct (nth_error rows k) as [y'|] eqn:Hy'.
        -- exists y'. split; [exact Hk|]. split; [reflexivity|].
           apply nth_error_In in Hy'. rewrite Forall_forall in Hbelow.
           now apply Hbelow.
        -- apply nth_error_None in Hy'.
           assert (k < length colors)%nat
             by (apply nth_error_Some; congruence).
           lia.
      * apply (Hrest y x0 h); [lia|exact Hnot|exact Hx0|exact Hs0].
Qed.

(** *** Sorting what is already in order *)

Lemma insert_sorted_last (key : string -> Z) (c : string) (l : list string) :
  Forall (fun d => key d <= key c) l ->
  SingleTarget.insert_sorted key c l = l ++ [c].
Proof.
  induction 1 as [|d l Hd Hall IH]; [reflexivity|].
  simpl. apply Z.leb_le in Hd. rewrite Hd. now rewrite IH.
Qed.

Lemma sort_by_sorted (key : string -> Z) (l : list string) :
  StronglySorted (fun a b => key a <= key b) l ->
  SingleTarget.sort_by key l = l.
Proof.
  unfold SingleTarget.sort_by.
  assert (H : forall acc,
             StronglySorted (fun a b => key a <= key b) (acc ++ l) ->
             fold_left (fun sorted c => SingleTarget.insert_sorted key c sorted)
                       l acc = acc ++ l).
  { induction l as [|c l IH]; intros acc Hs.
    - now rewrite app_nil_r.
    - cbn [fold_left]. rewrite insert_sorted_last.
      + rewrite IH; rewrite <- app_assoc; [reflexivity|exact Hs].
      + clear IH. induction acc as [|d acc IHacc]; [constructor|].
        simpl in Hs. apply StronglySorted_inv in Hs. destruct Hs as [Hs Hd].
        constructor; [|now apply IHacc].
        rewrite Forall_forall in Hd. apply Hd.
        apply in_or_app. right. now left. }
  intros Hs. exact (H [] Hs).
Qed.

Lemma position_combine (colors : list string) (rows : list Z) :
  NoDup colors -> length colors = length rows ->
  map (SingleTarget.position (combine colors rows)) colors = rows.
Proof.
  revert rows. induction colors as [|c colors IH]; intros [|r rows] Hnd E;
    try discriminate; [reflexivity|].
  inversion Hnd as [|? ? Hc Hnd']; subst. simpl in E. inversion E as [E'].
  cbn [combine map]. f_equal.
  - unfold SingleTarget.position. simpl. now rewrite String.eqb_refl.
  - rewrite <- (IH rows Hnd' E') at 2. apply map_ext_in.
    intros c' Hc'. unfold SingleTarget.position. simpl.
    destruct (String.eqb c c') eqn:Ec; [|reflexivity].
    apply String.eqb_eq in Ec. subst. contradiction.
Qed.

Lemma sorted_by_key (key : string -> Z) (colors : list string) :
  StronglySorted Z.lt (map key colors) ->
  StronglySorted (fun a b => key a <= key b) colors.
Proof.
  induction colors as [|c colors IH]; intros Hs; [constructor|].
  simpl in Hs. apply StronglySorted_inv in Hs. destruct Hs as [Hs Hc].
  constructor; [now apply IH|].
  rewrite Forall_forall in *. intros d Hd.
  apply Z.lt_le_incl. apply Hc. now apply in_map.
Qed.

Lemma Forall2_length_eq {A B : Type} (R : A -> B -> Prop) l l' :
  Forall2 R l l' -> length l = length l'.
Proof. induction 1; simpl; auto. Qed.

Lemma averaging_parseLegend_table (url : string) (img : Image)
  (st : ImageTracker) :
  let colors := scan_rows (center_sample img) (zrange (img_height img)) [] in
  let m := Map_new (with_ranks colors) in
  Averaging.parseLegend url (Some img) st =
  (if Map_size m =? 0 then Rejected NoColorsFound else Resolved m,
   log (set_legendColorMap (log st ("Parsing legend from: " ++ url)%string)
                           (Some m))
       (if Map_size m =? 0
        then "Could not extract any colors from the legend."%string
        else "Legend parsed successfully. Color map:"%string)) /\
  Map_keys m = colors /\ map snd m = ranks (length m) /\
  length m = length colors /\ NoDup colors.
Proof.
  intros colors m.
  pose proof (scan_rows_invariant (center_sample img)
                                  (Z.to_nat (img_height img))) as Hinv.
  cbv zeta in Hinv. rewrite <- zrange_to_nat in Hinv. fold colors in Hinv.
  destruct Hinv as (Hnd & _).
  destruct (table_of_distinct colors Hnd) as (Hk & Hr & Hl). fold m in Hk, Hr, Hl.
  split; [|auto].
  unfold Averaging.parseLegend. rewrite averaging_scan_legend_rows.
  fold colors. fold m. destruct (Map_size m =? 0); reflexivity.
Qed.










Lemma single_parseLegend_table (url : string) (img : Image)
  (st : ImageTracker) :
  let colors :=
    fst (fold_left (band_step img) (zrange (img_height img)) ([], [])) in
  let m := Map_new (with_ranks colors) in
  SingleTarget.parseLegend url (Some img) st =
  (if Map_size m =? 0 then Rejected NoColorsFound else Resolved (m, colors),
   log (set_legendColorMap (log st ("Parsing legend from: " ++ url)%string)
                           (Some m))
       (if Map_size m =? 0
        then "Could not extract any valid colors from the legend."%string
        else "Legend parsed successfully. Color map:"%string)) /\
  Map_keys m = colors /\ map snd m = ranks (length m) /\
  length m = length colors /\ NoDup colors.
Proof.
  intros colors m.
  pose proof (band_scan_invariant img (Z.to_nat (img_height img))) as Hinv.
  cbv zeta in Hinv. rewrite <- zrange_to_nat in Hinv.
  destruct Hinv as (rows & Hcp & Hlen & Hnd & Hsorted & _).
  fold colors in Hcp, Hlen, Hnd.
  destruct (table_of_distinct colors Hnd) as (Hk & Hr & Hl).
  fold m in Hk, Hr, Hl.
  split; [|auto].
  unfold SingleTarget.parseLegend. rewrite single_scan_legend_rows.
  destruct (fold_left (band_step img) (zrange (img_height img)) ([], []))
    as [colors' cp] eqn:Hacc.
  cbn [fst snd] in *. subst colors.
  rewrite sort_by_sorted.
  - fold m. destruct (Map_size m =? 0); reflexivity.
  - apply sorted_by_key. rewrite Hcp.
    rewrite position_combine by assumption. exact Hsorted.
Qed.


(** *** What C6 says fixes the table *)














(** ** Failures and the tracker's state *)

Lemma record_frame_effect (track : estimator) (new : FrameRecord)
  (st : ImageTracker) c st' :
  (forall lastGridData, only_output st (snd (track lastGridData new st))) ->
  record_frame track new st = (c, st') ->
  legendColorMap st' = legendColorMap st /\
  match c with
  | Normal _ => gridData st' = push_evict (gridData st) new
  | Throw _ => gridData st' = gridData st
  end.
Proof.
  intros Hout. unfold record_frame.
  destruct (last_record (gridData st)) as [lastGridData|].
  - destruct (negb _).
    + specialize (Hout lastGridData).
      destruct (track lastGridData new st) as [[u|e] st2]; simpl in Hout;
        destruct Hout as (_ & _ & Hm & Hg & _);
        intros E; inversion E; subst; simpl; split; congruence.
    + intros E. inversion E; subst. simpl. auto.
  - intros E. inversion E; subst. simpl. auto.
Qed.

Lemma Map_size_zero (m : ColorMap) : (Map_size m =? 0) = true -> m = [].
Proof.
  intros E. apply Z.eqb_eq in E. unfold Map_size in E.
  destruct m; [reflexivity|simpl in E; lia].
Qed.

(** C4, amended.  Every failure stays within its call, but not every one
    leaves the state alone.  A failed legend load changes neither the
    ColorTable nor FrameHistory.  A legend parse that ends in NoColorsFound
    leaves FrameHistory alone and installs the empty table in place of the
    one built before, which disables classification.  Whatever the motion
    estimator reports (no target at the reference, ambiguous motion, a stale
    timestamp), the call of [analyzeFrame] leaves the ColorTable alone and
    changes FrameHistory by its own append only; a call that throws appends
    nothing. *)
Theorem failures_stay_within_their_call (host : Host)
  (url : string) (legend frame : Image) (time : string) (st : ImageTracker) :
  (fst (Averaging.parseLegend url None st) = Rejected ImageLoadFailed /\
   only_output st (snd (Averaging.parseLegend url None st))) /\
  (fst (SingleTarget.parseLegend url None st) = Rejected ImageLoadFailed /\
   only_output st (snd (SingleTarget.parseLegend url None st))) /\
  (gridData (snd (Averaging.parseLegend url (Some legend) st)) = gridData st /\
   (fst (Averaging.parseLegend url (Some legend) st)
    = Rejected NoColorsFound ->
    legendColorMap (snd (Averaging.parseLegend url (Some legend) st))
    = Some [])) /\
  (gridData (snd (SingleTarget.parseLegend url (Some legend) st))
   = gridData st /\
   (fst (SingleTarget.parseLegend url (Some legend) st)
    = Rejected NoColorsFound ->
    legendColorMap (snd (SingleTarget.parseLegend url (Some legend) st))
    = Some [])) /\
  (forall r g b, classify (Some []) r g b = None) /\
  (forall c st',
      Averaging.analyzeFrame host frame time st = (c, st') ->
      legendColorMap st' = legendColorMap st /\
      match c with
      | Normal _ =>
        st' = st \/
        gridData st' =
        push_evict (gridData st) (averaging_record frame time st)
      | Throw _ => gridData st' = gridData st
      end) /\
  (forall c st',
      SingleTarget.analyzeFrame host frame time st = (c, st') ->
      legendColorMap st' = legendColorMap st /\
      match c with
      | Normal _ =>
        st' = st \/
        gridData st' = push_evict (gridData st) (single_record frame time st)
      | Throw _ => gridData st' = gridData st
      end).
Proof.
  split; [|split; [|split; [|split; [|split; [|split]]]]].
  - split; [reflexivity|]. repeat split.
  - split; [reflexivity|]. repeat split.
  - destruct (averaging_parseLegend_table url legend st) as (Hparse & _).
    cbv zeta in Hparse. rewrite Hparse.
    cbn [fst snd gridData legendColorMap log set_legendColorMap].
    split; [reflexivity|].
    destruct (Map_size _ =? 0) eqn:E; [|discriminate].
    intros _. now rewrite (Map_size_zero _ E).
  - destruct (single_parseLegend_table url legend st) as (Hparse & _).
    cbv zeta in Hparse. rewrite Hparse.
    cbn [fst snd gridData legendColorMap log set_legendColorMap].
    split; [reflexivity|].
    destruct (Map_size _ =? 0) eqn:E; [|discriminate].
    intros _. now rewrite (Map_size_zero _ E).
  - reflexivity.
  - intros c st'. rewrite averaging_analyzeFrame_unfold.
    destruct (negb (isEnabled st) || _).
    + intros E. inversion E; subst. auto.
    + destruct ((img_width frame =? 0) || (img_height frame =? 0)).
      * intros E. inversion E; subst. auto.
      * intros E. apply record_frame_effect in E.
        -- destruct E as [Hm Hc]. split; [exact Hm|].
           destruct c; [right|]; exact Hc.
        -- intros l. apply trackMovement_output.
  - intros c st'. rewrite single_analyzeFrame_unfold.
    destruct (negb (isEnabled st) || _).
    + intros E. inversion E; subst. auto.
    + destruct ((img_width frame =? 0) || (img_height frame =? 0)).
      * intros E. inversion E; subst. auto.
      * intros E. apply record_frame_effect in E.
        -- destruct E as [Hm Hc]. split; [exact Hm|].
           destruct c; [right|]; exact Hc.
        -- intros l. apply trackMovementFromCenter_output.
Qed.

(** A table is built, then a second legend yields no colour: the parse
    fails with NoColorsFound and the table built before is gone. *)
Lemma failed_reparse_drops_the_table :
  legendColorMap averaging_tracker = Some [("#0000ff"%string, 1)] /\
  classify (legendColorMap averaging_tracker) 0 0 255 = Some 1 /\
  fst (Averaging.parseLegend "legend2.png" (Some white_legend)
                             averaging_tracker) = Rejected NoColorsFound /\
  legendColorMap (snd (Averaging.parseLegend "legend2.png"
                         (Some white_legend) averaging_tracker)) = Some [] /\
  classify (legendColorMap (snd (Averaging.parseLegend "legend2.png"
                                   (Some white_legend) averaging_tracker)))
           0 0 255 = None.
Proof.
  repeat split; vm_compute; reflexivity.
Qed.

(** C5, amended.  If the averaging tracker has no ColorTable at all (none
    was ever installed), or the single-target tracker has no target colour
    selected, [analyzeFrame] is a no-op: it completes normally and leaves
    the tracker as it was, so no grid, no FrameHistory entry, no motion
    estimate, no message. *)
Theorem analyzeFrame_noop_without_table_or_target
  (host : Host) (img : Image) (time : string)
  (st : ImageTracker) :
  (legendColorMap st = None ->
   Averaging.analyzeFrame host img time st = (Normal tt, st)) /\
  (SingleTarget.no_color (selectedColor st) = true ->
   SingleTarget.analyzeFrame host img time st = (Normal tt, st)) /\
  (SingleTarget.no_color (selectedColor st) = true <->
   selectedColor st = None \/ selectedColor st = Some EmptyString).
Proof.
  split; [|split].
  - intros H. rewrite averaging_analyzeFrame_unfold, H.
    now rewrite orb_true_r.
  - intros H. rewrite single_analyzeFrame_unfold, H.
    now rewrite orb_true_r.
  - unfold SingleTarget.no_color.
    destruct (selectedColor st) as [hex|].
    + rewrite String.eqb_eq. split.
      * intros ->. now right.
      * intros [H|H]; [discriminate|now inversion H].
    + split; auto.
Qed.

(** With an empty table the averaging tracker still records the frame, and
    on the next frame reports ambiguous motion. *)
Lemma empty_table_frame_is_recorded :
  isEnabled averaging_tracker_no_colors = true /\
  legendColorMap averaging_tracker_no_colors = Some [] /\
  gridData averaging_tracker_no_colors = [] /\
  gridData (snd (Averaging.analyzeFrame demo_host blue_tile "12:00"
                                        averaging_tracker_no_colors)) =
  [{| timestamp := "12:00"; grid := [[0%float]] |}] /\
  resultsElement
    (snd (Averaging.analyzeFrame demo_host blue_tile "12:05"
            (snd (Averaging.analyzeFrame demo_host blue_tile "12:00"
                                         averaging_tracker_no_colors)))) =
  Some AmbiguousMotion.
Proof.
  repeat split; vm_compute; reflexivity.
Qed.

(** ** The grid rasterizer *)






Lemma single_cell_fold (st : ImageTracker) (imageData : list Z)
  (gridX gridY : Z) (l : list (Z * Z)) (c : Z) :
  let targets :=
    flat_map (fun xy =>
                pixel_targets (legendColorMap st) (selectedColor st)
                  (pixel_at (fst (canvas st)) imageData
                            (gridX * GRID_SIZE st + fst xy)
                            (gridY * GRID_SIZE st + snd xy))) l in
  fold_left (SingleTarget.sample_pixel st imageData gridX gridY) l c =
  c + Z.of_nat (length targets).
Proof.
  revert c. induction l as [|[x y] l IH]; intros c.
  - cbn. lia.
  - cbn [fold_left flat_map]. cbv zeta in *. rewrite IH, length_app.
    unfold SingleTarget.sample_pixel, pixel_at, pixel_targets.
    cbn [fst snd].
    set (i := ((gridY * GRID_SIZE st + y) * fst (canvas st)
               + (gridX * GRID_SIZE st + x)) * 4).
    destruct (zget imageData (i + 3)) as [a|]; [|cbn; lia].
    destruct (zget imageData i) as [r|]; [|cbn; lia].
    destruct (zget imageData (i + 1)) as [g|]; [|cbn; lia].
    destruct (zget imageData (i + 2)) as [b|]; [|cbn; lia].
    destruct (128 <? a); [|cbn; lia].
    cbn [andb].
    destruct (SingleTarget.same_color _ _); cbn [length]; lia.
Qed.

Lemma target_pixels_pixels (table : option ColorMap)
  (selected : option string) (cellSize width : Z) (imageData : list Z)
  (gridX gridY : Z) (l : list (Z * Z)) :
  flat_map (fun xy =>
              pixel_targets table selected
                (pixel_at width imageData (gridX * cellSize + fst xy)
                          (gridY * cellSize + snd xy))) l =
  target_pixels table selected
    (classified
       (flat_map (fun xy =>
                    match pixel_at width imageData
                                   (gridX * cellSize + fst xy)
                                   (gridY * cellSize + snd xy) with
                    | Some p => [p]
                    | None => []
                    end) l)).
Proof.
  unfold target_pixels, classified.
  induction l as [|xy l IH]; [reflexivity|].
  cbn [flat_map]. rewrite !filter_app, <- IH. f_equal.
  destruct (pixel_at _ _ _ _) as [[[[r g] b] a]|]; [|reflexivity].
  cbn [pixel_targets filter snd]. destruct (128 <? a); [|reflexivity].
  cbn [andb filter].
  destruct (SingleTarget.same_color _ _); reflexivity.
Qed.


Lemma single_cell_value_spec (st : ImageTracker) (imageData : list Z)
  (gridX gridY : Z) :
  let targets :=
    target_pixels (legendColorMap st) (selectedColor st)
      (classified (cell_pixels (GRID_SIZE st) (fst (canvas st)) imageData
                               gridX gridY)) in
  SingleTarget.cell_value st imageData gridX gridY =
  if covers (GRID_SIZE st) (length targets) then 1%float else 0%float.
Proof.
  intros targets. unfold SingleTarget.cell_value.
  rewrite single_cell_fold. cbv zeta.
  rewrite target_pixels_pixels.
  fold (cell_pixels (GRID_SIZE st) (fst (canvas st)) imageData gridX gridY).
  fold targets. rewrite !Z.add_0_l. reflexivity.
Qed.

(** *** A tenth of a cell of ten by ten pixels is ten pixels *)











(** * Further properties of the code *)

(** ** The life of a tracker *)

Lemma record_frame_fields (track : estimator) (new : FrameRecord)
  (st : ImageTracker) c st' :
  (forall lastGridData, only_output st (snd (track lastGridData new st))) ->
  record_frame track new st = (c, st') ->
  isEnabled st' = isEnabled st /\ GRID_SIZE st' = GRID_SIZE st /\
  legendColorMap st' = legendColorMap st /\
  selectedColor st' = selectedColor st /\
  (gridData st' = gridData st \/
   gridData st' = push_evict (gridData st) new).
Proof.
  intros Hout. unfold record_frame.
  destruct (last_record (gridData st)) as [lastGridData|].
  - destruct (negb _).
    + specialize (Hout lastGridData).
      destruct (track lastGridData new st) as [[u|e] st2]; simpl in Hout;
        destruct Hout as (_ & _ & Hm & Hg & He & Hs & Hc);
        intros E; inversion E; subst; simpl;
        (split; [exact He|]); (split; [exact Hs|]); (split; [exact Hm|]);
        (split; [exact Hc|]).
      * right. now rewrite Hg.
      * left. exact Hg.
    + intros E. inversion E; subst. simpl. repeat split; auto.
  - intros E. inversion E; subst. simpl. repeat split; auto.
Qed.

Lemma averaging_analyzeFrame_fields host img time st c st' :
  Averaging.analyzeFrame host img time st = (c, st') ->
  isEnabled st' = isEnabled st /\ GRID_SIZE st' = GRID_SIZE st /\
  legendColorMap st' = legendColorMap st /\
  selectedColor st' = selectedColor st /\
  (gridData st' = gridData st \/
   gridData st' = push_evict (gridData st) (averaging_record img time st)).
Proof.
  rewrite averaging_analyzeFrame_unfold.
  destruct (negb (isEnabled st) || _).
  - intros E. inversion E; subst. repeat split; auto.
  - destruct ((img_width img =? 0) || (img_height img =? 0)).
    + intros E. inversion E; subst. repeat split; auto.
    + intros E. apply record_frame_fields in E; [exact E|].
      intros l. apply trackMovement_output.
Qed.

Lemma single_analyzeFrame_fields host img time st c st' :
  SingleTarget.analyzeFrame host img time st = (c, st') ->
  isEnabled st' = isEnabled st /\ GRID_SIZE st' = GRID_SIZE st /\
  legendColorMap st' = legendColorMap st /\
  selectedColor st' = selectedColor st /\
  (gridData st' = gridData st \/
   gridData st' = push_evict (gridData st) (single_record img time st)).
Proof.
  rewrite single_analyzeFrame_unfold.
  destruct (negb (isEnabled st) || _).
  - intros E. inversion E; subst. repeat split; auto.
  - destruct ((img_width img =? 0) || (img_height img =? 0)).
    + intros E. inversion E; subst. repeat split; auto.
    + intros E. apply record_frame_fields in E; [exact E|].
      intros l. apply trackMovementFromCenter_output.
Qed.

Lemma averaging_analyzeFrame_disabled host img time st :
  isEnabled st = false ->
  Averaging.analyzeFrame host img time st = (Normal tt, st).
Proof. intros H. unfold Averaging.analyzeFrame. now rewrite H. Qed.

Lemma single_analyzeFrame_disabled host img time st :
  isEnabled st = false ->
  SingleTarget.analyzeFrame host img time st = (Normal tt, st).
Proof. intros H. unfold SingleTarget.analyzeFrame. now rewrite H. Qed.

Lemma averaging_frames_ignored host (frames : list (Image * string)) st :
  isEnabled st = false ->
  averaging_run host
    (List.map (fun f => A_analyzeFrame (fst f) (snd f)) frames) st = st.
Proof.
  intros Hoff. unfold averaging_run.
  induction frames as [|[img time] frames IH]; [reflexivity|].
  cbn [List.map fold_left averaging_step fst snd].
  rewrite averaging_analyzeFrame_disabled by exact Hoff. exact IH.
Qed.

Lemma single_frames_ignored host (frames : list (Image * string)) st :
  isEnabled st = false ->
  single_run host
    (List.map (fun f => S_analyzeFrame (fst f) (snd f)) frames) st = st.
Proof.
  intros Hoff. unfold single_run.
  induction frames as [|[img time] frames IH]; [reflexivity|].
  cbn [List.map fold_left single_step fst snd].
  rewrite single_analyzeFrame_disabled by exact Hoff. exact IH.
Qed.

(** X1.  A tracker that is switched off ignores every frame.  Switching
    off empties FrameHistory and shows "--" but keeps the colour table and
    the selected colour; from then on, as after construction, any number of
    [analyzeFrame] calls leave the tracker exactly as it is. *)
Theorem disabled_tracker_ignores_frames (host : Host)
  (frames : list (Image * string)) (st : ImageTracker)
  (canvas : Z * Z) (map : LeafletMap) (results : option string) :
  let a_frames := List.map (fun f => A_analyzeFrame (fst f) (snd f)) frames in
  let s_frames := List.map (fun f => S_analyzeFrame (fst f) (snd f)) frames in
  let a_off := Averaging.setAnalysisEnabled false st in
  let s_off := SingleTarget.setAnalysisEnabled false st in
  (gridData a_off = [] /\
   resultsElement a_off =
   match resultsElement st with Some _ => Some "--"%string | None => None end /\
   legendColorMap a_off = legendColorMap st /\
   selectedColor a_off = selectedColor st /\
   s_off = a_off) /\
  averaging_run host a_frames a_off = a_off /\
  single_run host s_frames s_off = s_off /\
  averaging_run host a_frames (Averaging.new_ImageTracker canvas map results)
  = Averaging.new_ImageTracker canvas map results /\
  single_run host s_frames (SingleTarget.new_ImageTracker canvas map results)
  = SingleTarget.new_ImageTracker canvas map results.
Proof.
  intros a_frames s_frames a_off s_off.
  split; [repeat split|]. split; [|split; [|split]].
  - apply averaging_frames_ignored. reflexivity.
  - apply single_frames_ignored. reflexivity.
  - apply averaging_frames_ignored. reflexivity.
  - apply single_frames_ignored. reflexivity.
Qed.

Lemma last_record_nil : last_record [] = None.
Proof. reflexivity. Qed.

(** X2.  No estimate across a pause.  After the analysis was switched off
    and on again, the next frame (given a colour table, or a selected
    colour, and a frame with pixels) is recorded as the only entry of
    FrameHistory and no motion estimator runs: the call completes, and
    results element and console are as the switching left them. *)
Theorem first_frame_after_pause_gives_no_estimate (host : Host)
  (img : Image) (time : string) (st : ImageTracker) :
  has_pixels img ->
  let a := Averaging.setAnalysisEnabled true
             (Averaging.setAnalysisEnabled false st) in
  let s := SingleTarget.setAnalysisEnabled true
             (SingleTarget.setAnalysisEnabled false st) in
  (legendColorMap st <> None ->
   exists st',
     Averaging.analyzeFrame host img time a = (Normal tt, st') /\
     gridData st' = [averaging_record img time a] /\
     resultsElement st' = resultsElement a /\ console st' = console a) /\
  (SingleTarget.no_color (selectedColor st) = false ->
   exists st',
     SingleTarget.analyzeFrame host img time s = (Normal tt, st') /\
     gridData st' = [single_record img time s] /\
     resultsElement st' = resultsElement s /\ console st' = console s) /\
  resultsElement a =
  match resultsElement st with Some _ => Some "--"%string | None => None end.
Proof.
  intros Hpix a s. split; [|split; [|reflexivity]].
  - intros Hmap. rewrite averaging_analyzeFrame_unfold.
    rewrite (has_pixels_nonzero img Hpix).
    cbn [a isEnabled Averaging.setAnalysisEnabled set_isEnabled log show
           set_gridData legendColorMap negb orb].
    destruct (legendColorMap st) as [m|]; [|congruence].
    rewrite record_frame_untracked by exact I.
    eexists. split; [reflexivity|]. repeat split.
  - intros Hcol. rewrite single_analyzeFrame_unfold.
    rewrite (has_pixels_nonzero img Hpix).
    cbn [s isEnabled SingleTarget.setAnalysisEnabled set_isEnabled log show
           set_gridData selectedColor negb orb].
    rewrite Hcol.
    rewrite record_frame_untracked by exact I.
    eexists. split; [reflexivity|]. repeat split.
Qed.

Lemma blue_tile_has_pixels : has_pixels blue_tile.
Proof. split; reflexivity. Defined.

Lemma first_frame_after_pause_witness :
  has_pixels blue_tile /\
  resultsElement
    (Averaging.setAnalysisEnabled true
       (Averaging.setAnalysisEnabled false averaging_tracker_1))
  = Some "--"%string.
Proof.
  split; [exact blue_tile_has_pixels|].
  exact (proj2 (proj2 (first_frame_after_pause_gives_no_estimate
                         demo_host blue_tile "12:10" averaging_tracker_1
                         blue_tile_has_pixels))).
Defined.

(** X3.  No estimate across a change of the tracked colour.
    [setSelectedColor] empties FrameHistory and shows "Warte auf Daten...";
    on a tracker that is switched on, the next frame with pixels is then
    recorded as the only entry and no estimator runs, so the text stays.
    Selecting no colour ([null] or the empty string) makes the tracker
    ignore frames. *)
Theorem first_frame_after_color_change_gives_no_estimate (host : Host)
  (img : Image) (time : string) (hexColor : option string)
  (st : ImageTracker) :
  has_pixels img -> isEnabled st = true ->
  let s := SingleTarget.setSelectedColor hexColor st in
  gridData s = [] /\
  resultsElement s =
  match resultsElement st with
  | Some _ => Some "Warte auf Daten..."%string
  | None => None
  end /\
  legendColorMap s = legendColorMap st /\
  (SingleTarget.no_color hexColor = false ->
   exists st',
     SingleTarget.analyzeFrame host img time s = (Normal tt, st') /\
     gridData st' = [single_record img time s] /\
     resultsElement st' = resultsElement s /\ console st' = console s) /\
  (SingleTarget.no_color hexColor = true ->
   SingleTarget.analyzeFrame host img time s = (Normal tt, s)).
Proof.
  intros Hpix Hen s. split; [reflexivity|]. split; [reflexivity|].
  split; [reflexivity|]. split.
  - intros Hcol. rewrite single_analyzeFrame_unfold.
    rewrite (has_pixels_nonzero img Hpix).
    cbn [s isEnabled SingleTarget.setSelectedColor set_selectedColor show
           set_gridData selectedColor].
    rewrite Hen, Hcol. cbn [negb orb].
    rewrite record_frame_untracked by exact I.
    eexists. split; [reflexivity|]. repeat split.
  - intros Hcol. rewrite single_analyzeFrame_unfold.
    cbn [s isEnabled SingleTarget.setSelectedColor set_selectedColor show
           set_gridData selectedColor].
    rewrite Hen, Hcol. reflexivity.
Qed.

Lemma first_frame_after_color_change_witness :
  has_pixels blue_tile /\ isEnabled single_tracker = true /\
  gridData (SingleTarget.setSelectedColor (Some "#00ff00"%string)
                                          single_tracker) = [].
Proof.
  split; [exact blue_tile_has_pixels|]. split; [reflexivity|].
  exact (proj1 (first_frame_after_color_change_gives_no_estimate
                  demo_host blue_tile "12:10" (Some "#00ff00"%string)
                  single_tracker blue_tile_has_pixels eq_refl)).
Defined.

(** ** What holds in every session *)

Lemma averaging_rasterize_rows st imageData :
  Forall (fun row => length row
                     = Z.to_nat (fst (canvas st) / GRID_SIZE st))
         (Averaging.rasterize st imageData).
Proof.
  unfold Averaging.rasterize. apply Forall_forall. intros row Hin.
  apply in_map_iff in Hin. destruct Hin as (gridY & <- & _).
  rewrite length_map. unfold zrange. rewrite zspan_length. f_equal. lia.
Qed.

Lemma single_rasterize_rows st imageData :
  Forall (fun row => length row
                     = Z.to_nat (fst (canvas st) / GRID_SIZE st))
         (SingleTarget.rasterize st imageData).
Proof.
  unfold SingleTarget.rasterize. apply Forall_forall. intros row Hin.
  apply in_map_iff in Hin. destruct Hin as (gridY & <- & _).
  rewrite length_map. unfold zrange. rewrite zspan_length. f_equal. lia.
Qed.

Lemma push_evict_Forall (P : FrameRecord -> Prop) h r :
  Forall P h -> P r -> Forall P (push_evict h r).
Proof.
  intros Hh Hr. unfold push_evict.
  assert (H : Forall P (h ++ [r])).
  { apply Forall_app. split; [exact Hh|]. now constructor. }
  destruct (10 <? _); [|exact H].
  destruct (h ++ [r]); [constructor|]. now inversion H.
Qed.

Lemma averaging_parseLegend_fields url loaded st :
  let st' := snd (Averaging.parseLegend url loaded st) in
  gridData st' = gridData st /\ isEnabled st' = isEnabled st /\
  GRID_SIZE st' = GRID_SIZE st /\ selectedColor st' = selectedColor st /\
  (legendColorMap st' = legendColorMap st \/
   exists m, legendColorMap st' = Some m /\ ranked_table m).
Proof.
  destruct loaded as [img|].
  - destruct (averaging_parseLegend_table url img st)
      as (Hparse & Hk & Hr & Hl & Hnd).
    cbv zeta in *. rewrite Hparse. cbn [snd].
    repeat split. right. eexists. split; [reflexivity|].
    split; [now rewrite Hk|exact Hr].
  - cbv zeta. repeat split. now left.
Qed.

Lemma single_parseLegend_fields url loaded st :
  let st' := snd (SingleTarget.parseLegend url loaded st) in
  gridData st' = gridData st /\ isEnabled st' = isEnabled st /\
  GRID_SIZE st' = GRID_SIZE st /\ selectedColor st' = selectedColor st /\
  (legendColorMap st' = legendColorMap st \/
   exists m, legendColorMap st' = Some m /\ ranked_table m).
Proof.
  destruct loaded as [img|].
  - destruct (single_parseLegend_table url img st)
      as (Hparse & Hk & Hr & Hl & Hnd).
    cbv zeta in *. rewrite Hparse. cbn [snd].
    repeat split. right. eexists. split; [reflexivity|].
    split; [now rewrite Hk|exact Hr].
  - cbv zeta. repeat split. now left.
Qed.

Lemma averaging_record_rectangular img time st :
  rectangular (grid (averaging_record img time st)).
Proof. eexists. apply averaging_rasterize_rows. Qed.

Lemma single_record_rectangular img time st :
  rectangular (grid (single_record img time st)).
Proof. eexists. apply single_rasterize_rows. Qed.

Ltac tracker_fields :=
  unfold tracker_invariant;
  cbn [gridData isEnabled GRID_SIZE legendColorMap selectedColor show log
       set_gridData set_isEnabled set_selectedColor set_legendColorMap
       Averaging.setAnalysisEnabled SingleTarget.setAnalysisEnabled
       SingleTarget.setSelectedColor Averaging.new_ImageTracker
       SingleTarget.new_ImageTracker];
  repeat split; auto; try discriminate; try constructor; try (cbn; lia).

Lemma averaging_step_invariant host st c :
  tracker_invariant st /\ (legendColorMap st = None -> gridData st = []) ->
  tracker_invariant (snd (averaging_step host st c)) /\
  (legendColorMap (snd (averaging_step host st c)) = None ->
   gridData (snd (averaging_step host st c)) = []).
Proof.
  intros [(Hgs & Hlen & Hoff & Hrect & Htab) Hnone].
  destruct c as [enabled|url loaded|img time]; cbn [averaging_step snd].
  - destruct enabled; tracker_fields.
  - destruct (averaging_parseLegend_fields url loaded st)
      as (Hg & He & Hs & _ & Hm). cbv zeta in *.
    rewrite Hg. split.
    + unfold tracker_invariant. rewrite Hg, He, Hs.
      repeat split; auto.
      destruct Hm as [Hm|(m & Hm & Hrk)]; rewrite Hm; auto.
    + destruct Hm as [Hm|(m & Hm & Hrk)]; rewrite Hm; [exact Hnone|].
      discriminate.
  - destruct (Averaging.analyzeFrame host img time st) as [r st'] eqn:E.
    cbn [snd].
    destruct (isEnabled st) eqn:Hen.
    2:{ rewrite averaging_analyzeFrame_disabled in E by exact Hen.
        inversion E; subst. unfold tracker_invariant.
        repeat split; auto. }
    destruct (legendColorMap st) as [m|] eqn:Hmap.
    2:{ unfold Averaging.analyzeFrame in E. rewrite Hen, Hmap in E.
        inversion E; subst. unfold tracker_invariant. rewrite Hmap.
        repeat split; auto. }
    destruct (averaging_analyzeFrame_fields _ _ _ _ _ _ E)
      as (He & Hs & Hm & _ & Hg).
    split.
    + unfold tracker_invariant. rewrite He, Hs, Hm, Hmap.
      split; [exact Hgs|].
      destruct Hg as [Hg|Hg]; rewrite Hg.
      * split; [exact Hlen|]. split; [intros; congruence|].
        split; [exact Hrect|exact Htab].
      * split; [now apply push_evict_length|].
        split; [intros; congruence|]. split; [|exact Htab].
        apply push_evict_Forall; [exact Hrect|].
        apply averaging_record_rectangular.
    + rewrite Hm, Hmap. discriminate.
Qed.

Lemma single_step_invariant host st c :
  tracker_invariant st /\
  (SingleTarget.no_color (selectedColor st) = true -> gridData st = []) ->
  tracker_invariant (snd (single_step host st c)) /\
  (SingleTarget.no_color (selectedColor (snd (single_step host st c))) = true
   -> gridData (snd (single_step host st c)) = []).
Proof.
  intros [(Hgs & Hlen & Hoff & Hrect & Htab) Hnone].
  destruct c as [hex|enabled|url loaded|img time]; cbn [single_step snd].
  - tracker_fields.
  - destruct enabled; tracker_fields.
  - destruct (single_parseLegend_fields url loaded st)
      as (Hg & He & Hs & Hc & Hm). cbv zeta in *.
    rewrite Hg, Hc. split; [|exact Hnone].
    unfold tracker_invariant. rewrite Hg, He, Hs.
    repeat split; auto.
    destruct Hm as [Hm|(m & Hm & Hrk)]; rewrite Hm; auto.
  - destruct (SingleTarget.analyzeFrame host img time st) as [r st'] eqn:E.
    cbn [snd].
    destruct (isEnabled st) eqn:Hen.
    2:{ rewrite single_analyzeFrame_disabled in E by exact Hen.
        inversion E; subst. unfold tracker_invariant.
        repeat split; auto. }
    destruct (SingleTarget.no_color (selectedColor st)) eqn:Hcol.
    { unfold SingleTarget.analyzeFrame in E. rewrite Hen, Hcol in E.
      inversion E; subst. unfold tracker_invariant.
      repeat split; auto. }
    destruct (single_analyzeFrame_fields _ _ _ _ _ _ E)
      as (He & Hs & Hm & Hc & Hg).
    split.
    + unfold tracker_invariant. rewrite He, Hs, Hm.
      split; [exact Hgs|].
      destruct Hg as [Hg|Hg]; rewrite Hg.
      * split; [exact Hlen|]. split; [intros; congruence|].
        split; [exact Hrect|exact Htab].
      * split; [now apply push_evict_length|].
        split; [intros; congruence|]. split; [|exact Htab].
        apply push_evict_Forall; [exact Hrect|].
        apply single_record_rectangular.
    + rewrite Hc, Hcol. discriminate.
Qed.

(** X4.  In every state the averaging tracker can reach from its
    constructor by calls of its methods, the cell size is 10, FrameHistory
    holds at most ten records, all of them rectangular grids, it is empty
    while the analysis is switched off or no colour table was ever
    installed, and an installed table has distinct keys and the ranks
    1..N. *)
Theorem averaging_session_invariant (host : Host)
  (calls : list averaging_call) (canvas : Z * Z) (map : LeafletMap)
  (results : option string) :
  let st :=
    averaging_run host calls (Averaging.new_ImageTracker canvas map results) in
  tracker_invariant st /\ (legendColorMap st = None -> gridData st = []).
Proof.
  cbv zeta. unfold averaging_run.
  assert (H0 : tracker_invariant
                 (Averaging.new_ImageTracker canvas map results) /\
               (legendColorMap (Averaging.new_ImageTracker canvas map results)
                = None ->
                gridData (Averaging.new_ImageTracker canvas map results) = [])).
  { tracker_fields. }
  revert H0. generalize (Averaging.new_ImageTracker canvas map results).
  induction calls as [|c calls IH]; intros st H; [exact H|].
  cbn [fold_left]. apply IH. now apply averaging_step_invariant.
Qed.

(** X5.  In every state the single-target tracker can reach from its
    constructor by calls of its methods, the cell size is 10, FrameHistory
    holds at most ten records, all of them rectangular grids, it is empty
    while the analysis is switched off or no colour is selected, and an
    installed table has distinct keys and the ranks 1..N. *)
Theorem single_session_invariant (host : Host)
  (calls : list single_call) (canvas : Z * Z) (map : LeafletMap)
  (results : option string) :
  let st :=
    single_run host calls (SingleTarget.new_ImageTracker canvas map results) in
  tracker_invariant st /\
  (SingleTarget.no_color (selectedColor st) = true -> gridData st = []).
Proof.
  cbv zeta. unfold single_run.
  assert (H0 : tracker_invariant
                 (SingleTarget.new_ImageTracker canvas map results) /\
               (SingleTarget.no_color
                  (selectedColor
                     (SingleTarget.new_ImageTracker canvas map results))
                = true ->
                gridData (SingleTarget.new_ImageTracker canvas map results)
                = [])).
  { tracker_fields. }
  revert H0. generalize (SingleTarget.new_ImageTracker canvas map results).
  induction calls as [|c calls IH]; intros st H; [exact H|].
  cbn [fold_left]. apply IH. now apply single_step_invariant.
Qed.

Lemma last_record_In h r : last_record h = Some r -> In r h.
Proof.
  unfold last_record. intros H. apply zget_Some in H.
  destruct H as [_ H]. now apply nth_error_In in H.
Qed.

Lemma sized_history_estimable (height : Z) st img time :
  10 <= height -> 0 < img_width img -> img_height img = height ->
  GRID_SIZE st = 10 ->
  Forall (fun r => length (grid r) = Z.to_nat (height / 10)) (gridData st) ->
  estimable st img time.
Proof.
  intros Hh Hw Himg Hgs Hgrids. split; [split; lia|].
  intros lastGridData Hlast _. apply last_record_In in Hlast.
  rewrite Forall_forall in Hgrids. specialize (Hgrids _ Hlast).
  assert (Hrows : 1 <= height / 10)
    by (apply Z.div_le_lower_bound; lia).
  split.
  - intros E. rewrite E in Hgrids. cbn in Hgrids. lia.
  - rewrite Hgrids, Himg, Hgs. lia.
Qed.

Lemma averaging_step_sized host (width height : Z) st c :
  0 < width -> 10 <= height -> averaging_frames_sized width height c ->
  GRID_SIZE st = 10 ->
  Forall (fun r => length (grid r) = Z.to_nat (height / 10)) (gridData st) ->
  fst (averaging_step host st c) = Normal tt /\
  GRID_SIZE (snd (averaging_step host st c)) = 10 /\
  Forall (fun r => length (grid r) = Z.to_nat (height / 10))
         (gridData (snd (averaging_step host st c))).
Proof.
  intros Hw Hh Hc Hgs Hgrids.
  destruct c as [enabled|url loaded|img time]; cbn [averaging_step fst snd].
  - split; [reflexivity|]. destruct enabled; cbn; auto.
  - split; [reflexivity|].
    destruct (averaging_parseLegend_fields url loaded st)
      as (Hg & _ & Hs & _). cbv zeta in *. rewrite Hg, Hs. auto.
  - destruct Hc as [Hiw Hih].
    destruct (isEnabled st) eqn:Hen.
    2:{ rewrite averaging_analyzeFrame_disabled by exact Hen. auto. }
    destruct (legendColorMap st) as [m|] eqn:Hmap.
    2:{ unfold Averaging.analyzeFrame. rewrite Hen, Hmap. auto. }
    destruct (averaging_analyzeFrame_completes host img time st)
      as (st' & E & Hg).
    + apply (sized_history_estimable height); auto. lia.
    + split; [exact Hen|congruence].
    + rewrite E. cbn [fst snd]. split; [reflexivity|].
      destruct (averaging_analyzeFrame_fields _ _ _ _ _ _ E)
        as (_ & Hs & _). split; [congruence|].
      rewrite Hg. apply push_evict_Forall; [exact Hgrids|].
      unfold averaging_record. cbn [grid].
      rewrite averaging_rasterize_length.
      cbn [canvas set_canvas snd GRID_SIZE]. now rewrite Hgs, Hih.
Qed.

Lemma single_step_sized host (width height : Z) st c :
  0 < width -> 10 <= height -> single_frames_sized width height c ->
  GRID_SIZE st = 10 ->
  Forall (fun r => length (grid r) = Z.to_nat (height / 10)) (gridData st) ->
  fst (single_step host st c) = Normal tt /\
  GRID_SIZE (snd (single_step host st c)) = 10 /\
  Forall (fun r => length (grid r) = Z.to_nat (height / 10))
         (gridData (snd (single_step host st c))).
Proof.
  intros Hw Hh Hc Hgs Hgrids.
  destruct c as [hex|enabled|url loaded|img time]; cbn [single_step fst snd].
  - split; [reflexivity|]. cbn. auto.
  - split; [reflexivity|]. destruct enabled; cbn; auto.
  - split; [reflexivity|].
    destruct (single_parseLegend_fields url loaded st)
      as (Hg & _ & Hs & _). cbv zeta in *. rewrite Hg, Hs. auto.
  - destruct Hc as [Hiw Hih].
    destruct (isEnabled st) eqn:Hen.
    2:{ rewrite single_analyzeFrame_disabled by exact Hen. auto. }
    destruct (SingleTarget.no_color (selectedColor st)) eqn:Hcol.
    { unfold SingleTarget.analyzeFrame. rewrite Hen, Hcol. auto. }
    destruct (single_analyzeFrame_completes host img time st)
      as (st' & E & Hg).
    + apply (sized_history_estimable height); auto. lia.
    + split; [exact Hen|exact Hcol].
    + rewrite E. cbn [fst snd]. split; [reflexivity|].
      destruct (single_analyzeFrame_fields _ _ _ _ _ _ E)
        as (_ & Hs & _). split; [congruence|].
      rewrite Hg. apply push_evict_Forall; [exact Hgrids|].
      unfold single_record. cbn [grid].
      rewrite single_rasterize_length.
      cbn [canvas set_canvas snd GRID_SIZE]. now rewrite Hgs, Hih.
Qed.

Lemma averaging_trace_sized host (width height : Z) calls st :
  0 < width -> 10 <= height ->
  Forall (averaging_frames_sized width height) calls ->
  GRID_SIZE st = 10 ->
  Forall (fun r => length (grid r) = Z.to_nat (height / 10)) (gridData st) ->
  Forall (fun r => r = Normal tt) (averaging_trace host calls st).
Proof.
  intros Hw Hh Hcalls. revert st.
  induction Hcalls as [|c calls Hc _ IH]; intros st Hgs Hgrids;
    [constructor|].
  destruct (averaging_step_sized host width height st c Hw Hh Hc Hgs Hgrids)
    as (Hr & Hgs' & Hgrids').
  cbn [averaging_trace]. constructor; [exact Hr|]. now apply IH.
Qed.

Lemma single_trace_sized host (width height : Z) calls st :
  0 < width -> 10 <= height ->
  Forall (single_frames_sized width height) calls ->
  GRID_SIZE st = 10 ->
  Forall (fun r => length (grid r) = Z.to_nat (height / 10)) (gridData st) ->
  Forall (fun r => r = Normal tt) (single_trace host calls st).
Proof.
  intros Hw Hh Hcalls. revert st.
  induction Hcalls as [|c calls Hc _ IH]; intros st Hgs Hgrids;
    [constructor|].
  destruct (single_step_sized host width height st c Hw Hh Hc Hgs Hgrids)
    as (Hr & Hgs' & Hgrids').
  cbn [single_trace]. constructor; [exact Hr|]. now apply IH.
Qed.

(** X6.  Frames of one size never make a call throw.  In a session, from
    the constructor on, in which every frame handed to [analyzeFrame] has
    the same width (at least one pixel) and the same height (at least one
    cell, ten pixels), every call of every method completes normally, in
    both trackers, whatever the frames show and whatever else is called in
    between. *)
Theorem same_size_frames_never_throw (host : Host) (width height : Z)
  (canvas : Z * Z) (map : LeafletMap) (results : option string) :
  0 < width -> 10 <= height ->
  (forall calls,
      Forall (averaging_frames_sized width height) calls ->
      Forall (fun r => r = Normal tt)
             (averaging_trace host calls
                (Averaging.new_ImageTracker canvas map results))) /\
  (forall calls,
      Forall (single_frames_sized width height) calls ->
      Forall (fun r => r = Normal tt)
             (single_trace host calls
                (SingleTarget.new_ImageTracker canvas map results))).
Proof.
  intros Hw Hh. split; intros calls Hcalls.
  - apply (averaging_trace_sized host width height); auto.
  - apply (single_trace_sized host width height); auto.
Qed.

Lemma same_size_frames_witness :
  0 < 10 /\ 10 <= 10 /\
  Forall (fun r => r = Normal tt)
         (averaging_trace demo_host
            [A_parseLegend "legend.png" (Some blue_legend);
             A_setAnalysisEnabled true;
             A_analyzeFrame blue_tile "12:00";
             A_analyzeFrame blue_tile "12:05"]
            (Averaging.new_ImageTracker (300, 150) demo_map
                                        (Some "--"%string))).
Proof.
  split; [lia|]. split; [lia|].
  apply (proj1 (same_size_frames_never_throw
                  demo_host 10 10 (300, 150) demo_map (Some "--"%string)
                  eq_refl (Z.le_refl 10))).
  repeat constructor.
Defined.

(** ** Colour keys, distances and the classifier *)

Lemma byte_key_length n :
  is_byte n -> String.length (padStart2 (toString16 n)) = 2%nat.
Proof.
  intros Hn. destruct (byte_hex n Hn) as (c1 & c2 & E & _).
  now rewrite E.
Qed.

Lemma string_length_app (s t : string) :
  String.length (s ++ t) = (String.length s + String.length t)%nat.
Proof. induction s as [|c s IH]; simpl; [reflexivity|now rewrite IH]. Qed.

(** X7.  The key under which [parseLegend] files a 24-bit colour, [#rrggbb],
    has seven characters, starts with [#], is read back by the three
    [parseInt] of [findClosestLegendColor] as the colour it was made from,
    and belongs to no other colour. *)
Theorem legend_key_round_trip :
  (forall c, rgb24 c -> rgb_of_hex (hex_of c) = Some c) /\
  (forall c c', rgb24 c -> rgb24 c' -> hex_of c = hex_of c' -> c = c') /\
  (forall c, rgb24 c ->
             String.length (hex_of c) = 7%nat /\
             String.get 0 (hex_of c) = Some "#"%char).
Proof.
  split; [exact rgb_of_hex_of|]. split; [exact hex_of_inj|].
  intros [[r g] b] (Hr & Hg & Hb). split; [|reflexivity].
  unfold hex_of, hex_of_rgb. rewrite !string_length_app.
  rewrite (byte_key_length r Hr), (byte_key_length g Hg),
    (byte_key_length b Hb). reflexivity.
Qed.

Lemma SFeqb_key x y :
  x <> S754_nan -> y <> S754_nan ->
  SFeqb x y = true -> order_key x = order_key y.
Proof.
  intros Hx Hy. unfold SFeqb, SFcompare.
  destruct x as [sx|sx| |sx mx ex], y as [sy|sy| |sy my ey]; try congruence;
    try (destruct sx); try (destruct sy); simpl;
    try discriminate; try reflexivity.
  all: change (PosDef.Pos.compare_cont Eq mx my) with (Pos.compare mx my).
  all: destruct (Z.compare_spec ex ey); destruct (Pos.compare_spec mx my);
    simpl; try discriminate; intros _; subst; reflexivity.
Qed.

Lemma SFeqb_nan_l y : SFeqb S754_nan y = false.
Proof. reflexivity. Qed.

Lemma SFeqb_nan_r x : SFeqb x S754_nan = false.
Proof. destruct x as [[]|[]| |[] m e]; reflexivity. Qed.

(** Equal numbers are not one below the other. *)
Lemma eqb_not_ltb x y : (x =? y)%float = true -> (y <? x)%float = false.
Proof.
  intros E. destruct (y <? x)%float eqn:L; [|reflexivity].
  destruct (ltb_numbers _ _ L) as [Hy Hx].
  rewrite FloatAxioms.eqb_spec in E.
  apply (SFeqb_key _ _ Hx Hy) in E.
  apply (ltb_key _ _ Hy Hx) in L. rewrite E in L.
  now apply key_lt_irrefl in L.
Qed.

Lemma color_distance_sq_sym p q :
  color_distance_sq p q = color_distance_sq q p.
Proof.
  destruct p as [[r1 g1] b1], q as [[r2 g2] b2]. unfold color_distance_sq.
  rewrite !Z.pow_2_r. ring.
Qed.

Lemma color_distance_sq_zero p q : color_distance_sq p q = 0 <-> p = q.
Proof.
  destruct p as [[r1 g1] b1], q as [[r2 g2] b2]. unfold color_distance_sq.
  split.
  - rewrite !Z.pow_2_r. intros H.
    pose proof (Z.square_nonneg (r1 - r2)).
    pose proof (Z.square_nonneg (g1 - g2)).
    pose proof (Z.square_nonneg (b1 - b2)).
    assert (Hr : (r1 - r2) * (r1 - r2) = 0) by lia.
    assert (Hg : (g1 - g2) * (g1 - g2) = 0) by lia.
    assert (Hb : (b1 - b2) * (b1 - b2) = 0) by lia.
    apply Z.eq_mul_0 in Hr, Hg, Hb.
    f_equal; [f_equal|]; lia.
  - intros E. inversion E; subst. rewrite !Z.sub_diag. reflexivity.
Qed.

(** X8.  [color_distance] does not depend on the order of its two colours;
    for 24-bit colours it is zero for equal colours only, and always below
    442. *)
Theorem color_distance_symmetric_and_definite :
  (forall p q, color_distance p q = color_distance q p) /\
  (forall p q, rgb24 p -> rgb24 q ->
               ((color_distance p q =? 0)%float = true <-> p = q)) /\
  (forall p q, rgb24 p -> rgb24 q ->
               (color_distance p q <? 442)%float = true).
Proof.
  split; [|split].
  - intros p q. unfold color_distance. now rewrite color_distance_sq_sym.
  - intros p q Hp Hq. unfold color_distance.
    fold (root (color_distance_sq p q)).
    pose proof (color_distance_sq_range p q Hp Hq) as Hd.
    rewrite <- color_distance_sq_zero.
    destruct (Z.eq_dec (color_distance_sq p q) 0) as [E|Hne].
    + rewrite E. split; reflexivity.
    + split; [|contradiction].
      intros E. apply eqb_not_ltb in E.
      change 0%float with (root 0) in E.
      rewrite root_rises in E by (unfold max_distance_sq in *; lia).
      discriminate.
  - intros p q Hp Hq. unfold color_distance.
    fold (root (color_distance_sq p q)).
    pose proof (color_distance_sq_range p q Hp Hq) as Hd.
    destruct (Z.eq_dec (color_distance_sq p q) max_distance_sq) as [E|Hne].
    + rewrite E. vm_compute. reflexivity.
    + apply ltb_trans with (root max_distance_sq).
      * apply root_rises; lia.
      * vm_compute. reflexivity.
Qed.

Lemma closer_key r g b keys best :
  snd (fold_left (closer r g b) keys best) = snd best \/
  exists hex, In hex keys /\
              snd (fold_left (closer r g b) keys best) = Some hex.
Proof.
  revert best. induction keys as [|k keys IH]; intros best; [now left|].
  cbn [fold_left]. destruct (IH (closer r g b best k)) as [E|(hex & Hin & E)].
  - rewrite E. unfold closer. destruct best as [minDistance closestColor].
    destruct (_ <? _)%float; cbn [snd]; [|now left].
    right. exists k. split; [now left|reflexivity].
  - right. exists hex. split; [now right|exact E].
Qed.

Lemma Map_get_key (m : ColorMap) (hex : string) :
  In hex (Map_keys m) -> exists rank, Map_get m hex = Some rank.
Proof.
  induction m as [|[k v] m IH]; [now intros|].
  cbn [Map_keys List.map fst Map_get]. intros [E|Hin].
  - subst. rewrite String.eqb_refl. now exists v.
  - destruct (String.eqb k hex); [now exists v|]. now apply IH.
Qed.

Lemma findClosestLegendColor_key (m : ColorMap) (r g b : Z) (hex : string) :
  findClosestLegendColor (Some m) r g b = Some hex -> In hex (Map_keys m).
Proof.
  unfold findClosestLegendColor.
  destruct (Map_size m =? 0); [discriminate|].
  destruct (closer_key r g b (Map_keys m) (infinity, None))
    as [E|(k & Hin & E)];
    destruct (fold_left _ _ _) as [minDistance closestColor];
    cbn [snd] in E; subst closestColor;
    destruct (_ <? _)%float; try discriminate.
  intros H. inversion H; subst. exact Hin.
Qed.

(** X9.  The colour [findClosestLegendColor] returns is always a key of the
    colour table it was given, whatever the table holds, so the rank lookup
    that follows it in [analyzeFrame] never misses; without a closest
    colour there is no rank. *)
Theorem closest_color_is_a_key (m : ColorMap) (r g b : Z) :
  match findClosestLegendColor (Some m) r g b with
  | Some hex =>
    In hex (Map_keys m) /\
    exists rank, Map_get m hex = Some rank /\
                 classify (Some m) r g b = Some rank
  | None => classify (Some m) r g b = None
  end.
Proof.
  unfold classify.
  destruct (findClosestLegendColor (Some m) r g b) as [hex|] eqn:E;
    [|reflexivity].
  apply findClosestLegendColor_key in E. split; [exact E|].
  destruct (Map_get_key m hex E) as [rank Hrank].
  exists rank. split; [exact Hrank|exact Hrank].
Qed.

Lemma table_rank_unique (t : ColorTable) c rank rank' :
  NoDup (List.map fst t) -> In (c, rank) t -> In (c, rank') t -> rank = rank'.
Proof.
  induction t as [|[c0 r0] t IH]; [now intros|].
  cbn [List.map fst]. intros Hnd H1 H2. inversion Hnd; subst.
  destruct H1 as [E1|H1], H2 as [E2|H2].
  - congruence.
  - inversion E1; subst. exfalso. apply H3.
    change c with (fst (c, rank')). now apply in_map.
  - inversion E2; subst. exfalso. apply H3.
    change c with (fst (c, rank)). now apply in_map.
  - now apply IH.
Qed.

Lemma exact_color_rank (t : ColorTable) (r g b rank : Z) :
  wf_table t -> In ((r, g, b), rank) t ->
  classify (Some (map_of_table t)) r g b = Some rank.
Proof.
  intros Hwf Hin.
  assert (Hc : rgb24 (r, g, b)).
  { destruct Hwf as [Hb _]. rewrite Forall_forall in Hb. apply Hb.
    change (r, g, b) with (fst ((r, g, b), rank)). now apply in_map. }
  destruct (classify_table_cases t r g b Hwf Hc)
    as [[Ht _]|(c' & rank' & Hn & Hcl)].
  - subst t. destruct Hin.
  - rewrite Hcl. destruct Hn as (i & Hi & Hall & _).
    apply In_nth_error in Hin. destruct Hin as [j Hj].
    specialize (Hall _ _ Hj). cbn [fst] in Hall.
    apply euclidean_le in Hall.
    rewrite (proj2 (color_distance_sq_zero (r, g, b) (r, g, b)) eq_refl)
      in Hall.
    pose proof (color_distance_sq_nonneg (r, g, b) c') as Hnn.
    assert (E : color_distance_sq (r, g, b) c' = 0) by lia.
    rewrite E. cbn [Z.ltb Z.compare Z.mul Pos.mul].
    apply color_distance_sq_zero in E. subst c'.
    f_equal. apply (table_rank_unique t (r, g, b)).
    + exact (proj2 Hwf).
    + now apply nth_error_In in Hi.
    + now apply nth_error_In in Hj.
Qed.

(** X10.  A pixel that has exactly a colour of the table is classified with
    the rank of that colour: no other entry of the table, however close,
    takes it over, and the tolerance of 100 never rejects it. *)
Theorem table_colors_classify_to_their_rank (t : ColorTable)
  (r g b rank : Z) :
  wf_table t -> In ((r, g, b), rank) t ->
  classify (Some (map_of_table t)) r g b = Some rank.
Proof. exact (exact_color_rank t r g b rank). Qed.

Lemma table_colors_witness :
  wf_table two_color_table /\ In ((0, 255, 0), 2) two_color_table /\
  classify (Some (map_of_table two_color_table)) 0 255 0 = Some 2.
Proof.
  split; [exact two_color_table_wf|].
  split; [right; left; reflexivity|].
  exact (table_colors_classify_to_their_rank
           two_color_table 0 255 0 2 two_color_table_wf
           (or_intror (or_introl eq_refl))).
Defined.

Lemma ranks_In (n : nat) (rank : Z) :
  In rank (ranks n) -> 1 <= rank <= Z.of_nat n.
Proof.
  unfold ranks. intros H. apply in_map_iff in H.
  destruct H as (i & <- & Hi). apply in_seq in Hi. lia.
Qed.

Lemma Map_get_In (m : ColorMap) (hex : string) (rank : Z) :
  Map_get m hex = Some rank -> In rank (List.map snd m).
Proof.
  induction m as [|[k v] m IH]; [discriminate|].
  cbn [Map_get List.map snd]. destruct (String.eqb k hex).
  - intros E. inversion E. now left.
  - intros E. right. now apply IH.
Qed.

Lemma ranked_classify (m : ColorMap) (r g b : Z) :
  ranked_table m ->
  match classify (Some m) r g b with
  | Some rank => 1 <= rank <= Map_size m
  | None => True
  end.
Proof.
  intros [_ Hr]. unfold classify.
  destruct (findClosestLegendColor (Some m) r g b) as [hex|]; [|exact I].
  destruct (Map_get m hex) as [rank|] eqn:E; [|exact I].
  apply Map_get_In in E. rewrite Hr in E. now apply ranks_In.
Qed.

(** X11.  Whatever legend image [parseLegend] has read, every rank the
    classifier then returns lies between 1 and the number of colours in the
    table, in both trackers. *)
Theorem ranks_after_parse_are_in_range (url : string) (img : Image)
  (st : ImageTracker) (r g b : Z) :
  let classified_with table :=
    match table with
    | Some m =>
      match classify (Some m) r g b with
      | Some rank => 1 <= rank <= Map_size m
      | None => True
      end
    | None => False
    end in
  classified_with
    (legendColorMap (snd (Averaging.parseLegend url (Some img) st))) /\
  classified_with
    (legendColorMap (snd (SingleTarget.parseLegend url (Some img) st))).
Proof.
  cbv zeta. split.
  - destruct (averaging_parseLegend_table url img st)
      as (Hparse & Hk & Hr & _ & Hnd).
    cbv zeta in *. rewrite Hparse.
    cbn [snd legendColorMap log set_legendColorMap].
    apply ranked_classify. split; [now rewrite Hk|exact Hr].
  - destruct (single_parseLegend_table url img st)
      as (Hparse & Hk & Hr & _ & Hnd).
    cbv zeta in *. rewrite Hparse.
    cbn [snd legendColorMap log set_legendColorMap].
    apply ranked_classify. split; [now rewrite Hk|exact Hr].
Qed.

(** ** The grid the rasterizer builds *)

Lemma single_cell_value_binary st imageData gridX gridY :
  SingleTarget.cell_value st imageData gridX gridY = 0%float \/
  SingleTarget.cell_value st imageData gridX gridY = 1%float.
Proof.
  unfold SingleTarget.cell_value. destruct (_ <? _)%float; auto.
Qed.

(** X12.  The grid of a frame is rectangular: it has
    [floor(height / cellSize)] rows of [floor(width / cellSize)] cells
    each, in both trackers, so the pixels of an incomplete cell at the right
    or the lower edge are left out; the cells of the single-target tracker
    hold 0 or 1 and nothing else. *)
Theorem rasterized_grid_shape (st : ImageTracker) (imageData : list Z) :
  let cols := Z.to_nat (fst (canvas st) / GRID_SIZE st) in
  let rows := Z.to_nat (snd (canvas st) / GRID_SIZE st) in
  (length (Averaging.rasterize st imageData) = rows /\
   Forall (fun row => length row = cols) (Averaging.rasterize st imageData)) /\
  (length (SingleTarget.rasterize st imageData) = rows /\
   Forall (fun row => length row = cols)
          (SingleTarget.rasterize st imageData) /\
   Forall (Forall (fun v => v = 0%float \/ v = 1%float))
          (SingleTarget.rasterize st imageData)).
Proof.
  intros cols rows. split; [split|split; [|split]].
  - apply averaging_rasterize_length.
  - apply averaging_rasterize_rows.
  - apply single_rasterize_length.
  - apply single_rasterize_rows.
  - unfold SingleTarget.rasterize. apply Forall_forall. intros row Hrow.
    apply in_map_iff in Hrow. destruct Hrow as (gridY & <- & _).
    apply Forall_forall. intros v Hv.
    apply in_map_iff in Hv. destruct Hv as (gridX & <- & _).
    apply single_cell_value_binary.
Qed.

Lemma block_inside (size cellSize k x : Z) :
  0 < cellSize -> 0 <= k < size / cellSize -> 0 <= x < cellSize ->
  0 <= k * cellSize + x < size.
Proof.
  intros Hc Hk Hx. pose proof (Z.mul_div_le size cellSize Hc). nia.
Qed.

Lemma pixel_at_inside (img : Image) (px py : Z) :
  well_formed img -> 0 <= px < img_width img -> 0 <= py < img_height img ->
  pixel_at (img_width img) (img_data img) px py <> None.
Proof.
  intros (Hw & Hh & Hlen) Hpx Hpy. unfold pixel_at.
  set (i := (py * img_width img + px) * 4).
  assert (Hi : 0 <= i /\ i + 3 < Z.of_nat (length (img_data img))).
  { unfold i. rewrite Hlen. nia. }
  destruct (zget_in_range (img_data img) (i + 3)) as [a ->]; [lia|].
  destruct (zget_in_range (img_data img) i) as [r ->]; [lia|].
  destruct (zget_in_range (img_data img) (i + 1)) as [g ->]; [lia|].
  destruct (zget_in_range (img_data img) (i + 2)) as [b ->]; [lia|].
  discriminate.
Qed.

Lemma flat_map_singletons {A B : Type} (f : A -> option B) (l : list A) :
  (forall a, In a l -> f a <> None) ->
  length (flat_map (fun a => match f a with Some b => [b] | None => [] end) l)
  = length l.
Proof.
  induction l as [|a l IH]; intros H; [reflexivity|].
  cbn [flat_map]. rewrite length_app, IH by (intros; apply H; now right).
  destruct (f a) eqn:E; [reflexivity|].
  exfalso. exact (H a (or_introl eq_refl) E).
Qed.

Lemma cells_length (rows cols : Z) :
  0 <= rows -> 0 <= cols ->
  length (cells rows cols) = Z.to_nat (rows * cols).
Proof.
  intros Hr Hc. unfold cells, zrange.
  assert (E : forall ys : list Z,
             length (flat_map (fun y => List.map (fun x => (x, y))
                                                 (zspan 0 cols)) ys)
             = (length ys * Z.to_nat cols)%nat).
  { induction ys as [|y ys IH]; [reflexivity|].
    cbn [flat_map length]. rewrite length_app, IH, length_map, zspan_length.
    replace (cols - 0) with cols by lia. lia. }
  rewrite E, zspan_length. replace (rows - 0) with rows by lia.
  rewrite Z2Nat.inj_mul by lia. reflexivity.
Qed.

(** X13.  On a frame whose data are the RGBA bytes of its width by height
    pixels, each step of the two innermost loops of [analyzeFrame] reads
    the pixel at its offset in the block of the cell: that pixel lies inside
    the frame, the four reads of the data find its four bytes, the ones a
    canvas gives for that pixel, and the step adds what this pixel gives,
    its rank in the averaging tracker and one for a pixel of the tracked
    colour in the single-target tracker.  A cell is made of all of its
    [cellSize] by [cellSize] pixels. *)
Theorem rasterizer_reads_stay_inside (img : Image) (st : ImageTracker)
  (gridX gridY : Z) :
  well_formed img ->
  canvas st = (img_width img, img_height img) ->
  0 < GRID_SIZE st ->
  0 <= gridX < img_width img / GRID_SIZE st ->
  0 <= gridY < img_height img / GRID_SIZE st ->
  let cellSize := GRID_SIZE st in
  (forall x y,
      0 <= x < cellSize -> 0 <= y < cellSize ->
      let px := gridX * cellSize + x in
      let py := gridY * cellSize + y in
      0 <= px < img_width img /\ 0 <= py < img_height img /\
      exists r g b a,
        getPixel img px py = (r, g, b, a) /\
        pixel_at (img_width img) (img_data img) px py = Some (r, g, b, a) /\
        (forall t c,
            Averaging.sample_pixel st (img_data img) gridX gridY (t, c) (x, y)
            = if 128 <? a then
                match classify (legendColorMap st) r g b with
                | Some rank => (t + rank, c + 1)
                | None => (t, c)
                end
              else (t, c)) /\
        (forall n,
            SingleTarget.sample_pixel st (img_data img) gridX gridY n (x, y)
            = if (128 <? a)
                 && SingleTarget.same_color
                      (findClosestLegendColor (legendColorMap st) r g b)
                      (selectedColor st)
              then n + 1 else n)) /\
  length (cell_pixels cellSize (img_width img) (img_data img) gridX gridY)
  = Z.to_nat (cellSize * cellSize).
Proof.
  intros Hwf Hcanvas Hc Hx Hy cellSize.
  assert (Hin : forall x y,
             0 <= x < cellSize -> 0 <= y < cellSize ->
             0 <= gridX * cellSize + x < img_width img /\
             0 <= gridY * cellSize + y < img_height img).
  { intros x y Hx' Hy'. split; apply block_inside; assumption. }
  split.
  - intros x y Hx' Hy' px py.
    destruct (Hin x y Hx' Hy') as [Hpx Hpy]. fold px py in Hpx, Hpy.
    split; [exact Hpx|]. split; [exact Hpy|].
    set (i := (py * img_width img + px) * 4).
    assert (Hi : 0 <= i /\ i + 3 < Z.of_nat (length (img_data img))).
    { destruct Hwf as (_ & _ & Hlen). unfold i. rewrite Hlen. nia. }
    destruct (zget_in_range (img_data img) (i + 3)) as [a Ha]; [lia|].
    destruct (zget_in_range (img_data img) i) as [r Hr]; [lia|].
    destruct (zget_in_range (img_data img) (i + 1)) as [g Hg]; [lia|].
    destruct (zget_in_range (img_data img) (i + 2)) as [b Hb]; [lia|].
    exists r, g, b, a. split; [|split; [|split]].
    + unfold getPixel.
      replace ((0 <=? px) && (px <? img_width img) && (0 <=? py)
               && (py <? img_height img)) with true.
      2:{ symmetry. rewrite !andb_true_iff.
          repeat split; try apply Z.leb_le; try apply Z.ltb_lt; lia. }
      replace (4 * (py * img_width img + px)) with i by (unfold i; lia).
      now rewrite Hr, Hg, Hb, Ha.
    + unfold pixel_at. fold i. now rewrite Ha, Hr, Hg, Hb.
    + intros t c. unfold Averaging.sample_pixel.
      rewrite Hcanvas. cbn [fst]. fold cellSize. fold py px. fold i.
      rewrite Ha, Hr, Hg, Hb. destruct (128 <? a); [|reflexivity].
      unfold classify. destruct (legendColorMap st) as [m|].
      * destruct (findClosestLegendColor (Some m) r g b) as [hex|];
          [|reflexivity].
        destruct (Map_get m hex); reflexivity.
      * reflexivity.
    + intros n. unfold SingleTarget.sample_pixel.
      rewrite Hcanvas. cbn [fst]. fold cellSize. fold py px. fold i.
      rewrite Ha, Hr, Hg, Hb. destruct (128 <? a); [|reflexivity].
      cbn [andb]. reflexivity.
  - unfold cell_pixels.
    rewrite (flat_map_singletons
               (fun xy => pixel_at (img_width img) (img_data img)
                                   (gridX * cellSize + fst xy)
                                   (gridY * cellSize + snd xy))).
    + apply cells_length; lia.
    + intros [x y] Hxy. apply cells_In in Hxy. cbn [fst snd] in *.
      destruct (Hin x y) as [Hpx Hpy]; [lia|lia|].
      now apply pixel_at_inside.
Qed.

Lemma blue_tile_well_formed : well_formed blue_tile.
Proof. split; [|split]; vm_compute; congruence. Defined.

(** The fifth pixel of the fourth row of [blue_tile] is blue, of rank 1. *)
Lemma rasterizer_reads_witness :
  well_formed blue_tile /\
  canvas blue_tile_tracker = (img_width blue_tile, img_height blue_tile) /\
  0 < GRID_SIZE blue_tile_tracker /\
  0 <= 0 < img_width blue_tile / GRID_SIZE blue_tile_tracker /\
  0 <= 0 < img_height blue_tile / GRID_SIZE blue_tile_tracker /\
  Averaging.sample_pixel blue_tile_tracker (img_data blue_tile) 0 0
                         (0, 0) (4, 3) = (1, 1) /\
  length (cell_pixels 10 (img_width blue_tile) (img_data blue_tile) 0 0)
  = 100%nat.
Proof.
  assert (H : 0 <= 0 < 1) by lia.
  assert (H4 : 0 <= 4 < 10) by lia.
  assert (H3 : 0 <= 3 < 10) by lia.
  split; [exact blue_tile_well_formed|]. split; [reflexivity|].
  split; [reflexivity|]. split; [exact H|]. split; [exact H|].
  destruct (rasterizer_reads_stay_inside
              blue_tile blue_tile_tracker 0 0 blue_tile_well_formed
              eq_refl eq_refl H H) as [Hread Hall].
  split; [|exact Hall].
  destruct (Hread 4 3 H4 H3) as (_ & _ & r & g & b & a & Hp & _ & Hstep & _).
  rewrite Hstep. vm_compute in Hp. inversion Hp. reflexivity.
Defined.

Lemma unlisted_same_color (table : option ColorMap) (hex : string)
  (r g b : Z) :
  match table with
  | Some m => ~ In hex (Map_keys m)
  | None => True
  end ->
  SingleTarget.same_color (findClosestLegendColor table r g b) (Some hex)
  = false.
Proof.
  intros Hkey. destruct table as [m|]; [|reflexivity].
  destruct (findClosestLegendColor (Some m) r g b) as [hex'|] eqn:E;
    [|reflexivity].
  apply findClosestLegendColor_key in E. cbn [SingleTarget.same_color].
  apply String.eqb_neq. intros ->. contradiction.
Qed.

Lemma unlisted_target_pixels (table : option ColorMap) (hex : string)
  pixels :
  match table with
  | Some m => ~ In hex (Map_keys m)
  | None => True
  end ->
  target_pixels table (Some hex) pixels = [].
Proof.
  intros Hkey. unfold target_pixels.
  induction pixels as [|[[[r g] b] a] pixels IH]; [reflexivity|].
  cbn [filter]. now rewrite (unlisted_same_color table hex r g b Hkey).
Qed.

Lemma blank_grid_has_no_target host r1 r2 st :
  grid r1 <> [] ->
  Forall (Forall (fun v => v = 0%float)) (grid r1) ->
  SingleTarget.trackMovementFromCenter host r1 r2 st
  = (Normal tt, show st NoTargetAtReference).
Proof.
  intros Hne Hzero. unfold SingleTarget.trackMovementFromCenter.
  destruct (zget_first _ Hne) as [row0 ->].
  destruct (SingleTarget.crosshair_cell _ _) as [startX|]; [|reflexivity].
  destruct (SingleTarget.crosshair_cell _ _) as [startY|]; [|reflexivity].
  unfold cell.
  destruct (zget (grid r1) startY) as [row|] eqn:Hrow; [|reflexivity].
  destruct (zget row startX) as [v|] eqn:Hv; [|reflexivity].
  apply zget_Some in Hrow, Hv. destruct Hrow as [_ Hrow], Hv as [_ Hv].
  apply nth_error_In in Hrow, Hv.
  rewrite Forall_forall in Hzero. specialize (Hzero _ Hrow).
  rewrite Forall_forall in Hzero. rewrite (Hzero _ Hv). reflexivity.
Qed.

(** X14.  [setSelectedColor] does not check its colour against the table.
    While the selected colour is not a key of the colour table, no cell of
    any frame is active: the grid holds zeros only (for the cell size 10 of
    the constructor), and an estimate from such a grid, if it has a row,
    says that there is no target at the crosshair, whatever the newer frame
    shows. *)
Theorem unlisted_target_is_never_found (host : Host) (st : ImageTracker)
  (hex : string) (imageData : list Z) (r1 r2 : FrameRecord) :
  GRID_SIZE st = 10 -> selectedColor st = Some hex ->
  match legendColorMap st with
  | Some m => ~ In hex (Map_keys m)
  | None => True
  end ->
  Forall (Forall (fun v => v = 0%float))
         (SingleTarget.rasterize st imageData) /\
  (grid r1 = SingleTarget.rasterize st imageData -> grid r1 <> [] ->
   SingleTarget.trackMovementFromCenter host r1 r2 st
   = (Normal tt, show st NoTargetAtReference)).
Proof.
  intros Hgs Hsel Hkey.
  assert (Hzero : Forall (Forall (fun v => v = 0%float))
                         (SingleTarget.rasterize st imageData)).
  { unfold SingleTarget.rasterize. apply Forall_forall. intros row Hrow.
    apply in_map_iff in Hrow. destruct Hrow as (gridY & <- & _).
    apply Forall_forall. intros v Hv.
    apply in_map_iff in Hv. destruct Hv as (gridX & <- & _).
    rewrite single_cell_value_spec. cbv zeta.
    rewrite Hsel, (unlisted_target_pixels _ hex _ Hkey), Hgs.
    reflexivity. }
  split; [exact Hzero|].
  intros Hg Hne. apply blank_grid_has_no_target; [exact Hne|].
  now rewrite Hg.
Qed.

Lemma unlisted_target_witness :
  GRID_SIZE single_tracker = 10 /\
  selectedColor (SingleTarget.setSelectedColor (Some "#00ff00"%string)
                                               single_tracker)
  = Some "#00ff00"%string /\
  Forall (Forall (fun v => v = 0%float))
         (SingleTarget.rasterize
            (SingleTarget.setSelectedColor (Some "#00ff00"%string)
                                           single_tracker)
            (img_data blue_tile)).
Proof.
  split; [reflexivity|]. split; [reflexivity|].
  refine (proj1 (unlisted_target_is_never_found
                   demo_host
                   (SingleTarget.setSelectedColor (Some "#00ff00"%string)
                                                  single_tracker)
                   "#00ff00" (img_data blue_tile)
                   (empty_record "12:00") (empty_record "12:05")
                   eq_refl eq_refl _)).
  cbn. intros [H|[]]. discriminate.
Defined.

(** ** What the averaging estimator can report *)

Lemma accepted_vector_raining g1 g2 rows cols xy d :
  accepted_vector g1 g2 rows cols xy = Some d -> raining g1 xy = true.
Proof.
  unfold accepted_vector, raining.
  destruct (cell g1 (fst xy) (snd xy)) as [v|]; [|discriminate].
  destruct (0.1 <? v)%float; [reflexivity|discriminate].
Qed.

Lemma accepted_vector_near g1 g2 rows cols xy d :
  accepted_vector g1 g2 rows cols xy = Some d ->
  Z.abs (fst d) <= 5 /\ Z.abs (snd d) <= 5.
Proof.
  destruct xy as [x y]. intros H. apply accepted_vector_spec in H.
  destruct H as (v & err & b & _ & _ & (i & Hi & _) & _ & ->).
  apply nth_error_In, window_In in Hi. cbn [fst snd]. lia.
Qed.

Lemma accepted_vectors_count g1 g2 rows cols (l : list (Z * Z)) :
  (length (flat_map (fun xy => match accepted_vector g1 g2 rows cols xy with
                               | Some d => [d]
                               | None => []
                               end) l)
   <= length (filter (raining g1) l))%nat.
Proof.
  induction l as [|xy l IH]; [reflexivity|].
  cbn [flat_map filter]. rewrite length_app.
  destruct (accepted_vector g1 g2 rows cols xy) as [d|] eqn:E.
  - rewrite (accepted_vector_raining _ _ _ _ _ _ E). cbn [length]. lia.
  - destruct (raining g1 xy); cbn [length]; lia.
Qed.

Lemma accepted_vectors_near g1 g2 rows cols :
  Forall (fun d => Z.abs (fst d) <= 5 /\ Z.abs (snd d) <= 5)
         (accepted_vectors g1 g2 rows cols).
Proof.
  unfold accepted_vectors. apply Forall_forall. intros d Hd.
  apply in_flat_map in Hd. destruct Hd as (xy & _ & Hd).
  destruct (accepted_vector g1 g2 rows cols xy) as [d'|] eqn:E;
    [|destruct Hd].
  destruct Hd as [<-|[]]. exact (accepted_vector_near _ _ _ _ _ _ E).
Qed.

Lemma sums_near (vs : list (Z * Z)) :
  Forall (fun d => Z.abs (fst d) <= 5 /\ Z.abs (snd d) <= 5) vs ->
  Z.abs (sum_dx vs) <= 5 * Z.of_nat (length vs) /\
  Z.abs (sum_dy vs) <= 5 * Z.of_nat (length vs).
Proof.
  unfold sum_dx, sum_dy.
  induction 1 as [|d vs [Hx Hy] _ [IHx IHy]]; [cbn; lia|].
  cbn [List.map fold_right length]. lia.
Qed.

(** X15.  What the averaging estimator can report.  On two grids it can
    work on, the number of displacements it averages is at most the number
    of cells of the older grid with a value above 0.1, each of them is at
    most five cells long in either direction, and so are the sums it
    divides, per displacement.  With ten such cells or fewer the estimate
    is "Bewegung unklar". *)
Theorem averaging_estimate_is_bounded (host : Host) (r1 r2 : FrameRecord)
  (st : ImageTracker) (row0 : list float) :
  zget (grid r1) 0 = Some row0 ->
  (length (grid r1) <= length (grid r2))%nat ->
  let rows := Z.of_nat (length (grid r1)) in
  let cols := Z.of_nat (length row0) in
  let wet :=
    Z.of_nat (length (filter (raining (grid r1)) (cells rows cols))) in
  exists totalDx totalDy vectorCount,
    Averaging.trackMovement host r1 r2 st =
    (Normal tt,
     if 10 <? vectorCount
     then Averaging.calculateSpeed host (mean totalDx vectorCount)
                                   (mean totalDy vectorCount)
                                   (timestamp r1) (timestamp r2) st
     else show st AmbiguousMotion) /\
    0 <= vectorCount <= wet /\
    Z.abs totalDx <= 5 * vectorCount /\ Z.abs totalDy <= 5 * vectorCount /\
    (wet <= 10 ->
     Averaging.trackMovement host r1 r2 st
     = (Normal tt, show st AmbiguousMotion)).
Proof.
  intros Hrow0 Hlen rows cols wet.
  pose proof (trackMovement_reports_mean host r1 r2 st row0 Hrow0 Hlen)
    as Hmean. cbv zeta in Hmean. fold rows cols in Hmean.
  set (vs := accepted_vectors (grid r1) (grid r2) rows cols) in *.
  pose proof (accepted_vectors_count (grid r1) (grid r2) rows cols
                                     (cells rows cols)) as Hcount.
  fold (accepted_vectors (grid r1) (grid r2) rows cols) in Hcount.
  fold vs in Hcount.
  destruct (sums_near vs (accepted_vectors_near _ _ _ _)) as [Hx Hy].
  exists (sum_dx vs), (sum_dy vs), (Z.of_nat (length vs)).
  split; [exact Hmean|]. split; [unfold wet; lia|].
  split; [exact Hx|]. split; [exact Hy|].
  intros Hwet. rewrite Hmean.
  replace (10 <? Z.of_nat (length vs)) with false; [reflexivity|].
  symmetry. apply Z.ltb_ge. unfold wet in Hwet. lia.
Qed.

Lemma averaging_estimate_witness :
  zget (grid (unit_record "12:00")) 0 = Some [1%float] /\
  (length (grid (unit_record "12:00"))
   <= length (grid (unit_record "12:05")))%nat /\
  exists totalDx totalDy vectorCount,
    Averaging.trackMovement demo_host (unit_record "12:00")
                            (unit_record "12:05") averaging_tracker =
    (Normal tt,
     if 10 <? vectorCount
     then Averaging.calculateSpeed demo_host (mean totalDx vectorCount)
                                   (mean totalDy vectorCount)
                                   "12:00" "12:05" averaging_tracker
     else show averaging_tracker AmbiguousMotion) /\
    0 <= vectorCount <= 1.
Proof.
  split; [reflexivity|]. split; [simpl; lia|].
  destruct (averaging_estimate_is_bounded
              demo_host (unit_record "12:00") (unit_record "12:05")
              averaging_tracker [1%float] eq_refl (le_n 1))
    as (totalDx & totalDy & vectorCount & Htrack & Hcount & _).
  exists totalDx, totalDy, vectorCount. split; [exact Htrack|exact Hcount].
Defined.

(** ** Ties in the averaging estimator *)

Lemma sub_self (v : float) : finite v -> (v - v)%float = 0%float.
Proof.
  unfold finite. intros Hv. apply Prim2SF_inj. rewrite sub_spec.
  destruct (Prim2SF v) as [s|s| |s m e]; try contradiction.
  - destruct s; reflexivity.
  - unfold SF64sub, SFsub.
    set (a := cond_Zopp s (Zpos (fst (shl_align m e _)))).
    change (IntDef.Z.sub a a) with (a - a). rewrite Z.sub_diag.
    reflexivity.
Qed.

Lemma absolute_difference_self (v : float) :
  finite v -> absolute_difference v v = 0%float.
Proof.
  intros Hv. unfold absolute_difference. rewrite (sub_self v Hv).
  reflexivity.
Qed.

Lemma uniform_cell (rows cols : nat) (v : float) (x y : Z) :
  0 <= x < Z.of_nat cols -> 0 <= y < Z.of_nat rows ->
  cell (uniform rows cols v) x y = Some v.
Proof.
  intros Hx Hy. unfold cell, uniform.
  assert (Hrow : zget (repeat (repeat v cols) rows) y = Some (repeat v cols)).
  { apply zget_Some. split; [lia|].
    rewrite nth_error_repeat by lia. reflexivity. }
  rewrite Hrow. apply zget_Some. split; [lia|].
  rewrite nth_error_repeat by lia. reflexivity.
Qed.

Lemma uniform_length (rows cols : nat) (v : float) :
  length (uniform rows cols v) = rows.
Proof. unfold uniform. apply repeat_length. Qed.

(** The search window starts at its upper left corner. *)
Lemma window_head (rows cols x y : Z) :
  0 <= x < cols -> 0 <= y < rows ->
  exists rest,
    window rows cols 5 x y = (window_start x, window_start y) :: rest.
Proof.
  intros Hx Hy. unfold window_start.
  assert (Hin : In (Z.max 0 (x - 5), Z.max 0 (y - 5)) (window rows cols 5 x y)).
  { apply window_In. cbn [fst snd]. lia. }
  pose proof (window_row_major rows cols 5 x y) as Hsorted.
  pose proof (window_In rows cols 5 x y) as Hmem.
  destruct (window rows cols 5 x y) as [|h rest]; [destruct Hin|].
  exists rest. f_equal.
  destruct Hin as [E|Hin]; [exact E|].
  inversion Hsorted as [|? ? _ Hall]; subst.
  rewrite Forall_forall in Hall. specialize (Hall _ Hin).
  pose proof (proj1 (Hmem h) (or_introl eq_refl)) as Hh.
  unfold row_major in Hall. cbn [fst snd] in Hall. lia.
Qed.

Lemma uniform_accepted_vector (rows cols : nat) (v : float) (x y : Z) :
  finite v -> (0.1 <? v)%float = true ->
  0 <= x < Z.of_nat cols -> 0 <= y < Z.of_nat rows ->
  accepted_vector (uniform rows cols v) (uniform rows cols v)
                  (Z.of_nat rows) (Z.of_nat cols) (x, y)
  = Some (window_start x - x, window_start y - y).
Proof.
  intros Hfin Hwet Hx Hy.
  set (g := uniform rows cols v).
  assert (Hcost : forall c, In c (window (Z.of_nat rows) (Z.of_nat cols) 5 x y)
                            -> match_error g v c = Some 0%float).
  { intros c Hc. apply window_In in Hc. unfold match_error, g.
    rewrite uniform_cell by lia.
    rewrite (absolute_difference_self v Hfin). reflexivity. }
  destruct (window_head (Z.of_nat rows) (Z.of_nat cols) x y Hx Hy)
    as [rest Hw].
  assert (Hmin : first_min PrimFloat.ltb (match_error g v)
                   (window (Z.of_nat rows) (Z.of_nat cols) 5 x y)
                   0%float (window_start x, window_start y)).
  { exists 0%nat. split; [now rewrite Hw|]. split.
    - apply Hcost. rewrite Hw. now left.
    - split.
      + intros j a' c' Hj Hc'. apply nth_error_In in Hj.
        rewrite (Hcost _ Hj) in Hc'. inversion Hc'; subst. reflexivity.
      + intros j a' c' Hj. lia. }
  apply (float_first_min_scan _ _ _ _ (match_error_number g v)) in Hmin.
  unfold accepted_vector. cbn [fst snd]. fold g.
  unfold g at 1. rewrite uniform_cell by lia. rewrite Hwet, Hmin.
  reflexivity.
Qed.

(** X16.  Ties go to the upper left.  On two identical frames of uniform
    rain (every cell holds the same finite value above 0.1) every cell is
    matched with the first cell of its search window, not with itself: the
    displacement accepted for cell [(x, y)] is
    [(max(0, x - 5) - x, max(0, y - 5) - y)], and the estimator averages
    these, so it reports a drift to the upper left for a field that did not
    move. *)
Theorem unchanged_uniform_field_seems_to_move (host : Host)
  (rows cols : nat) (v : float) (r1 r2 : FrameRecord) (st : ImageTracker) :
  grid r1 = uniform rows cols v -> grid r2 = uniform rows cols v ->
  finite v -> (0.1 <? v)%float = true -> (0 < rows)%nat ->
  let vs :=
    List.map (fun xy => (window_start (fst xy) - fst xy,
                         window_start (snd xy) - snd xy))
             (cells (Z.of_nat rows) (Z.of_nat cols)) in
  let n := Z.of_nat (length vs) in
  (forall x y,
      0 <= x < Z.of_nat cols -> 0 <= y < Z.of_nat rows ->
      accepted_vector (grid r1) (grid r2) (Z.of_nat rows) (Z.of_nat cols)
                      (x, y)
      = Some (window_start x - x, window_start y - y)) /\
  Averaging.trackMovement host r1 r2 st =
  (Normal tt,
   if 10 <? n
   then Averaging.calculateSpeed host (mean (sum_dx vs) n)
                                 (mean (sum_dy vs) n)
                                 (timestamp r1) (timestamp r2) st
   else show st AmbiguousMotion).
Proof.
  intros Hg1 Hg2 Hfin Hwet Hrows vs n. rewrite Hg1, Hg2.
  split.
  - intros x y Hx Hy. now apply uniform_accepted_vector.
  - assert (Hrow0 : zget (grid r1) 0 = Some (repeat v cols)).
    { rewrite Hg1. unfold uniform. destruct rows; [lia|]. reflexivity. }
    rewrite (trackMovement_reports_mean host r1 r2 st _ Hrow0)
      by (rewrite Hg1, Hg2; lia).
    cbv zeta. rewrite Hg1, Hg2, uniform_length, repeat_length.
    assert (E : accepted_vectors (uniform rows cols v) (uniform rows cols v)
                                 (Z.of_nat rows) (Z.of_nat cols) = vs).
    { unfold accepted_vectors, vs.
      assert (H : forall l : list (Z * Z),
                 (forall xy, In xy l ->
                             0 <= fst xy < Z.of_nat cols /\
                             0 <= snd xy < Z.of_nat rows) ->
                 flat_map
                   (fun xy =>
                      match accepted_vector (uniform rows cols v)
                                            (uniform rows cols v)
                                            (Z.of_nat rows) (Z.of_nat cols)
                                            xy with
                      | Some d => [d]
                      | None => []
                      end) l
                 = List.map (fun xy => (window_start (fst xy) - fst xy,
                                        window_start (snd xy) - snd xy)) l).
      { induction l as [|[x y] l IH]; intros Hl; [reflexivity|].
        cbn [flat_map List.map fst snd].
        destruct (Hl (x, y) (or_introl eq_refl)) as [Hx Hy].
        cbn [fst snd] in Hx, Hy.
        rewrite (uniform_accepted_vector rows cols v x y Hfin Hwet Hx Hy).
        cbn [app]. f_equal. apply IH. intros xy Hxy. apply Hl. now right. }
      apply H. intros xy Hxy. now apply cells_In in Hxy. }
    rewrite E. reflexivity.
Qed.

Lemma one_is_finite : finite 1%float.
Proof. exact I. Defined.

Lemma unchanged_uniform_field_witness :
  grid {| timestamp := "12:00"; grid := uniform 4 4 1 |} = uniform 4 4 1 /\
  grid {| timestamp := "12:05"; grid := uniform 4 4 1 |} = uniform 4 4 1 /\
  finite 1%float /\ (0.1 <? 1)%float = true /\ (0 < 4)%nat /\
  accepted_vector (uniform 4 4 1) (uniform 4 4 1) 4 4 (3, 2)
  = Some (-3, -2).
Proof.
  split; [reflexivity|]. split; [reflexivity|]. split; [exact I|].
  split; [reflexivity|]. split; [lia|].
  assert (H3 : 0 <= 3 < Z.of_nat 4) by (simpl; lia).
  assert (H2 : 0 <= 2 < Z.of_nat 4) by (simpl; lia).
  exact (proj1 (unchanged_uniform_field_seems_to_move
                  demo_host 4 4 1%float
                  {| timestamp := "12:00"; grid := uniform 4 4 1 |}
                  {| timestamp := "12:05"; grid := uniform 4 4 1 |}
                  averaging_tracker eq_refl eq_refl one_is_finite eq_refl
                  (Nat.lt_0_succ 3)) 3 2 H3 H2).
Defined.

(** ** What the single-target estimator can report *)

Lemma active_in_grid (g : list (list float)) (c : Z * Z) :
  active g c = true ->
  0 <= fst c /\ 0 <= snd c < Z.of_nat (length g).
Proof.
  unfold active, cell.
  destruct (zget g (snd c)) as [row|] eqn:Hrow; [|discriminate].
  destruct (zget row (fst c)) as [v|] eqn:Hv; [|discriminate].
  intros _. apply zget_Some in Hrow, Hv.
  destruct Hrow as [H0 Hrow], Hv as [H1 _].
  assert (Z.to_nat (snd c) < length g)%nat
    by (apply nth_error_Some; congruence).
  lia.
Qed.

Lemma square_pos (a : Z) : a <> 0 -> 0 < a * a.
Proof.
  intros Ha. destruct (Z.lt_ge_cases a 0).
  - apply Z.mul_neg_neg; lia.
  - apply Z.mul_pos_pos; lia.
Qed.

Lemma distance_sq_pos ref c : c <> ref -> 0 < distance_sq ref c.
Proof.
  destruct ref as [rx ry], c as [cx cy]. unfold distance_sq. cbn [fst snd].
  intros Hne.
  pose proof (Z.square_nonneg (cx - rx)) as Hx.
  pose proof (Z.square_nonneg (cy - ry)) as Hy.
  destruct (Z.eq_dec cx rx) as [Ex|Ex].
  - destruct (Z.eq_dec cy ry) as [Ey|Ey]; [congruence|].
    pose proof (square_pos (cy - ry) ltac:(lia)). lia.
  - pose proof (square_pos (cx - rx) ltac:(lia)). lia.
Qed.

Lemma distance_sq_self ref : distance_sq ref ref = 0.
Proof. unfold distance_sq. lia. Qed.

Lemma row_major_differs a b : row_major a b -> a <> b.
Proof. unfold row_major. intros H E. subst. lia. Qed.

(** The reference cell, still active, is the nearest active cell. *)
Lemma nearest_target_at_reference (g2 : list (list float)) (rows cols : Z)
  (ref : Z * Z) :
  active g2 ref = true ->
  0 <= fst ref < cols -> 0 <= snd ref < rows ->
  nearest_target g2 rows cols ref = Some (0, ref).
Proof.
  intros Hact Hx Hy. unfold nearest_target. apply Z_first_min_scan.
  assert (Hin : In ref (window rows cols 8 (fst ref) (snd ref)))
    by (apply window_In; lia).
  apply In_nth_error in Hin. destruct Hin as [i Hi].
  exists i. split; [exact Hi|]. split.
  - unfold target_cost. now rewrite Hact, distance_sq_self.
  - split.
    + intros j a' c' _ Hc'. unfold target_cost in Hc'.
      destruct (active g2 a'); [|discriminate]. inversion Hc'; subst.
      apply Z.ltb_ge. unfold distance_sq.
      pose proof (Z.square_nonneg (fst a' - fst ref)).
      pose proof (Z.square_nonneg (snd a' - snd ref)). lia.
    + intros j a' c' Hji Hj Hc'. unfold target_cost in Hc'.
      destruct (active g2 a'); [|discriminate]. inversion Hc'; subst.
      apply Z.ltb_lt. apply distance_sq_pos.
      apply row_major_differs.
      exact (sorted_nth _ _ (window_row_major rows cols 8 (fst ref) (snd ref))
                        i j a' ref Hji Hj Hi).
Qed.

(** X17.  A target that stays at the crosshair is stationary.  If the
    reference cell is active in the older grid and still active in the
    newer one, the single-target estimator shows "Stationär", whatever else
    is active around it. *)
Theorem target_at_the_crosshair_is_stationary (host : Host)
  (r1 r2 : FrameRecord) (st : ImageTracker) (row0 : list float)
  (ref : Z * Z) :
  zget (grid r1) 0 = Some row0 ->
  (length (grid r1) <= length (grid r2))%nat ->
  reference_cell (leafletMap st) (GRID_SIZE st) = Some ref ->
  active (grid r1) ref = true -> active (grid r2) ref = true ->
  fst ref < Z.of_nat (length row0) ->
  SingleTarget.trackMovementFromCenter host r1 r2 st
  = (Normal tt, show st "Stationär").
Proof.
  intros Hrow0 Hlen Href Ha1 Ha2 Hcols.
  rewrite (trackMovementFromCenter_reports_nearest host r1 r2 st row0
             Hrow0 Hlen).
  cbv zeta. rewrite Href, Ha1.
  destruct (active_in_grid _ _ Ha1) as [Hx Hy].
  rewrite nearest_target_at_reference by (auto; lia).
  rewrite !Z.sub_diag. reflexivity.
Qed.

Lemma target_at_the_crosshair_witness :
  zget (grid (spot_record "12:00" 5 5)) 0 = Some (repeat 0%float 10) /\
  (length (grid (spot_record "12:00" 5 5))
   <= length (grid (spot_record "12:05" 5 5)))%nat /\
  reference_cell (leafletMap single_tracker) (GRID_SIZE single_tracker)
  = Some (5, 5) /\
  active (grid (spot_record "12:00" 5 5)) (5, 5) = true /\
  active (grid (spot_record "12:05" 5 5)) (5, 5) = true /\
  fst (5, 5) < Z.of_nat (length (repeat 0%float 10)) /\
  SingleTarget.trackMovementFromCenter
    demo_host (spot_record "12:00" 5 5) (spot_record "12:05" 5 5)
    single_tracker
  = (Normal tt, show single_tracker "Stationär").
Proof.
  split; [reflexivity|]. split; [simpl; lia|]. split; [reflexivity|].
  split; [reflexivity|]. split; [reflexivity|]. split; [reflexivity|].
  exact (target_at_the_crosshair_is_stationary
           demo_host (spot_record "12:00" 5 5) (spot_record "12:05" 5 5)
           single_tracker (repeat 0%float 10) (5, 5)
           eq_refl (le_n 10) eq_refl eq_refl eq_refl eq_refl).
Defined.

Lemma delta_zero_all : forallb delta_zero_ok (zaround 8) = true.
Proof. vm_compute. reflexivity. Qed.

Lemma delta_zero (d : Z) :
  Z.abs d <= 8 -> (float_of_Z d =? 0)%float = (d =? 0).
Proof.
  intros Hd. pose proof delta_zero_all as Hall.
  rewrite forallb_forall in Hall.
  assert (Hin : In d (zaround 8)) by (apply zspan_In; lia).
  specialize (Hall _ Hin). unfold delta_zero_ok in Hall.
  now apply Bool.eqb_prop in Hall.
Qed.

(** X18.  A target that has left the crosshair is never stationary.  If
    the reference cell is active in the older grid and no longer in the
    newer one, while some cell of the search window is, the single-target
    estimator hands [calculateSpeed] the displacement to an active cell
    other than the reference cell, at most eight cells away in either
    direction, and the result is a speed, or nothing at all when the
    elapsed time is not positive, but not "Stationär". *)
Theorem moved_target_is_never_stationary (host : Host)
  (r1 r2 : FrameRecord) (st : ImageTracker) (row0 : list float)
  (ref c : Z * Z) :
  zget (grid r1) 0 = Some row0 ->
  (length (grid r1) <= length (grid r2))%nat ->
  reference_cell (leafletMap st) (GRID_SIZE st) = Some ref ->
  active (grid r1) ref = true -> active (grid r2) ref = false ->
  let rows := Z.of_nat (length (grid r1)) in
  let cols := Z.of_nat (length row0) in
  In c (window rows cols 8 (fst ref) (snd ref)) ->
  active (grid r2) c = true ->
  exists b,
    In b (window rows cols 8 (fst ref) (snd ref)) /\
    active (grid r2) b = true /\ b <> ref /\
    Z.abs (fst b - fst ref) <= 8 /\ Z.abs (snd b - snd ref) <= 8 /\
    let elapsed := timeDiffSeconds host (timestamp r1) (timestamp r2) in
    let meters :=
      displacement_meters (leafletMap st) (GRID_SIZE st)
                          (float_of_Z (fst b - fst ref))
                          (float_of_Z (snd b - snd ref)) in
    let speed := (toFixed1 host (kmh meters elapsed) ++ " km/h")%string in
    SingleTarget.trackMovementFromCenter host r1 r2 st =
    (Normal tt,
     if (elapsed <=? 0)%float then st
     else log (show st ("~ " ++ speed)%string)
              ("Calculated speed: " ++ speed)%string).
Proof.
  intros Hrow0 Hlen Href Ha1 Ha2 rows cols Hc Hac.
  destruct (nearest_target (grid r2) rows cols ref) as [[d b]|] eqn:Hn.
  2:{ pose proof (proj1 (proj2 (nearest_target_spec (grid r2) rows cols ref))
                        Hn c Hc) as Hnone.
      rewrite Hnone in Hac. discriminate. }
  pose proof (proj1 (proj1 (nearest_target_spec (grid r2) rows cols ref) d b)
                    Hn) as Hf.
  destruct Hf as (i & Hi & Hcost & _).
  apply nth_error_In in Hi.
  assert (Hab : active (grid r2) b = true).
  { unfold target_cost in Hcost. destruct (active (grid r2) b);
      [reflexivity|discriminate]. }
  assert (Hne : b <> ref) by (intros ->; congruence).
  pose proof (proj1 (window_In rows cols 8 (fst ref) (snd ref) b) Hi)
    as (Hbx & Hby & _).
  exists b. split; [exact Hi|]. split; [exact Hab|]. split; [exact Hne|].
  split; [exact Hbx|]. split; [exact Hby|].
  cbv zeta.
  rewrite (trackMovementFromCenter_reports_nearest host r1 r2 st row0
             Hrow0 Hlen).
  cbv zeta. fold rows cols. rewrite Href, Ha1, Hn.
  unfold SingleTarget.calculateSpeed.
  rewrite (delta_zero _ Hbx), (delta_zero _ Hby).
  assert (Hnz : (fst b - fst ref =? 0) && (snd b - snd ref =? 0) = false).
  { apply andb_false_iff.
    destruct (Z.eq_dec (fst b) (fst ref)) as [Ex|Ex];
      [|left; apply Z.eqb_neq; lia].
    destruct (Z.eq_dec (snd b) (snd ref)) as [Ey|Ey];
      [|right; apply Z.eqb_neq; lia].
    exfalso. apply Hne. destruct b, ref. cbn [fst snd] in *. congruence. }
  rewrite Hnz. reflexivity.
Qed.

Lemma moved_target_witness :
  zget (grid (spot_record "12:00" 5 5)) 0 = Some (repeat 0%float 10) /\
  (length (grid (spot_record "12:00" 5 5))
   <= length (grid (spot_record "12:05" 6 5)))%nat /\
  reference_cell (leafletMap single_tracker) (GRID_SIZE single_tracker)
  = Some (5, 5) /\
  active (grid (spot_record "12:00" 5 5)) (5, 5) = true /\
  active (grid (spot_record "12:05" 6 5)) (5, 5) = false /\
  In (6, 5) (window 10 10 8 5 5) /\
  active (grid (spot_record "12:05" 6 5)) (6, 5) = true /\
  exists b, In b (window 10 10 8 5 5) /\
            active (grid (spot_record "12:05" 6 5)) b = true /\ b <> (5, 5).
Proof.
  assert (Hin : In (6, 5) (window 10 10 8 5 5))
    by (apply window_In; cbn; lia).
  split; [reflexivity|]. split; [simpl; lia|]. split; [reflexivity|].
  split; [reflexivity|]. split; [reflexivity|]. split; [exact Hin|].
  split; [reflexivity|].
  destruct (moved_target_is_never_stationary
              demo_host (spot_record "12:00" 5 5) (spot_record "12:05" 6 5)
              single_tracker (repeat 0%float 10) (5, 5) (6, 5)
              eq_refl (le_n 10) eq_refl eq_refl eq_refl Hin eq_refl)
    as (b & Hb & Hab & Hne & _).
  exists b. split; [exact Hb|]. split; [exact Hab|exact Hne].
Defined.

(** ** Timestamps that cannot be read *)

Lemma sub_nan_l x : (nan - x)%float = nan.
Proof.
  apply Prim2SF_inj. rewrite sub_spec.
  change (Prim2SF nan) with S754_nan. reflexivity.
Qed.

Lemma sub_nan_r x : (x - nan)%float = nan.
Proof.
  apply Prim2SF_inj. rewrite sub_spec.
  change (Prim2SF nan) with S754_nan.
  destruct (Prim2SF x) as [[]|[]| |[] m e]; reflexivity.
Qed.

Lemma div_nan_l x : (nan / x)%float = nan.
Proof.
  apply Prim2SF_inj. rewrite div_spec.
  change (Prim2SF nan) with S754_nan. reflexivity.
Qed.

Lemma div_nan_r x : (x / nan)%float = nan.
Proof.
  apply Prim2SF_inj. rewrite div_spec.
  change (Prim2SF nan) with S754_nan.
  destruct (Prim2SF x) as [[]|[]| |[] m e]; reflexivity.
Qed.

Lemma timeDiffSeconds_nan host time1 time2 :
  Date_ms host time1 = nan \/ Date_ms host time2 = nan ->
  timeDiffSeconds host time1 time2 = nan.
Proof.
  unfold timeDiffSeconds. intros [E|E]; rewrite E.
  - now rewrite sub_nan_r, div_nan_l.
  - now rewrite sub_nan_l, div_nan_l.
Qed.

(** X19.  A timestamp [Date] cannot read is not caught by the test
    [timeDiffSeconds <= 0]: unless the displacement counts as stationary,
    [calculateSpeed] then shows "~ NaN km/h" and logs the same, in both
    trackers. *)
Theorem unreadable_timestamp_shows_NaN (host : Host)
  (dxCells dyCells : float) (time1 time2 : string) (st : ImageTracker) :
  Date_ms host time1 = nan \/ Date_ms host time2 = nan ->
  let shown :=
    log (show st "~ NaN km/h") "Calculated speed: NaN km/h" in
  (if (dxCells =? 0)%float && (dyCells =? 0)%float
   then SingleTarget.calculateSpeed host dxCells dyCells time1 time2 st
        = show st "Stationär"
   else SingleTarget.calculateSpeed host dxCells dyCells time1 time2 st
        = shown) /\
  (if (pixel_distance (GRID_SIZE st) dxCells dyCells <? 1)%float
   then Averaging.calculateSpeed host dxCells dyCells time1 time2 st
        = show st "StationÃ¤r"
   else Averaging.calculateSpeed host dxCells dyCells time1 time2 st
        = shown).
Proof.
  intros Hnan shown. pose proof (timeDiffSeconds_nan host _ _ Hnan) as Hdt.
  split.
  - unfold SingleTarget.calculateSpeed.
    destruct ((dxCells =? 0)%float && (dyCells =? 0)%float); [reflexivity|].
    rewrite Hdt, div_nan_r. reflexivity.
  - unfold Averaging.calculateSpeed.
    fold (pixel_distance (GRID_SIZE st) dxCells dyCells).
    destruct (pixel_distance (GRID_SIZE st) dxCells dyCells <? 1)%float;
      [reflexivity|].
    rewrite Hdt, div_nan_r. reflexivity.
Qed.

Lemma unreadable_timestamp_witness :
  (Date_ms demo_host "12:00" = nan \/ Date_ms demo_host "noon" = nan) /\
  SingleTarget.calculateSpeed demo_host 1 0 "12:00" "noon" single_tracker
  = log (show single_tracker "~ NaN km/h") "Calculated speed: NaN km/h".
Proof.
  split; [right; reflexivity|].
  exact (proj1 (unreadable_timestamp_shows_NaN
                  demo_host 1 0 "12:00" "noon" single_tracker
                  (or_intror eq_refl))).
Defined.

(** ** The proxy *)

Lemma prefix_app (p s t : string) :
  String.prefix p s = true -> String.prefix p (s ++ t) = true.
Proof.
  revert p. induction s as [|b s IH]; intros p.
  - destruct p as [|a p]; [|discriminate]. intros _. now destruct t.
  - destruct p as [|a p]; [reflexivity|].
    cbn [String.prefix String.append].
    destruct (ascii_dec a b); [apply IH|discriminate].
Qed.

Lemma substr0_prefix (p s : string) :
  String.eqb (Proxy.substr0 s (String.length p)) p = String.prefix p s.
Proof.
  unfold Proxy.substr0.
  destruct (String.prefix p s) eqn:E.
  - apply String.eqb_eq. now apply prefix_correct.
  - apply String.eqb_neq. intros H. apply prefix_correct in H. congruence.
Qed.

Lemma unset_key (a : list (string * Proxy.php_value)) (k : string) :
  Proxy.array_get (Proxy.unset a k) k = None.
Proof.
  unfold Proxy.unset. induction a as [|[k' v] a IH]; [reflexivity|].
  cbn [filter fst]. destruct (String.eqb k' k) eqn:E; cbn [negb].
  - exact IH.
  - cbn [Proxy.array_get]. now rewrite E.
Qed.

(** X20.  The proxy fetches from the DWD map service only.  A request is
    forwarded exactly when its method is not OPTIONS and its [url]
    parameter is a string that begins with
    [https://maps.dwd.de/geoserver/dwd/wms]; the URL fetched is that
    string, followed, if the request has other parameters, by [?] (or [&]
    if the string holds a [?] already) and their query string, to which
    [url] itself does not belong, so it begins with the same prefix.  Every
    other request is answered without a fetch: OPTIONS with 200, a missing
    [url] with 400, any other [url] string with 403, and a [url] given as an
    array ends the script with a [TypeError].  Every answer carries the
    three CORS headers. *)
Theorem proxy_fetches_only_the_allowed_service (php : Proxy.Php)
  (method : string) (GET : list (string * Proxy.php_value)) :
  match Proxy.handle php method GET with
  | Proxy.Sent r (Some target) =>
    method <> "OPTIONS"%string /\
    String.prefix Proxy.allowedPrefix target = true /\
    firstn 3 (Proxy.headers r) = Proxy.cors /\
    exists url,
      Proxy.array_get GET "url" = Some (Proxy.PString url) /\
      String.prefix Proxy.allowedPrefix url = true /\
      let params := Proxy.unset GET "url" in
      Proxy.array_get params "url" = None /\
      target =
      match params with
      | [] => url
      | _ :: _ =>
        (url ++ (if Proxy.has_char "?"%char url then "&" else "?")
             ++ Proxy.http_build_query php params)%string
      end
  | Proxy.Sent r None =>
    Proxy.headers r = Proxy.cors /\
    ((method = "OPTIONS"%string /\ Proxy.status r = 200) \/
     (method <> "OPTIONS"%string /\ Proxy.array_get GET "url" = None /\
      Proxy.status r = 400) \/
     (method <> "OPTIONS"%string /\ Proxy.status r = 403 /\
      exists url,
        Proxy.array_get GET "url" = Some (Proxy.PString url) /\
        String.prefix Proxy.allowedPrefix url = false))
  | Proxy.Uncaught e =>
    method <> "OPTIONS"%string /\ e = TypeError /\
    exists items, Proxy.array_get GET "url" = Some (Proxy.PArray items)
  end.
Proof.
  unfold Proxy.handle.
  destruct (String.eqb method "OPTIONS") eqn:Hm.
  { apply String.eqb_eq in Hm. split; [reflexivity|]. now left. }
  apply String.eqb_neq in Hm.
  destruct (Proxy.array_get GET "url") as [[url|items]|] eqn:Hurl.
  - rewrite substr0_prefix.
    destruct (String.prefix Proxy.allowedPrefix url) eqn:Hp; cbn [negb].
    + destruct (Proxy.curl php _) as [[response httpCode] contentType] eqn:Hc.
      split; [exact Hm|]. split.
      * destruct (Proxy.unset GET "url"); [exact Hp|].
        now apply prefix_app.
      * split; [reflexivity|]. exists url. split; [reflexivity|].
        split; [exact Hp|]. split; [apply unset_key|].
        destruct (Proxy.unset GET "url"); reflexivity.
    + split; [reflexivity|]. right. right. split; [exact Hm|].
      split; [reflexivity|]. now exists url.
  - split; [exact Hm|]. split; [reflexivity|]. now exists items.
  - split; [reflexivity|]. right. left. auto.
Qed.

(** ** From the legend to the classifier *)

Lemma Forall2_left (A B : Type) (P : A -> B -> Prop) (l : list A)
  (l' : list B) :
  Forall2 P l l' -> Forall (fun a => exists b, P a b) l.
Proof. induction 1; constructor; eauto. Qed.

Lemma zget_In (A : Type) (arr : list A) (i : Z) (v : A) :
  zget arr i = Some v -> In v arr.
Proof.
  unfold zget. destruct (i <? 0); [discriminate|]. apply nth_error_In.
Qed.

Lemma getPixel_bytes (img : Image) (x y r g b a : Z) :
  Forall is_byte (img_data img) ->
  getPixel img x y = (r, g, b, a) -> rgb24 (r, g, b).
Proof.
  intros Hb. rewrite Forall_forall in Hb. unfold getPixel.
  assert (H0 : (0, 0, 0, 0) = (r, g, b, a) -> rgb24 (r, g, b)).
  { intros E. inversion E. unfold rgb24, is_byte. lia. }
  destruct (_ && _); [|exact H0].
  destruct (zget _ _) as [r'|] eqn:Er; [|exact H0].
  destruct (zget _ (_ + 1)) as [g'|] eqn:Eg; [|exact H0].
  destruct (zget _ (_ + 2)) as [b'|] eqn:Eb; [|exact H0].
  destruct (zget _ (_ + 3)) as [a'|]; [|exact H0].
  intros E. inversion E; subst.
  apply zget_In in Er, Eg, Eb. unfold rgb24. auto.
Qed.

Lemma center_sample_bytes (img : Image) (y : Z) (hex : string) :
  Forall is_byte (img_data img) ->
  center_sample img y = Some hex -> exists c, rgb24 c /\ hex = hex_of c.
Proof.
  intros Hb. unfold center_sample.
  destruct (getPixel img (img_width img / 2) y) as [[[r g] b] a] eqn:Ep.
  destruct (_ && _); [|discriminate]. intros E. inversion E.
  exists (r, g, b). split; [|reflexivity].
  exact (getPixel_bytes img _ y r g b a Hb Ep).
Qed.

Lemma band_sample_bytes (img : Image) (x y : Z) (hex : string) :
  Forall is_byte (img_data img) ->
  band_sample img x y = Some hex -> exists c, rgb24 c /\ hex = hex_of c.
Proof.
  intros Hb. unfold band_sample.
  destruct (getPixel img x y) as [[[r g] b] a] eqn:Ep.
  destruct (_ && _); [|discriminate]. intros E. inversion E.
  exists (r, g, b). split; [|reflexivity].
  exact (getPixel_bytes img x y r g b a Hb Ep).
Qed.

Lemma table_of_byte_keys (m : ColorMap) :
  NoDup (Map_keys m) ->
  Forall (fun k => exists c, rgb24 c /\ k = hex_of c) (Map_keys m) ->
  exists t, wf_table t /\ map_of_table t = m.
Proof.
  induction m as [|[k v] m IH]; cbn [Map_keys map fst]; intros Hnd Hk.
  - exists []. repeat constructor.
  - inversion Hnd as [|k0 l0 Hnotin Hnd']; subst.
    inversion Hk as [|k0 l0 (c & Hc & E) Hk']; subst.
    destruct (IH Hnd' Hk') as (t & [Hb Hd] & Et).
    exists ((c, v) :: t). split; [split|].
    + cbn. constructor; assumption.
    + cbn. constructor; [|exact Hd]. intros Hin. apply Hnotin.
      rewrite <- Et. unfold map_of_table. rewrite map_map. cbn [fst].
      apply in_map_iff in Hin. destruct Hin as ([c' v'] & Ec & Hin).
      cbn [fst] in Ec. subst c'. apply in_map_iff.
      exists (c, v'). split; [reflexivity|exact Hin].
    + rewrite <- Et. reflexivity.
Qed.

Lemma table_In_of_get (t : ColorTable) (c : rgb) (rank : Z) :
  wf_table t -> rgb24 c ->
  Map_get (map_of_table t) (hex_of c) = Some rank -> In (c, rank) t.
Proof.
  intros [Hb Hd] Hc. induction t as [|[c' rank'] t IH]; [discriminate|].
  cbn [map_of_table map fst snd Map_get].
  cbn in Hb, Hd. inversion Hb; subst. inversion Hd; subst.
  destruct (String.eqb (hex_of c') (hex_of c)) eqn:E.
  - apply String.eqb_eq in E. apply hex_of_inj in E; try assumption.
    subst c'. intros E'. inversion E'. now left.
  - intros Hg. right. now apply IH.
Qed.

Lemma byte_keys_recognised (m : ColorMap) (r g b rank : Z) :
  NoDup (Map_keys m) ->
  Forall (fun k => exists c, rgb24 c /\ k = hex_of c) (Map_keys m) ->
  rgb24 (r, g, b) ->
  Map_get m (hex_of_rgb r g b) = Some rank ->
  classify (Some m) r g b = Some rank.
Proof.
  intros Hnd Hk Hc Hg.
  destruct (table_of_byte_keys m Hnd Hk) as (t & Hwf & <-).
  apply exact_color_rank; [exact Hwf|].
  now apply table_In_of_get.
Qed.

Lemma averaging_table_keys (url : string) (img : Image) (st : ImageTracker) :
  Forall is_byte (img_data img) ->
  exists m,
    legendColorMap (snd (Averaging.parseLegend url (Some img) st)) = Some m /\
    NoDup (Map_keys m) /\
    Forall (fun k => exists c, rgb24 c /\ k = hex_of c) (Map_keys m) /\
    forall y hex, 0 <= y < img_height img ->
                  center_sample img y = Some hex -> In hex (Map_keys m).
Proof.
  intros Hb.
  destruct (averaging_parseLegend_table url img st)
    as (Hparse & Hkeys & _ & _ & Hnd).
  cbv zeta in *.
  pose proof (scan_rows_invariant (center_sample img)
                                  (Z.to_nat (img_height img))) as Hinv.
  cbv zeta in Hinv. rewrite <- zrange_to_nat in Hinv.
  set (colors := scan_rows (center_sample img) (zrange (img_height img)) [])
    in *.
  set (m := Map_new (with_ranks colors)) in *.
  destruct Hinv as (_ & (rows & Hrows & _) & Hall).
  exists m. rewrite Hparse, Hkeys. split; [reflexivity|].
  split; [exact Hnd|]. split.
  - apply Forall2_left in Hrows. rewrite Forall_forall in Hrows.
    apply Forall_forall.
    intros hex Hin. destruct (Hrows hex Hin) as (y & _ & Hs & _).
    now apply (center_sample_bytes img y).
  - intros y hex Hy. apply Hall.
    destruct (img_height img); lia.
Qed.

Lemma single_table_keys (url : string) (img : Image) (st : ImageTracker) :
  Forall is_byte (img_data img) ->
  exists m,
    legendColorMap (snd (SingleTarget.parseLegend url (Some img) st))
    = Some m /\
    NoDup (Map_keys m) /\
    Forall (fun k => exists c, rgb24 c /\ k = hex_of c) (Map_keys m).
Proof.
  intros Hb.
  destruct (single_parseLegend_table url img st)
    as (Hparse & Hkeys & _ & _ & Hnd).
  cbv zeta in *.
  pose proof (band_scan_invariant img (Z.to_nat (img_height img))) as Hinv.
  cbv zeta in Hinv. rewrite <- zrange_to_nat in Hinv.
  set (colors :=
         fst (fold_left (band_step img) (zrange (img_height img)) ([], [])))
    in *.
  set (m := Map_new (with_ranks colors)) in *.
  destruct Hinv as (rows & _ & Hlen & _ & _ & _ & Hrec & _).
  exists m. rewrite Hparse, Hkeys. split; [reflexivity|].
  split; [exact Hnd|].
  apply Forall_forall.
  intros hex Hin. apply In_nth_error in Hin. destruct Hin as [k Hk].
  destruct (nth_error rows k) as [y|] eqn:Hy.
  - destruct (Hrec k hex y Hk Hy) as (_ & x & _ & Hs & _).
    now apply (band_sample_bytes img x y).
  - apply nth_error_None in Hy.
    assert (k < length colors)%nat by (apply nth_error_Some; congruence).
    lia.
Qed.

(** X21.  From the legend to the classifier and back.  After [parseLegend]
    has read a legend image of bytes, a pixel that has exactly a colour of
    the table it built is classified with the rank the table gives that
    colour, in both trackers; and in the averaging tracker the table holds
    the colour of every qualifying pixel of the centre column, so each of
    them is recognised. *)
Theorem parsed_legend_colors_are_recognised (url : string) (img : Image)
  (st : ImageTracker) :
  Forall is_byte (img_data img) ->
  (exists m,
      legendColorMap (snd (Averaging.parseLegend url (Some img) st))
      = Some m /\
      (forall r g b rank,
          rgb24 (r, g, b) -> Map_get m (hex_of_rgb r g b) = Some rank ->
          classify (Some m) r g b = Some rank) /\
      (forall y r g b a,
          0 <= y < img_height img ->
          getPixel img (img_width img / 2) y = (r, g, b, a) ->
          200 < a -> r + g + b < 700 ->
          exists rank,
            Map_get m (hex_of_rgb r g b) = Some rank /\
            classify (Some m) r g b = Some rank)) /\
  (exists m,
      legendColorMap (snd (SingleTarget.parseLegend url (Some img) st))
      = Some m /\
      (forall r g b rank,
          rgb24 (r, g, b) -> Map_get m (hex_of_rgb r g b) = Some rank ->
          classify (Some m) r g b = Some rank)).
Proof.
  intros Hb. split.
  - destruct (averaging_table_keys url img st Hb) as (m & Em & Hnd & Hk & Hall).
    exists m. split; [exact Em|].
    assert (Hrec : forall r g b rank,
               rgb24 (r, g, b) -> Map_get m (hex_of_rgb r g b) = Some rank ->
               classify (Some m) r g b = Some rank).
    { intros r g b rank. now apply byte_keys_recognised. }
    split; [exact Hrec|].
    intros y r g b a Hy Hp Ha Hsum.
    assert (Hs : center_sample img y = Some (hex_of_rgb r g b)).
    { unfold center_sample. rewrite Hp.
      replace (200 <? a) with true by (symmetry; apply Z.ltb_lt; lia).
      replace (r + g + b <? 700) with true by (symmetry; apply Z.ltb_lt; lia).
      reflexivity. }
    destruct (Map_get_key m _ (Hall y _ Hy Hs)) as [rank Hg].
    exists rank. split; [exact Hg|].
    apply Hrec; [|exact Hg]. exact (getPixel_bytes img _ y r g b a Hb Hp).
  - destruct (single_table_keys url img st Hb) as (m & Em & Hnd & Hk).
    exists m. split; [exact Em|].
    intros r g b rank. now apply byte_keys_recognised.
Qed.

Lemma solid_bytes (w h : Z) (px : list Z) :
  Forall is_byte px -> Forall is_byte (img_data (solid w h px)).
Proof.
  intros Hpx. unfold solid. cbn [img_data]. apply Forall_concat.
  apply Forall_forall. intros l Hl. apply repeat_spec in Hl. now subst.
Qed.

Lemma blue_bytes : Forall is_byte blue.
Proof. unfold blue, is_byte. repeat (constructor; [lia|]). constructor. Qed.

Lemma parsed_legend_colors_witness :
  Forall is_byte (img_data blue_legend) /\
  exists m,
    legendColorMap
      (snd (Averaging.parseLegend "legend.png" (Some blue_legend)
                                  averaging_tracker)) = Some m /\
    Map_get m (hex_of_rgb 0 0 255) = Some 1 /\
    classify (Some m) 0 0 255 = Some 1.
Proof.
  split; [exact (solid_bytes 4 3 blue blue_bytes)|].
  destruct (parsed_legend_colors_are_recognised
              "legend.png" blue_legend averaging_tracker
              (solid_bytes 4 3 blue blue_bytes))
    as [(m & Em & Hrec & _) _].
  exists m. split; [exact Em|].
  assert (Hg : Map_get m (hex_of_rgb 0 0 255) = Some 1).
  { vm_compute in Em. inversion Em. reflexivity. }
  split; [exact Hg|].
  apply Hrec; [|exact Hg]. unfold rgb24, is_byte. lia.
Defined.
